(** * codex-transcriber: a shallow embedding of [src/app.js]

    The development follows the layout of the source file: JavaScript
    strings and values, the width / wrap primitives, the conversation
    extractor, the session locator, the scroll controller of the
    conversation pane and the exporter.  Definitions keep the names of the
    JavaScript functions they embed.

    Conventions.  A string is its sequence of UTF-16 code units and a
    number is an integer.  A call that can throw returns an [Outcome].
    What Node.js provides ([JSON.parse], [Date], [path], [localeCompare],
    the working directory) is a field of the class [Host]; the file
    system is a tree that says, for each directory, whether [readdir]
    succeeds.  Asynchronous code is run to its end, and a state change of
    the [App] component is one transition together with the effects it
    triggers. *)

From Stdlib Require Import Ascii String.
From Stdlib Require Import List ZArith NArith Lia Bool.
From Stdlib Require Import Sorting.Sorted Sorting.Permutation.
From Stdlib Require Import Numbers.DecimalString.
Import ListNotations.

Set Warnings "-register-all".
Open Scope Z_scope.

(* ================================================================== *)
(** * JavaScript strings *)
(* ================================================================== *)

(** A JavaScript string is a sequence of UTF-16 code units.  [length],
    [slice], [startsWith] and [===] work on code units; [for (const char
    of text)] iterates code points. *)
Abbreviation jsstring := (list N).

(** An ASCII literal of the source as a code-unit sequence. *)
Definition lit (s : string) : jsstring :=
  map N_of_ascii (list_ascii_of_string s).

Definition str_eqb (a b : jsstring) : bool :=
  if list_eq_dec N.eq_dec a b then true else false.

(** [text.length] *)
Definition str_length (s : jsstring) : Z := Z.of_nat (length s).

(** [label.slice(0, end)]: a negative [end] counts from the back. *)
Definition slice0 (s : jsstring) (e : Z) : jsstring :=
  let len := str_length s in
  let final := if e <? 0 then Z.max (len + e) 0 else Z.min e len in
  firstn (Z.to_nat final) s.

(** [" ".repeat(n)] *)
Definition repeat_str (s : jsstring) (n : Z) : jsstring :=
  concat (repeat s (Z.to_nat n)).

(** [parts.join(sep)] for an array of strings. *)
Fixpoint join (sep : jsstring) (parts : list jsstring) : jsstring :=
  match parts with
  | [] => []
  | [p] => p
  | p :: rest => p ++ sep ++ join sep rest
  end.

(** [text.split("\n")]: always at least one piece. *)
Fixpoint split_on (c : N) (s : jsstring) : list jsstring :=
  match s with
  | [] => [[]]
  | u :: rest =>
      if N.eqb u c then [] :: split_on c rest
      else match split_on c rest with
           | [] => [[u]]
           | p :: ps => (u :: p) :: ps
           end
  end.

Fixpoint startsWith (s prefix : jsstring) : bool :=
  match prefix, s with
  | [], _ => true
  | p :: prefix', u :: s' => N.eqb p u && startsWith s' prefix'
  | _ :: _, [] => false
  end.

Definition endsWith (s suffix : jsstring) : bool :=
  startsWith (rev s) (rev suffix).

(** White space and line terminators as [trim] / [trimStart] see them. *)
Definition isWhiteSpace (u : N) : bool :=
  (N.leb 9 u && N.leb u 13) || N.eqb u 32 || N.eqb u 160 || N.eqb u 5760
  || (N.leb 8192 u && N.leb u 8202) || N.eqb u 8232 || N.eqb u 8233
  || N.eqb u 8239 || N.eqb u 8287 || N.eqb u 12288 || N.eqb u 65279.

Fixpoint trimStart (s : jsstring) : jsstring :=
  match s with
  | [] => []
  | u :: rest => if isWhiteSpace u then trimStart rest else s
  end.

Definition trimEnd (s : jsstring) : jsstring := rev (trimStart (rev s)).

Definition trim (s : jsstring) : jsstring := trimEnd (trimStart s).

(** ** Code points *)

Definition isHighSurrogate (u : N) : bool := N.leb 55296 u && N.leb u 56319.
Definition isLowSurrogate (u : N) : bool := N.leb 56320 u && N.leb u 57343.

(** The string iterator: each item is a string of one code point, that is
    one code unit, or a high surrogate followed by a low surrogate. *)
Fixpoint chars (s : jsstring) : list jsstring :=
  match s with
  | [] => []
  | u :: rest =>
      match rest with
      | l :: rest' =>
          if isHighSurrogate u && isLowSurrogate l
          then [u; l] :: chars rest'
          else [u] :: chars rest
      | [] => [[u]]
      end
  end.

(** [char.codePointAt(0)]; [None] is [undefined] (the empty string). *)
Definition codePointAt0 (char : jsstring) : option N :=
  match char with
  | [] => None
  | [u] => Some u
  | u :: l :: _ =>
      if isHighSurrogate u && isLowSurrogate l
      then Some (65536 + (u - 55296) * 1024 + (l - 56320))%N
      else Some u
  end.

(** [text || ""] for a value that is a string, [null] or [undefined]. *)
Definition orEmpty (text : option jsstring) : jsstring :=
  match text with Some s => s | None => [] end.

(* ================================================================== *)
(** * Width / wrap primitives *)
(* ================================================================== *)

Definition truncateLabel (label : option jsstring) (maxWidth : Z) : jsstring :=
  match label with
  | None | Some [] => []
  | Some label =>
      if str_length label <=? maxWidth then label
      else if maxWidth <=? 3 then slice0 label maxWidth
      else slice0 label (maxWidth - 3) ++ lit "..."
  end.

Definition charWidth (char : jsstring) : Z :=
  let code := match codePointAt0 char with Some c => c | None => 0%N end in
  if N.leb code 31 then 0
  else if N.leb code 127 then 1
  else 2.

Definition stringWidth (text : option jsstring) : Z :=
  fold_left (fun width char => width + charWidth char) (chars (orEmpty text)) 0.

Definition padRightByWidth (text : jsstring) (targetWidth : Z) : jsstring :=
  let currentWidth := stringWidth (Some text) in
  if currentWidth >=? targetWidth then text
  else text ++ repeat_str (lit " ") (targetWidth - currentWidth).

(** The loop of [truncateByWidth]; [break] returns the result so far. *)
Fixpoint truncateLoop (maxWidth : Z) (cs : list jsstring) (result : jsstring) (width : Z)
  : jsstring :=
  match cs with
  | [] => result
  | char :: cs' =>
      let charW := charWidth char in
      if width + charW >? maxWidth then result
      else truncateLoop maxWidth cs' (result ++ char) (width + charW)
  end.

Definition truncateByWidth (text : option jsstring) (maxWidth : Z) : jsstring :=
  match text with
  | None | Some [] => []
  | Some text =>
      if maxWidth <=? 0 then []
      else truncateLoop maxWidth (chars text) [] 0
  end.

(** The state of the loop of [wrapText]: the lines pushed so far, the line
    being filled and its width. *)
Record WrapState := mkWrap {
  lines : list jsstring;
  line : jsstring;
  lineWidth : Z
}.

Definition pushLine (st : WrapState) : WrapState :=
  mkWrap (lines st ++ [line st]) [] 0.

(** Placing one code point: the source has this block twice, once for each
    of the two spaces a tab expands to and once for an ordinary code
    point. *)
Definition placeChar (maxWidth : Z) (st : WrapState) (char : jsstring) : WrapState :=
  let width := charWidth char in
  let st1 :=
    if (lineWidth st + width >? maxWidth) && negb (str_eqb (line st) [])
    then pushLine st else st in
  let st2 := mkWrap (lines st1) (line st1 ++ char) (lineWidth st1 + width) in
  if lineWidth st2 >=? maxWidth then pushLine st2 else st2.

Definition CR : jsstring := [13%N].
Definition TAB : jsstring := [9%N].

Definition wrapStep (maxWidth : Z) (st : WrapState) (char : jsstring) : WrapState :=
  if str_eqb char CR then st
  else if str_eqb char TAB
  then fold_left (placeChar maxWidth) (chars (lit "  ")) st
  else placeChar maxWidth st char.

Definition wrapText (text : option jsstring) (maxWidth : Z) : list jsstring :=
  if maxWidth <=? 0 then [orEmpty text]
  else match text with
       | Some [] => [lit " "]
       | _ =>
           let st := fold_left (wrapStep maxWidth) (chars (orEmpty text))
                               (mkWrap [] [] 0) in
           if negb (str_eqb (line st) []) || (length (lines st) =? 0)%nat
           then lines st ++ [line st]
           else lines st
       end.

(** ** Rows *)

Inductive RowType := TText | TBoxBorder | TBoxText | TLabel | TSpacer.

Inductive Role := User | Assistant.

Record Row := mkRow {
  rtype : RowType;
  rrole : option Role;
  rtext : option jsstring
}.

Definition isLabel (t : RowType) : bool :=
  match t with TLabel => true | _ => false end.

(** [lines.forEach((line, index) => ...)] of [wrapRows]. *)
Fixpoint wrapRowLines (row : Row) (index : nat) (ls : list jsstring) : list Row :=
  match ls with
  | [] => []
  | l :: ls' =>
      let nextType :=
        if (index =? 0)%nat then rtype row
        else if isLabel (rtype row) then TText else rtype row in
      mkRow nextType (rrole row) (Some l) :: wrapRowLines row (S index) ls'
  end.

Definition wrapRows (rows : list Row) (maxWidth : Z) : list Row :=
  flat_map (fun row =>
    let ls := wrapText (Some (orEmpty (rtext row))) maxWidth in
    if (length ls =? 0)%nat then [row]
    else wrapRowLines row 0 ls) rows.

(* ================================================================== *)
(** * JavaScript values *)
(* ================================================================== *)

(** What [JSON.parse] produces, together with [undefined] for a property
    that is not there.  Numbers are the integer-valued ones; an object is
    its list of own properties. *)
Inductive jsval :=
| VUndefined
| VNull
| VBool (b : bool)
| VNum (n : Z)
| VStr (s : jsstring)
| VArr (items : list jsval)
| VObj (fields : list (jsstring * jsval)).

(** A call either returns or throws; the only exception the embedded code
    raises by itself is a [TypeError]. *)
Inductive jsError := TypeError.

Inductive Outcome (A : Type) :=
| Return (a : A)
| Throw (e : jsError).
Arguments Return {A} a.
Arguments Throw {A} e.

Definition bindO {A B : Type} (m : Outcome A) (k : A -> Outcome B) : Outcome B :=
  match m with
  | Return a => k a
  | Throw e => Throw e
  end.

Notation "x <- m ;; k" := (bindO m (fun x => k))
  (at level 61, m at next level, right associativity).

(** [!!value] *)
Definition truthy (v : jsval) : bool :=
  match v with
  | VUndefined | VNull => false
  | VBool b => b
  | VNum n => negb (n =? 0)
  | VStr s => negb (str_eqb s [])
  | VArr _ | VObj _ => true
  end.

(** [a || b] *)
Definition jsOr (a b : jsval) : jsval := if truthy a then a else b.

Fixpoint lookupField (fields : list (jsstring * jsval)) (key : jsstring) : jsval :=
  match fields with
  | [] => VUndefined
  | (k, v) :: rest => if str_eqb k key then v else lookupField rest key
  end.

(** [value?.key], and [value.key] on a value that is neither [null] nor
    [undefined]: only an object has the properties the code asks for. *)
Definition getProp (v : jsval) (key : string) : jsval :=
  match v with
  | VObj fields => lookupField fields (lit key)
  | _ => VUndefined
  end.

(** [value.key] proper: a [TypeError] on [null] and [undefined]. *)
Definition getPropStrict (v : jsval) (key : string) : Outcome jsval :=
  match v with
  | VUndefined | VNull => Throw TypeError
  | _ => Return (getProp v key)
  end.

(** [value === "literal"] *)
Definition isStr (v : jsval) (s : string) : bool :=
  match v with
  | VStr t => str_eqb t (lit s)
  | _ => false
  end.

(** Decimal digits of a number, as a template literal prints them. *)
Definition decimal (n : Z) : jsstring :=
  lit (NilEmpty.string_of_int (Z.to_int n)).

(** [String(value)], the conversion a template literal and [join] apply.
    It is the conversion of the language on strings, booleans, [null],
    [undefined], integers that print without an exponent, and objects
    and arrays that have no [toString] of their own; a number that
    prints with an exponent and an object with a [toString] of its own
    are outside this model. *)
Fixpoint ToString (v : jsval) : jsstring :=
  match v with
  | VUndefined => lit "undefined"
  | VNull => lit "null"
  | VBool true => lit "true"
  | VBool false => lit "false"
  | VNum n => decimal n
  | VStr s => s
  | VArr items =>
      join (lit ",")
        (map (fun item => match item with
                          | VUndefined | VNull => []
                          | _ => ToString item
                          end) items)
  | VObj _ => lit "[object Object]"
  end.

(** [Array.isArray(value) ? value : []] *)
Definition arrayItems (v : jsval) : list jsval :=
  match v with
  | VArr items => items
  | _ => []
  end.

Definition isArray (v : jsval) : bool :=
  match v with VArr _ => true | _ => false end.

(* ================================================================== *)
(** * The host: what Node.js provides *)
(* ================================================================== *)

(** [None] stands for a thrown [SyntaxError], for [NaN], for a failed
    match and for [null]. *)
Class Host := {
  JSON_parse : jsstring -> option jsval;
  Date_parse : jsval -> option Z;
  Date_new : jsval -> option Z;
  formatLocalTimestamp : Z -> jsstring;
  rolloutMatch : jsstring -> option (jsstring * jsstring * jsstring * jsstring);
  localeCompare : jsstring -> jsstring -> Z;
  path_join : jsstring -> jsstring -> jsstring;
  path_basename : jsstring -> jsstring;
  path_basename_ext : jsstring -> jsstring -> jsstring;
  path_relative : jsstring -> jsstring -> jsstring;
  process_cwd : jsstring
}.

(* ================================================================== *)
(** * Conversation extractor *)
(* ================================================================== *)

Definition EXCLUDE_PREFIXES : list jsstring :=
  [ lit "# AGENTS.md";
    lit "<environment_context>";
    lit "<permissions instructions>";
    lit "<INSTRUCTIONS>" ].

(** [text.trimStart()] is a method of strings only: on any other truthy
    value the call throws. *)
Definition shouldExcludeText (text : jsval) : Outcome bool :=
  if negb (truthy text) then Return true
  else match text with
       | VStr s =>
           let trimmed := trimStart s in
           Return (existsb (fun prefix => startsWith trimmed prefix) EXCLUDE_PREFIXES)
       | _ => Throw TypeError
       end.

Fixpoint placeholdersFrom (index : nat) (images : list jsval) : list jsstring :=
  match images with
  | [] => []
  | _ :: rest =>
      (lit "[image " ++ decimal (Z.of_nat index + 1) ++ lit "]")
        :: placeholdersFrom (S index) rest
  end.

Definition imagePlaceholders (payload : jsval) : list jsstring :=
  let images :=
    (if isArray (getProp payload "images")
     then arrayItems (getProp payload "images") else [])
    ++ (if isArray (getProp payload "local_images")
        then arrayItems (getProp payload "local_images") else []) in
  if (length images =? 0)%nat then []
  else placeholdersFrom 0 images.

Definition NL : jsstring := [10%N].

Definition appendImages (text payload : jsval) : jsval :=
  let placeholders := imagePlaceholders payload in
  if (length placeholders =? 0)%nat then text
  else
    let suffix := join NL placeholders in
    if negb (truthy text) then VStr suffix
    else VStr (ToString text ++ NL ++ NL ++ suffix).

Definition buildTextFromContent (content : jsval) : jsstring :=
  if negb (isArray content) then []
  else
    let parts :=
      filter truthy
        (map (fun item => getProp item "text")
           (filter (fun item => isStr (getProp item "type") "input_text"
                                || isStr (getProp item "type") "output_text")
                   (arrayItems content))) in
    join NL (map ToString parts).

Record Entry := mkEntry {
  role : jsval;
  text : jsval
}.

(** The two accumulators of [extractConversation]. *)
Record Streams := mkStreams {
  eventMessages : list Entry;
  fallbackMessages : list Entry
}.

(** The part of the loop body under [parsed?.type === "event_msg"]. *)
Definition scanEvent (parsed : jsval) (acc : Streams) : Outcome Streams :=
  if isStr (getProp parsed "type") "event_msg" then
    let payload := jsOr (getProp parsed "payload") (VObj []) in
    let msgType := getProp payload "type" in
    acc1 <-
      (if isStr msgType "user_message" then
         let text := appendImages (jsOr (getProp payload "message") (VStr [])) payload in
         excluded <- shouldExcludeText text ;;
         Return (if negb excluded
                 then mkStreams (eventMessages acc ++ [mkEntry (VStr (lit "user")) text])
                                (fallbackMessages acc)
                 else acc)
       else Return acc) ;;
    (if isStr msgType "agent_message" || isStr msgType "assistant_message" then
       let text := jsOr (getProp payload "message") (VStr []) in
       excluded <- shouldExcludeText text ;;
       Return (if negb excluded
               then mkStreams (eventMessages acc1 ++ [mkEntry (VStr (lit "assistant")) text])
                              (fallbackMessages acc1)
               else acc1)
     else Return acc1)
  else Return acc.

(** The part of the loop body under [parsed?.type === "response_item"]. *)
Definition scanResponseItem (parsed : jsval) (acc : Streams) : Outcome Streams :=
  if isStr (getProp parsed "type") "response_item" then
    let payload := jsOr (getProp parsed "payload") (VObj []) in
    if isStr (getProp payload "type") "message" then
      let role := getProp payload "role" in
      if isStr role "user" || isStr role "assistant" then
        let text := VStr (buildTextFromContent (getProp payload "content")) in
        excluded <- shouldExcludeText text ;;
        Return (if negb excluded
                then mkStreams (eventMessages acc)
                               (fallbackMessages acc ++ [mkEntry role text])
                else acc)
      else Return acc
    else Return acc
  else Return acc.

Section Extractor.
Context `{Host}.

(** One turn of [for await (const line of rl)]. *)
Definition scanLine (acc : Streams) (line : jsstring) : Outcome Streams :=
  if str_eqb (trim line) [] then Return acc
  else match JSON_parse line with
       | None => Return acc
       | Some parsed =>
           acc1 <- scanEvent parsed acc ;;
           scanResponseItem parsed acc1
       end.

Fixpoint scanLines (acc : Streams) (rl : list jsstring) : Outcome Streams :=
  match rl with
  | [] => Return acc
  | line :: rest =>
      acc1 <- scanLine acc line ;;
      scanLines acc1 rest
  end.

(** [extractConversation(filePath)], on the lines the file at that path
    is read as. *)
Definition extractConversation (rl : list jsstring) : Outcome (list Entry) :=
  acc <- scanLines (mkStreams [] []) rl ;;
  Return (if (0 <? length (eventMessages acc))%nat
          then eventMessages acc
          else fallbackMessages acc).
End Extractor.

(* ================================================================== *)
(** * Transcript renderer: the Markdown rows *)
(* ================================================================== *)

Definition buildMarkdown (entries : list Entry) : jsstring :=
  let blocks :=
    map (fun entry =>
           let header :=
             if isStr (role entry) "user" then lit "### User" else lit "### Assistant" in
           let body := jsOr (text entry) (VStr []) in
           header ++ NL ++ ToString body) entries in
  join (NL ++ NL) blocks ++ NL.

Definition buildMarkdownRows (markdown : jsstring) : list Row :=
  if str_eqb markdown [] then []
  else map (fun line => mkRow TText None
                          (Some (if str_eqb line [] then lit " " else line)))
           (split_on 10 markdown).

(* ================================================================== *)
(** * Session locator *)
(* ================================================================== *)

(** What the scan reads of a regular file: its first line ([None] when
    the read fails) and [stat.mtimeMs] ([None] when [stat] throws or the
    value is not finite).  Times are whole milliseconds since the
    epoch. *)
Record FileInfo := mkFileInfo {
  firstLine : option jsstring;
  statMtimeMs : option Z
}.

(** A directory entry: a regular file, a directory whose listing is
    [None] when [readdir] fails, or anything else. *)
Inductive fsNode :=
| FsFile (info : FileInfo)
| FsDir (listing : option (list (jsstring * fsNode)))
| FsOther.

Record Session := mkSession {
  id : jsval;
  label : jsstring;
  path : jsstring;
  sortKey : Z;
  git : jsval
}.

(** [a || b] on numbers: [0] is the falsy one here. *)
Definition numOr (a b : Z) : Z := if a =? 0 then b else a.

(** [a || b] on values that are a string or [null]. *)
Definition strOr (a b : option jsstring) : option jsstring :=
  match a with
  | Some (_ :: _) => a
  | _ => b
  end.

(** [sessionsData.sort(compare)]: the sort is stable, and the comparator
    puts [a] first when its result is not positive. *)
Fixpoint sortInsert {A : Type} (compare : A -> A -> Z) (a : A) (sorted : list A) : list A :=
  match sorted with
  | [] => [a]
  | b :: rest =>
      if compare a b <=? 0 then a :: sorted
      else b :: sortInsert compare a rest
  end.

Definition jsSort {A : Type} (compare : A -> A -> Z) (l : list A) : list A :=
  fold_right (sortInsert compare) [] l.

Section Locator.
Context `{Host}.

(** The listing is [None] when [readdir] throws, and so it is for a
    root that is not a directory: the [catch] returns no file.  A file
    found is returned with what the scan later reads of it. *)
Fixpoint findJsonlFiles (dir : jsstring) (node : fsNode) : list (jsstring * FileInfo) :=
  match node with
  | FsDir (Some entries) =>
      (fix each (entries : list (jsstring * fsNode)) : list (jsstring * FileInfo) :=
         match entries with
         | [] => []
         | (name, entry) :: rest =>
             let fullPath := path_join dir name in
             match entry with
             | FsDir _ => findJsonlFiles fullPath entry
             | FsFile info =>
                 if endsWith name (lit ".jsonl") then [(fullPath, info)] else []
             | FsOther => []
             end ++ each rest
         end) entries
  | _ => []
  end.

Definition parseTimestampMsFromFilename (filePath : jsstring) : option Z :=
  let name := path_basename filePath in
  match rolloutMatch name with
  | None => None
  | Some (datePart, hh, mm, ss) =>
      let timePart := hh ++ lit ":" ++ mm ++ lit ":" ++ ss ++ lit "Z" in
      let iso := datePart ++ lit "T" ++ timePart in
      Date_new (VStr iso)
  end.

Definition parseTimestampFromFilename (filePath : jsstring) : option jsstring :=
  match parseTimestampMsFromFilename filePath with
  | None => None
  | Some timestampMs =>
      if timestampMs =? 0 then None
      else Some (formatLocalTimestamp timestampMs)
  end.

Definition readSessionMeta (info : FileInfo) : jsval :=
  match firstLine info with
  | None => VNull
  | Some first =>
      let line := trim first in
      if str_eqb line [] then VNull
      else match JSON_parse line with
           | None => VNull
           | Some parsed =>
               if isStr (getProp parsed "type") "session_meta" then parsed
               else VNull
           end
  end.

Definition formatTimestamp (timestamp : jsval) : option jsstring :=
  if negb (truthy timestamp) then None
  else match Date_new timestamp with
       | None => None
       | Some date => Some (formatLocalTimestamp date)
       end.

(** [meta?.payload?.timestamp || meta?.timestamp] *)
Definition metaTimestamp (meta : jsval) : jsval :=
  jsOr (getProp (getProp meta "payload") "timestamp") (getProp meta "timestamp").

Definition buildSessionLabel (meta : jsval) (filePath baseDir : jsstring) : jsstring :=
  let tsRaw := metaTimestamp meta in
  match strOr (formatTimestamp tsRaw) (parseTimestampFromFilename filePath) with
  | Some (u :: ts) => u :: ts
  | _ => path_relative baseDir filePath
  end.

(** The [sortKey] of the scan effect, from [stat.mtimeMs], the meta
    timestamp and the file name. *)
Definition deriveSortKey (stat : option Z) (tsRaw : jsval) (filePath : jsstring) : Z :=
  let metaTs := if truthy tsRaw then Date_parse tsRaw else None in
  let mtimeMs := match stat with Some m => m | None => 0 end in
  let filenameMs :=
    match parseTimestampMsFromFilename filePath with
    | Some ms => numOr ms 0
    | None => 0
    end in
  let metaMs := match metaTs with None => 0 | Some ts => ts end in
  numOr (numOr (numOr mtimeMs metaMs) filenameMs) 0.

(** The body of [files.map(async (filePath) => ...)]. *)
Definition describeSession (baseDir : jsstring) (file : jsstring * FileInfo) : Session :=
  let '(filePath, info) := file in
  let meta := readSessionMeta info in
  mkSession
    (jsOr (getProp (getProp meta "payload") "id") VNull)
    (buildSessionLabel meta filePath baseDir)
    filePath
    (deriveSortKey (statMtimeMs info) (metaTimestamp meta) filePath)
    (jsOr (jsOr (getProp (getProp meta "payload") "git") (getProp meta "git")) VNull).

Definition compareSessions (a b : Session) : Z :=
  if negb (sortKey a =? sortKey b) then sortKey b - sortKey a
  else localeCompare (label a) (label b).

(** The [try] block of the scan effect up to the sorted list. *)
Definition scanSessions (baseDir : jsstring) (root : fsNode) : Outcome (list Session) :=
  let files := findJsonlFiles baseDir root in
  let sessionsData := map (describeSession baseDir) files in
  Return (jsSort compareSessions sessionsData).
End Locator.

(** ** The session list state and its view *)

Record SessionsState := mkSessionsState {
  sessions : list Session;
  selectedIndex : Z;
  scrollOffset : Z;
  loadingSessions : bool;
  sessionsError : jsstring
}.

Definition initialSessionsState : SessionsState :=
  mkSessionsState [] 0 0 true [].

(** [error?.message || String(error)] *)
Definition errorMessage (e : jsError) : jsstring :=
  match e with TypeError => lit "TypeError" end.

(** The scan effect run to its end without being cancelled. *)
Definition runScan `{Host} (baseDir : jsstring) (root : fsNode) (st : SessionsState)
  : SessionsState :=
  let st1 := mkSessionsState (sessions st) (selectedIndex st) (scrollOffset st) true [] in
  match scanSessions baseDir root with
  | Return sessionsData => mkSessionsState sessionsData 0 0 false []
  | Throw error =>
      mkSessionsState (sessions st1) (selectedIndex st1) (scrollOffset st1)
                      false (errorMessage error)
  end.

(** [array.slice(start, end)] *)
Definition jsSlice {A : Type} (l : list A) (start final : Z) : list A :=
  let len := Z.of_nat (length l) in
  let k := if start <? 0 then Z.max (len + start) 0 else Z.min start len in
  let e := if final <? 0 then Z.max (len + final) 0 else Z.min final len in
  firstn (Z.to_nat (e - k)) (skipn (Z.to_nat k) l).

(** What [ListView] renders. *)
Inductive ListViewOutput :=
| ViewLoading
| ViewLoadError (detail : jsstring)
| ViewNoSessions
| ViewSessions (rows : list jsstring).

Fixpoint listRows (selectedIndex maxLabelWidth actualIndex : Z) (visible : list Session)
  : list jsstring :=
  match visible with
  | [] => []
  | session :: rest =>
      let prefix := if actualIndex =? selectedIndex then lit "> " else lit "  " in
      (prefix ++ truncateLabel (Some (label session)) maxLabelWidth)
        :: listRows selectedIndex maxLabelWidth (actualIndex + 1) rest
  end.

Definition ListView (st : SessionsState) (visibleCount maxLabelWidth : Z) : ListViewOutput :=
  if loadingSessions st then ViewLoading
  else if negb (str_eqb (sessionsError st) []) then ViewLoadError (sessionsError st)
  else if (length (sessions st) =? 0)%nat then ViewNoSessions
  else
    let visibleSessions :=
      jsSlice (sessions st) (scrollOffset st) (scrollOffset st + visibleCount) in
    ViewSessions (listRows (selectedIndex st) maxLabelWidth (scrollOffset st) visibleSessions).

(* ================================================================== *)
(** * Scroll controller of the conversation pane *)
(* ================================================================== *)

Inductive ViewMode := Pretty | Markdown.

(** What a render of [App] reads for the conversation pane: the size of
    the terminal (0 where [stdout] has none), the selected session
    ([None] is [null]; a session is identified by its path), the render
    mode, and [wrappedRows.length] of the conversation in the state, as
    it depends on the mode and the content width. *)
Record PaneEnv := mkPaneEnv {
  stdoutRows : Z;
  stdoutColumns : Z;
  selectedSession : option jsstring;
  viewMode : ViewMode;
  conversationRows : ViewMode -> Z -> Z
}.

Definition paneHeight (env : PaneEnv) : Z :=
  let rows := numOr (stdoutRows env) 24 in
  let headerLines := 6 in
  let footerLines := 1 in
  Z.max 4 (rows - headerLines - footerLines).

Definition baseVisibleCount (env : PaneEnv) : Z := Z.max 1 (paneHeight env - 2).

Definition leftWidth : Z := 25.

Definition rightContentWidth (env : PaneEnv) : Z :=
  let columns := numOr (stdoutColumns env) 120 in
  let rightPaneWidth := Z.max 20 (columns - leftWidth) in
  Z.max 10 (rightPaneWidth - 2).

(** [rightHeaderLines.length]: three lines once a session is selected. *)
Definition rightHeaderHeight (env : PaneEnv) : Z :=
  match selectedSession env with
  | None => 0
  | Some _ => 3
  end.

Definition rightVisibleCount (env : PaneEnv) : Z :=
  Z.max 1 (baseVisibleCount env - rightHeaderHeight env).

Definition rightTotalCount (env : PaneEnv) : Z :=
  conversationRows env (viewMode env) (rightContentWidth env).

Definition maxRightOffset (env : PaneEnv) : Z :=
  Z.max 0 (rightTotalCount env - rightVisibleCount env).

(** The keys of the conversation pane. *)
Inductive Key :=
| KeyUp | KeyDown | KeyB | KeyF | KeyCtrlU | KeyCtrlD | KeyG | KeyShiftG.

(** [Math.ceil(n / 2)] *)
Definition ceilHalf (n : Z) : Z := (n + 1) / 2.

(** The updater each key passes to [setRightScrollOffset]. *)
Definition rightKey (env : PaneEnv) (key : Key) (prev : Z) : Z :=
  match key with
  | KeyUp => Z.max 0 (prev - 1)
  | KeyDown => Z.min (maxRightOffset env) (prev + 1)
  | KeyB => Z.max 0 (prev - rightVisibleCount env)
  | KeyF => Z.min (maxRightOffset env) (prev + rightVisibleCount env)
  | KeyCtrlU => Z.max 0 (prev - ceilHalf (rightVisibleCount env))
  | KeyCtrlD => Z.min (maxRightOffset env) (prev + ceilHalf (rightVisibleCount env))
  | KeyG => 0
  | KeyShiftG => maxRightOffset env
  end.

Definition viewMode_eqb (a b : ViewMode) : bool :=
  match a, b with
  | Pretty, Pretty | Markdown, Markdown => true
  | _, _ => false
  end.

Definition session_eqb (a b : option jsstring) : bool :=
  match a, b with
  | None, None => true
  | Some p, Some q => str_eqb p q
  | _, _ => false
  end.

(** Whether a dependency of the effect
    [[selectedSession, viewMode, rightContentWidth, rightHeaderHeight]]
    changed between two renders. *)
Definition resetDepsChanged (old new : PaneEnv) : bool :=
  negb (session_eqb (selectedSession old) (selectedSession new))
  || negb (viewMode_eqb (viewMode old) (viewMode new))
  || negb (rightContentWidth old =? rightContentWidth new)
  || negb (rightHeaderHeight old =? rightHeaderHeight new).

(** The two effects after a render, in the order they are declared: the
    clamp on [[maxRightOffset]], then the reset. *)
Definition runEffects (old new : PaneEnv) (prev : Z) : Z :=
  let clamped :=
    if negb (maxRightOffset old =? maxRightOffset new)
    then Z.min prev (maxRightOffset new) else prev in
  if resetDepsChanged old new then 0 else clamped.

Record PaneState := mkPaneState {
  env : PaneEnv;
  rightScrollOffset : Z
}.

(** [wrappedRows.length] while [conversation] is [[]]: no boxed row, and
    the two blank rows of the Markdown of no entry. *)
Definition noConversation (mode : ViewMode) (width : Z) : Z :=
  match mode with
  | Pretty => 0
  | Markdown => 2
  end.

Definition toggleMode (mode : ViewMode) : ViewMode :=
  match mode with
  | Pretty => Markdown
  | Markdown => Pretty
  end.

(** A transition of the pane, with the effects it triggers run to their
    end: a key of the pane, a resize of the terminal, the key [m], the
    selection of another session (its conversation starts empty), and
    the arrival of the extracted conversation, which sets the offset to
    0 itself. *)
Inductive PaneEvent :=
| Press (key : Key)
| Resize (rows columns : Z)
| ToggleMode
| SelectSession (session : option jsstring)
| ConversationLoaded (rowsOf : ViewMode -> Z -> Z).

Definition paneStep (st : PaneState) (ev : PaneEvent) : PaneState :=
  let old := env st in
  match ev with
  | Press key => mkPaneState old (rightKey old key (rightScrollOffset st))
  | Resize rows columns =>
      let new := mkPaneEnv rows columns (selectedSession old) (viewMode old)
                           (conversationRows old) in
      mkPaneState new (runEffects old new (rightScrollOffset st))
  | ToggleMode =>
      let new := mkPaneEnv (stdoutRows old) (stdoutColumns old) (selectedSession old)
                           (toggleMode (viewMode old)) (conversationRows old) in
      mkPaneState new (runEffects old new (rightScrollOffset st))
  | SelectSession session =>
      if session_eqb session (selectedSession old) then st
      else
        let new := mkPaneEnv (stdoutRows old) (stdoutColumns old) session
                             (viewMode old) noConversation in
        mkPaneState new (runEffects old new (rightScrollOffset st))
  | ConversationLoaded rowsOf =>
      let new := mkPaneEnv (stdoutRows old) (stdoutColumns old) (selectedSession old)
                           (viewMode old) rowsOf in
      mkPaneState new (runEffects old new 0)
  end.

Definition initialPaneState (env0 : PaneEnv) : PaneState := mkPaneState env0 0.

(* ================================================================== *)
(** * Exporter *)
(* ================================================================== *)

(** A session of the list as the object the scan built, [null] when
    nothing is selected. *)
Definition sessionValue (session : option Session) : jsval :=
  match session with
  | None => VNull
  | Some s =>
      VObj [ (lit "id", id s); (lit "label", VStr (label s));
             (lit "path", VStr (path s)); (lit "sortKey", VNum (sortKey s));
             (lit "git", git s) ]
  end.

(** [path.basename] accepts a string only. *)
Definition defaultExportPath `{Host} (session : jsval) : Outcome jsstring :=
  base <-
    (if truthy (getProp session "id") then Return (getProp session "id")
     else
       sessionPath <- getPropStrict session "path" ;;
       match jsOr sessionPath (VStr (lit "session")) with
       | VStr p => Return (VStr (path_basename_ext p (lit ".jsonl")))
       | _ => Throw TypeError
       end) ;;
  Return (path_join process_cwd (ToString base ++ lit ".md")).

(* ================================================================== *)
(** * Vocabulary of the statements *)
(* ================================================================== *)

(** The display width of a sequence of code points. *)
Definition widthOf (cs : list jsstring) : Z :=
  fold_left (fun width char => width + charWidth char) cs 0.

(** A string the iterator yields as one item. *)
Definition isChar (c : jsstring) : Prop := chars c = [c].

(** A line within the budget, or one code point wider than the budget. *)
Definition fitsOrLoneWide (maxWidth : Z) (l : jsstring) : Prop :=
  stringWidth (Some l) <= maxWidth \/ (isChar l /\ maxWidth < charWidth l).

(** What the loop of [wrapText] keeps true at budget [maxWidth]: the
    lines pushed fit (or are a lone wide code point), and the line being
    filled is narrower than the budget. *)
Definition wrapInvariant (maxWidth : Z) (st : WrapState) : Prop :=
  Forall (fitsOrLoneWide maxWidth) (lines st)
  /\ stringWidth (Some (line st)) <= lineWidth st
  /\ 0 <= lineWidth st < maxWidth.

(** The ellipsis contract of label truncation read in display-width
    units, with [truncateByWidth] as "the first [n] width-units". *)
Definition widthEllipsisContract (label : jsstring) (budget : Z) : Prop :=
  (stringWidth (Some label) <= budget -> truncateLabel (Some label) budget = label)
  /\ (budget < stringWidth (Some label) -> 3 < budget ->
      truncateLabel (Some label) budget
      = truncateByWidth (Some label) (budget - 3) ++ lit "...")
  /\ (budget < stringWidth (Some label) -> budget <= 3 ->
      truncateLabel (Some label) budget = truncateByWidth (Some label) budget).

(** Code units of display width 1: the printable ASCII range. *)
Definition isPrintable (u : N) : Prop := (32 <= u <= 127)%N.

(** The placeholder tokens [[image 1]] ... [[image n]]. *)
Definition imageTokens (n : nat) : list jsstring :=
  map (fun i => lit "[image " ++ decimal (Z.of_nat i) ++ lit "]") (seq 1 n).

(** The attachments of a payload in attachment order: those of [images],
    then those of [local_images]. *)
Definition attachments (payload : jsval) : list jsval :=
  arrayItems (getProp payload "images") ++ arrayItems (getProp payload "local_images").

(** The exclusion rule on a string. *)
Definition excludedText (s : jsstring) : bool :=
  str_eqb s [] || existsb (fun prefix => startsWith (trimStart s) prefix) EXCLUDE_PREFIXES.

(** The entries one record contributes to each stream, by the loop body
    run on that record alone. *)
Definition primaryOf (parsed : jsval) : list Entry :=
  match scanEvent parsed (mkStreams [] []) with
  | Return acc => eventMessages acc
  | Throw _ => []
  end.

Definition fallbackOf (parsed : jsval) : list Entry :=
  match scanResponseItem parsed (mkStreams [] []) with
  | Return acc => fallbackMessages acc
  | Throw _ => []
  end.

(** The records of a log: the lines that are not blank and parse. *)
Definition records `{Host} (rl : list jsstring) : list jsval :=
  flat_map (fun line =>
              if str_eqb (trim line) [] then []
              else match JSON_parse line with
                   | Some parsed => [parsed]
                   | None => []
                   end) rl.

Definition primaryStream `{Host} (rl : list jsstring) : list Entry :=
  flat_map primaryOf (records rl).

Definition fallbackStream `{Host} (rl : list jsstring) : list Entry :=
  flat_map fallbackOf (records rl).

(** The loop body throws on this record. *)
Definition recordThrows (parsed : jsval) : bool :=
  match scanEvent parsed (mkStreams [] []) with
  | Return _ => false
  | Throw _ => true
  end.


(** ** The two streams as the specification words them

    These definitions do not run the loop of [extractConversation]:
    they describe, record by record, what each rule of the
    specification queues. *)








(* ================================================================== *)
(** * A host for the examples *)
(* ================================================================== *)

(** Code-unit order of two strings: negative, zero or positive. *)
Fixpoint lexCompare (a b : jsstring) : Z :=
  match a, b with
  | [], [] => 0
  | [], _ :: _ => -1
  | _ :: _, [] => 1
  | u :: a', v :: b' =>
      if (u <? v)%N then -1
      else if (v <? u)%N then 1
      else lexCompare a' b'
  end.

(** An event record with the given payload type and message. *)
Definition eventRecord (msgType : string) (message : jsval) : jsval :=
  VObj [ (lit "type", VStr (lit "event_msg"));
         (lit "payload", VObj [ (lit "type", VStr (lit msgType));
                                (lit "message", message) ]) ].

(** A response item with one [input_text] or [output_text] part. *)
Definition responseRecord (who : string) (part : string) (content : jsstring) : jsval :=
  VObj [ (lit "type", VStr (lit "response_item"));
         (lit "payload",
          VObj [ (lit "type", VStr (lit "message"));
                 (lit "role", VStr (lit who));
                 (lit "content",
                  VArr [ VObj [ (lit "type", VStr (lit part));
                                (lit "text", VStr content) ] ]) ]) ].

(** The examples write a record in a shorthand this parser reads in
    place of JSON: [U:text] and [A:text] are user and agent events,
    [u:text] and [a:text] response items, [N:] an agent event whose
    message is the number 5, [M:ms] a session meta record; any other
    line does not parse. *)
Definition demoParse (line : jsstring) : option jsval :=
  match line with
  | 85%N :: 58%N :: rest => Some (eventRecord "user_message" (VStr rest))
  | 65%N :: 58%N :: rest => Some (eventRecord "agent_message" (VStr rest))
  | 117%N :: 58%N :: rest => Some (responseRecord "user" "input_text" rest)
  | 97%N :: 58%N :: rest => Some (responseRecord "assistant" "output_text" rest)
  | 78%N :: 58%N :: _ => Some (eventRecord "agent_message" (VNum 5))
  | 77%N :: 58%N :: rest =>
      Some (VObj [ (lit "type", VStr (lit "session_meta"));
                   (lit "payload", VObj [ (lit "timestamp", VStr rest) ]) ])
  | _ => None
  end.

(** A date is the number itself or a string of decimal digits. *)
Fixpoint digitsValue (s : jsstring) (acc : Z) : option Z :=
  match s with
  | [] => Some acc
  | u :: rest =>
      if (48 <=? u)%N && (u <=? 57)%N
      then digitsValue rest (10 * acc + Z.of_N (u - 48))
      else None
  end.

Definition demoDate (v : jsval) : option Z :=
  match v with
  | VNum n => Some n
  | VStr (u :: s) => digitsValue (u :: s) 0
  | _ => None
  end.

Definition SLASH : jsstring := [47%N].

Definition demoBasename (p : jsstring) : jsstring :=
  last (split_on 47 p) [].

Definition demoBasenameExt (p ext : jsstring) : jsstring :=
  let name := demoBasename p in
  if endsWith name ext && negb (str_eqb name ext)
  then firstn (length name - length ext) name
  else name.

#[local] Instance demoHost : Host := {|
  JSON_parse := demoParse;
  Date_parse := demoDate;
  Date_new := demoDate;
  formatLocalTimestamp := decimal;
  rolloutMatch := fun _ => None;
  localeCompare := lexCompare;
  path_join := fun a b => a ++ SLASH ++ b;
  path_basename := demoBasename;
  path_basename_ext := demoBasenameExt;
  path_relative := fun base p => skipn (length base + 1) p;
  process_cwd := lit "/work"
|}.

(* ================================================================== *)
(** * Vocabulary of the session-list statements *)
(* ================================================================== *)

(** [tsRaw ? Date.parse(tsRaw) : NaN], with [None] for [NaN]. *)
Definition metaMsOf `{Host} (tsRaw : jsval) : option Z :=
  if truthy tsRaw then Date_parse tsRaw else None.

(** A timestamp the [||] chain takes: one that is there and is not 0. *)
Definition usable (t : option Z) : option Z :=
  match t with
  | Some 0 => None
  | _ => t
  end.

(** The first of three timestamps that is there, else 0: the sort key as
    the documentation words it. *)
Definition firstAvailable (mtime metaTs filenameTs : option Z) : Z :=
  match mtime with
  | Some m => m
  | None =>
      match metaTs with
      | Some t => t
      | None => match filenameTs with Some f => f | None => 0 end
      end
  end.

(** A comparator of labels that orders them: total and transitive. *)
Definition consistentCompare (compare : jsstring -> jsstring -> Z) : Prop :=
  (forall a b, 0 < compare a b -> compare b a <= 0)
  /\ (forall a b c, compare a b <= 0 -> compare b c <= 0 -> compare a c <= 0).

(** [a] may stand before [b] in the list: a greater sort key, or the same
    key and a label that is not after the other. *)
Definition sessionOrder `{Host} (a b : Session) : Prop :=
  sortKey b < sortKey a
  \/ (sortKey a = sortKey b /\ localeCompare (label a) (label b) <= 0).

(** Three session files in one directory, read at modification times 5,
    5 and 3. *)
Definition demoRoot : fsNode :=
  FsDir (Some [ (lit "b.jsonl", FsFile (mkFileInfo None (Some 5)));
                (lit "notes.txt", FsFile (mkFileInfo None (Some 9)));
                (lit "a.jsonl", FsFile (mkFileInfo None (Some 5)));
                (lit "old", FsDir (Some [ (lit "c.jsonl",
                                           FsFile (mkFileInfo None (Some 3))) ]));
                (lit "locked", FsDir None) ]).

(** A file whose modification time reads as 0 and whose meta record
    carries the timestamp 1000, beside a file modified at 500. *)
Definition epochRoot : fsNode :=
  FsDir (Some [ (lit "x.jsonl", FsFile (mkFileInfo (Some (lit "M:1000")) (Some 0)));
                (lit "y.jsonl", FsFile (mkFileInfo None (Some 500))) ]).

(* ================================================================== *)
(** * Vocabulary of the scroll statements *)
(* ================================================================== *)

(** The scroll window is inside the rows. *)
Definition inRange (st : PaneState) : Prop :=
  0 <= rightScrollOffset st <= maxRightOffset (env st).

(** The pane after a sequence of transitions from its first render. *)
Definition paneRun (env0 : PaneEnv) (events : list PaneEvent) : PaneState :=
  fold_left paneStep events (initialPaneState env0).

(** A conversation of 100 rows at a content width of 60 or more, which
    wraps into 150 rows below that, shown in a terminal of 24 rows and
    120 columns. *)
Definition wideEnv : PaneEnv :=
  mkPaneEnv 24 120 (Some (lit "/s/a.jsonl")) Pretty
            (fun _ width => if width <? 60 then 150 else 100).

(* ================================================================== *)
(** * Vocabulary of the re-wrap statements *)
(* ================================================================== *)

(** The loop of [wrapText] run over a whole string. *)
Definition wrapRun (maxWidth : Z) (s : jsstring) : WrapState :=
  fold_left (wrapStep maxWidth) (chars s) (mkWrap [] [] 0).

(** A line the loop run on it alone leaves in one piece: pushed as it
    is, or still being filled at the end. *)
Definition settled (maxWidth : Z) (p : jsstring) : Prop :=
  p <> []
  /\ ((lines (wrapRun maxWidth p) = [p] /\ line (wrapRun maxWidth p) = [])
      \/ (lines (wrapRun maxWidth p) = [] /\ line (wrapRun maxWidth p) = p)).

(** A line being filled: the loop run on it alone has pushed nothing and
    counts no more width than the first pass did. *)
Definition filling (maxWidth : Z) (l : jsstring) (width : Z) : Prop :=
  lines (wrapRun maxWidth l) = []
  /\ line (wrapRun maxWidth l) = l
  /\ lineWidth (wrapRun maxWidth l) <= width.

Definition stableInvariant (maxWidth : Z) (st : WrapState) : Prop :=
  Forall (settled maxWidth) (lines st)
  /\ filling maxWidth (line st) (lineWidth st)
  /\ lineWidth st < maxWidth.

(** A text that is not empty and has carriage returns only. *)
Definition onlyCarriageReturns (s : jsstring) : Prop :=
  s <> [] /\ Forall (fun u => u = 13%N) s.

(* ================================================================== *)
(** * The rest of the width primitives *)
(* ================================================================== *)

Definition BOX_TOP_LEFT : jsstring := [9484%N].
Definition BOX_DASH : jsstring := [9472%N].
Definition BOX_TOP_RIGHT : jsstring := [9488%N].

(** [width] is [0] where the source may see [undefined]. *)
Definition buildTitleBorderLine (width : Z) (title : jsstring) : jsstring :=
  if (width =? 0) || (width <? 2) then []
  else
    let innerWidth := width - 2 in
    if str_eqb title [] then
      BOX_TOP_LEFT ++ repeat_str BOX_DASH innerWidth ++ BOX_TOP_RIGHT
    else
      let safeTitle := truncateByWidth (Some title) innerWidth in
      let remaining := Z.max 0 (innerWidth - stringWidth (Some safeTitle)) in
      let leftDashCount := Z.min 1 remaining in
      let rightDashCount := Z.max 0 (remaining - leftDashCount) in
      BOX_TOP_LEFT ++ repeat_str BOX_DASH leftDashCount ++ safeTitle
        ++ repeat_str BOX_DASH rightDashCount ++ BOX_TOP_RIGHT.

Definition buildHeaderLine (leftText rightText : option jsstring) (totalWidth : Z)
  : jsstring :=
  let safeLeft := orEmpty leftText in
  let safeRight := orEmpty rightText in
  if (totalWidth =? 0) || (totalWidth <=? 0) then safeLeft
  else
    let leftWidth := stringWidth (Some safeLeft) in
    if leftWidth >=? totalWidth then truncateByWidth (Some safeLeft) totalWidth
    else
      let rightWidth := stringWidth (Some safeRight) in
      if leftWidth + 1 + rightWidth <=? totalWidth then
        let spaces := totalWidth - leftWidth - rightWidth in
        safeLeft ++ repeat_str (lit " ") spaces ++ safeRight
      else
        let maxRight := Z.max 0 (totalWidth - leftWidth - 1) in
        let rightTrunc := truncateByWidth (Some safeRight) maxRight in
        let gap := Z.max 1 (totalWidth - leftWidth - stringWidth (Some rightTrunc)) in
        safeLeft ++ repeat_str (lit " ") gap ++ rightTrunc.

(** What [wrapText] does to a code point before it places it: a carriage
    return is dropped and a tab becomes two spaces. *)
Definition expandChar (char : jsstring) : jsstring :=
  if str_eqb char CR then []
  else if str_eqb char TAB then lit "  "
  else char.

Definition expandText (s : jsstring) : jsstring :=
  concat (map expandChar (chars s)).

(** The text a loop state of [wrapText] holds. *)
Definition wrapContent (st : WrapState) : jsstring :=
  concat (lines st) ++ line st.

(* ================================================================== *)
(** * Transcript renderer: the boxed rows *)
(* ================================================================== *)

(** The role of a row: all the code asks of it is whether it is
    ["user"]. *)
Definition roleOf (v : jsval) : option Role :=
  Some (if isStr v "user" then User else Assistant).

Definition isSpacer (row : Row) : bool :=
  match rtype row with TSpacer => true | _ => false end.

(** [while (rows.length && rows[rows.length - 1].type === "spacer")
    rows.pop()], on the rows in reverse order. *)
Fixpoint popSpacers (reversed : list Row) : list Row :=
  match reversed with
  | [] => []
  | row :: rest => if isSpacer row then popSpacers rest else reversed
  end.

Definition boxTextRow (entryRole : jsval) (innerWidth : Z) (line : jsstring) : Row :=
  let padded := padRightByWidth line innerWidth in
  mkRow TBoxText (roleOf entryRole) (Some (lit "| " ++ padded ++ lit " |")).

(** The rows one entry adds.  [(entry.text || "").split] is there for a
    string only. *)
Definition boxEntryRows (entry : Entry) (maxWidth : Z) : Outcome (list Row) :=
  let innerWidth := Z.max 1 (maxWidth - 4) in
  let borderInnerWidth := innerWidth + 2 in
  let border := lit "+" ++ repeat_str (lit "-") borderInnerWidth ++ lit "+" in
  let label := if isStr (role entry) "user" then lit "User" else lit "Assistant" in
  let labelTag0 := lit " " ++ label ++ lit " " in
  let labelTag :=
    if stringWidth (Some labelTag0) >? borderInnerWidth
    then slice0 labelTag0 (Z.max 0 borderInnerWidth) else labelTag0 in
  let remaining := Z.max 0 (borderInnerWidth - stringWidth (Some labelTag)) in
  let topBorder := lit "+" ++ labelTag ++ repeat_str (lit "-") remaining ++ lit "+" in
  match jsOr (text entry) (VStr []) with
  | VStr body =>
      let rawLines := split_on 10 body in
      let bodyLines := if (length rawLines =? 0)%nat then [[]] else rawLines in
      Return
        ([mkRow TBoxBorder (roleOf (role entry)) (Some topBorder)]
         ++ flat_map (fun rawLine =>
                        map (boxTextRow (role entry) innerWidth)
                            (wrapText (Some rawLine) innerWidth)) bodyLines
         ++ [mkRow TBoxBorder (roleOf (role entry)) (Some border);
             mkRow TSpacer None (Some (lit " "));
             mkRow TSpacer None (Some (lit " "))])
  | _ => Throw TypeError
  end.

Fixpoint boxRowsLoop (entries : list Entry) (maxWidth : Z) (rows : list Row)
  : Outcome (list Row) :=
  match entries with
  | [] => Return rows
  | entry :: rest =>
      added <- boxEntryRows entry maxWidth ;;
      boxRowsLoop rest maxWidth (rows ++ added)
  end.

Definition buildBoxRows (entries : list Entry) (maxWidth : Z) : Outcome (list Row) :=
  rows <- boxRowsLoop entries maxWidth [] ;;
  Return (rev (popSpacers (rev rows))).

(** An entry as the extractor makes them: a role, and a text that is a
    string. *)
Definition textEntry (entry : Entry) : bool :=
  match text entry with VStr _ => true | _ => false end.

(** A row of a box: a border or a text row. *)
Definition isBoxRow (row : Row) : bool :=
  match rtype row with TBoxBorder | TBoxText => true | _ => false end.

(** A code unit that is neither a carriage return nor a tab. *)
Definition plainUnit (u : N) : Prop := u <> 13%N /\ u <> 9%N.

(* ================================================================== *)
(** * Vocabulary of the extractor and renderer statements *)
(* ================================================================== *)

(** What every entry of an extracted conversation is: a user or an
    assistant role and a text that is a string, not empty and not
    excluded. *)
Definition wellFormedEntry (entry : Entry) : Prop :=
  (role entry = VStr (lit "user") \/ role entry = VStr (lit "assistant"))
  /\ exists s, text entry = VStr s /\ s <> [] /\ excludedText s = false.

(** A line the loop of [extractConversation] passes over. *)
Definition skippedLine `{Host} (line : jsstring) : Prop :=
  trim line = [] \/ JSON_parse line = None.

(** The row [buildMarkdownRows] makes of a line. *)
Definition markdownRow (line : jsstring) : Row :=
  mkRow TText None (Some (if str_eqb line [] then lit " " else line)).

(* ================================================================== *)
(** * The conversation view *)
(* ================================================================== *)

Inductive Color := Cyan | BlueBright.

(** The color of a row of the conversation. *)
Definition rowColor (row : Row) : option Color :=
  let byRole := match rrole row with
                | Some User => Cyan
                | _ => BlueBright
                end in
  match rtype row with
  | TBoxBorder | TBoxText =>
      match rrole row with
      | Some _ => Some byRole
      | None => None
      end
  | TLabel => Some byRole
  | _ => None
  end.

(** What [ConversationView] renders under the header lines. *)
Inductive ConversationViewOutput :=
| ConversationLoading
| ConversationLoadError (detail : jsstring)
| SelectASession
| NoConversationFound
| ConversationRows (visibleRows : list (option Color * option jsstring)).

Definition ConversationView (session : option Session) (loading : bool) (error : jsstring)
    (rows : list Row) (scrollOffset visibleCount : Z) : ConversationViewOutput :=
  if loading then ConversationLoading
  else if negb (str_eqb error []) then ConversationLoadError error
  else
    let visibleRows := jsSlice rows scrollOffset (scrollOffset + visibleCount) in
    match session with
    | None => SelectASession
    | Some _ =>
        if (length rows =? 0)%nat then NoConversationFound
        else ConversationRows (map (fun row => (rowColor row, rtext row)) visibleRows)
    end.

(** [conversationRows] and [wrappedRows] of [App]: the rows of the mode,
    wrapped at the content width. *)
Definition wrappedRows (conversation : list Entry) (mode : ViewMode) (contentWidth : Z)
  : Outcome (list Row) :=
  conversationRows <-
    match mode with
    | Markdown => Return (buildMarkdownRows (buildMarkdown conversation))
    | Pretty => buildBoxRows conversation contentWidth
    end ;;
  Return (wrapRows conversationRows contentWidth).

(* ================================================================== *)
(** * The session list pane and the keyboard *)
(* ================================================================== *)

(** [sessions[selectedIndex] || null] *)
Definition selectedSessionOf (ls : SessionsState) : option Session :=
  if selectedIndex ls <? 0 then None
  else nth_error (sessions ls) (Z.to_nat (selectedIndex ls)).

(** The effect on [[selectedIndex, sessions.length, baseVisibleCount]]
    that keeps the selection in the window of the list. *)
Definition keepSelectionVisible (ls : SessionsState) (baseVisibleCount : Z) : SessionsState :=
  if (length (sessions ls) =? 0)%nat then ls
  else
    let maxOffset := Z.max 0 (Z.of_nat (length (sessions ls)) - baseVisibleCount) in
    let next0 := scrollOffset ls in
    let next1 := if selectedIndex ls <? next0 then selectedIndex ls else next0 in
    let next2 := if selectedIndex ls >=? next1 + baseVisibleCount
                 then selectedIndex ls - baseVisibleCount + 1 else next1 in
    let next3 := if next2 >? maxOffset then maxOffset else next2 in
    let next4 := if next3 <? 0 then 0 else next3 in
    mkSessionsState (sessions ls) (selectedIndex ls) next4
                    (loadingSessions ls) (sessionsError ls).

Inductive Focus := FocusLeft | FocusRight.

(** A key press as [useInput] hands it over. *)
Record InputKey := mkInputKey {
  input : jsstring;
  escape : bool;
  returnKey : bool;
  backspace : bool;
  deleteKey : bool;
  tab : bool;
  upArrow : bool;
  downArrow : bool;
  ctrl : bool
}.

(** What a key press starts outside the state: leaving the program, the
    write of the export file, the companion tool. *)
Inductive Action :=
| Exit
| SubmitExport (exportPath : jsstring)
| LaunchResume (resumeId : jsval).

Record AppState := mkAppState {
  listState : SessionsState;
  pane : PaneState;
  exporting : bool;
  exportPath : jsstring;
  status : jsstring;
  statusDetail : jsstring;
  focus : Focus
}.

(** [leftVisibleCount] *)
Definition leftVisibleCount (st : AppState) : Z := baseVisibleCount (env (pane st)).

(** [setSelectedIndex] followed by the effects on the selection: the
    selected session of the state, which the conversation pane follows,
    and the window of the list.  Setting the index it has changes
    nothing. *)
Definition selectIndex (st : AppState) (index : Z) : AppState :=
  let ls := listState st in
  if index =? selectedIndex ls then st
  else
    let moved := mkSessionsState (sessions ls) index (scrollOffset ls)
                                 (loadingSessions ls) (sessionsError ls) in
    let ls' := keepSelectionVisible moved (leftVisibleCount st) in
    mkAppState ls'
               (paneStep (pane st) (SelectSession (option_map path (selectedSessionOf ls'))))
               (exporting st) (exportPath st) (status st) (statusDetail st) (focus st).

Definition withPane (st : AppState) (p : PaneState) : AppState :=
  mkAppState (listState st) p (exporting st) (exportPath st) (status st)
             (statusDetail st) (focus st).

Definition withFocus (st : AppState) (f : Focus) : AppState :=
  mkAppState (listState st) (pane st) (exporting st) (exportPath st) (status st)
             (statusDetail st) f.

Definition withExport (st : AppState) (on : bool) (p s d : jsstring) : AppState :=
  mkAppState (listState st) (pane st) on p s d (focus st).

Definition inputIs (key : InputKey) (s : string) : bool := str_eqb (input key) (lit s).

(** The status of [launchCodexResume] for a session without an id. *)
Definition MSG_NO_SESSION_ID : jsstring :=
  lit "session id " ++ [12364; 35211; 12388; 12363; 12426; 12414; 12379; 12435]%N.

(** [prev.slice(0, -1)] *)
Definition dropLastUnit (s : jsstring) : jsstring := slice0 s (-1).

(** The handler given to [useInput], with the effects each state change
    triggers. *)
Definition handleInput `{Host} (st : AppState) (key : InputKey)
  : Outcome (AppState * list Action) :=
  let len := Z.of_nat (length (sessions (listState st))) in
  let sel := selectedIndex (listState st) in
  if exporting st then
    if escape key then
      Return (withExport st false (exportPath st) (lit "Export cancelled") [], [])
    else if returnKey key then Return (st, [SubmitExport (exportPath st)])
    else if backspace key || deleteKey key then
      Return (withExport st true (dropLastUnit (exportPath st)) (status st) (statusDetail st),
              [])
    else if negb (str_eqb (input key) []) then
      Return (withExport st true (exportPath st ++ input key) (status st) (statusDetail st),
              [])
    else Return (st, [])
  else if tab key then
    Return (withFocus st (match focus st with FocusLeft => FocusRight | _ => FocusLeft end),
            [])
  else if inputIs key "1" then Return (withFocus st FocusLeft, [])
  else if inputIs key "2" then Return (withFocus st FocusRight, [])
  else if inputIs key "q" then Return (st, [Exit])
  else
    let leftMove : option (AppState * list Action) :=
      match focus st with
      | FocusRight => None
      | FocusLeft =>
          if upArrow key || inputIs key "k" then
            Some (selectIndex st (Z.max 0 (sel - 1)), [])
          else if downArrow key || inputIs key "j" then
            Some (selectIndex st (Z.min (len - 1) (sel + 1)), [])
          else if inputIs key "b" then
            Some (selectIndex st (Z.max 0 (sel - leftVisibleCount st)), [])
          else if inputIs key "f" then
            Some (selectIndex st (Z.min (len - 1) (sel + leftVisibleCount st)), [])
          else if inputIs key "g" then Some (selectIndex st 0, [])
          else if inputIs key "G" then Some (selectIndex st (Z.max 0 (len - 1)), [])
          else if inputIs key "c" then
            let resumeId :=
              jsOr (getProp (sessionValue (selectedSessionOf (listState st))) "id") VNull in
            if negb (truthy resumeId) then
              Some (withExport st (exporting st) (exportPath st) MSG_NO_SESSION_ID [], [])
            else Some (st, [LaunchResume resumeId])
          else None
      end in
    let rightMove : option (AppState * list Action) :=
      match focus st with
      | FocusLeft => None
      | FocusRight =>
          let press k := Some (withPane st (paneStep (pane st) (Press k)), []) in
          if upArrow key || inputIs key "k" then press KeyUp
          else if downArrow key || inputIs key "j" then press KeyDown
          else if inputIs key "b" then press KeyB
          else if inputIs key "f" then press KeyF
          else if ctrl key && inputIs key "u" then press KeyCtrlU
          else if ctrl key && inputIs key "d" then press KeyCtrlD
          else if inputIs key "g" then press KeyG
          else if inputIs key "G" then press KeyShiftG
          else None
      end in
    match leftMove, rightMove with
    | Some result, _ => Return result
    | None, Some result => Return result
    | None, None =>
        if inputIs key "m" then Return (withPane st (paneStep (pane st) ToggleMode), [])
        else if inputIs key "e" then
          nextPath <- defaultExportPath (sessionValue (selectedSessionOf (listState st))) ;;
          Return (withExport st true nextPath [] [], [])
        else Return (st, [])
    end.

(** The end of [handleExportSubmit]: the write succeeded, or it failed
    with a message. *)
Definition finishExport (st : AppState) (failure : option jsstring) : AppState :=
  match failure with
  | None => withExport st false (exportPath st) (lit "Export complete") (exportPath st)
  | Some message => withExport st false (exportPath st) (lit "Export failed") message
  end.

(** The selection is a session of the list. *)
Definition selectionInRange (ls : SessionsState) : Prop :=
  0 <= selectedIndex ls < Z.of_nat (length (sessions ls)).

(** The selection is inside the window of the list, and the window is
    inside the list. *)
Definition selectionVisible (ls : SessionsState) (visibleCount : Z) : Prop :=
  scrollOffset ls <= selectedIndex ls < scrollOffset ls + visibleCount
  /\ 0 <= scrollOffset ls
       <= Z.max 0 (Z.of_nat (length (sessions ls)) - visibleCount).

(** What holds of the state between two key presses: the selection is a
    session of the list and is in the window of the list, the
    conversation pane shows the selected session, and its offset is
    inside its rows. *)
Definition appInvariant (st : AppState) : Prop :=
  selectionInRange (listState st)
  /\ selectionVisible (listState st) (leftVisibleCount st)
  /\ selectedSession (env (pane st)) = option_map path (selectedSessionOf (listState st))
  /\ inRange (pane st).

(** A key that is only text. *)
Definition typed (s : jsstring) : InputKey :=
  mkInputKey s false false false false false false false false.

Definition backspaceKey : InputKey :=
  mkInputKey [] false false true false false false false false.

(** Three sessions, the first selected and shown, focus on the list. *)
Definition demoSessions : list Session :=
  [ mkSession (VStr (lit "id-a")) (lit "a") (lit "/s/a.jsonl") 5 VNull;
    mkSession VNull (lit "b") (lit "/s/b.jsonl") 5 VNull;
    mkSession VNull (lit "c") (lit "/s/c.jsonl") 3 VNull ].

Definition demoApp : AppState :=
  mkAppState (mkSessionsState demoSessions 0 0 false [])
             (initialPaneState (mkPaneEnv 24 120 (Some (lit "/s/a.jsonl")) Pretty
                                          (fun _ _ => 100)))
             false [] [] [] FocusLeft.

(** ** Where the session files are *)

(** [found dir node p info]: below the directory [node] of path [dir],
    through directories that can be read, there is a regular file of
    content [info] whose name ends in [.jsonl], and [p] is its path as
    [path.join] builds it from [dir] down. *)
Inductive found `{Host} : jsstring -> fsNode -> jsstring -> FileInfo -> Prop :=
| found_file (dir : jsstring) (entries : list (jsstring * fsNode))
             (name : jsstring) (info : FileInfo) :
    In (name, FsFile info) entries ->
    endsWith name (lit ".jsonl") = true ->
    found dir (FsDir (Some entries)) (path_join dir name) info
| found_below (dir : jsstring) (entries : list (jsstring * fsNode))
              (name : jsstring) (listing : option (list (jsstring * fsNode)))
              (p : jsstring) (info : FileInfo) :
    In (name, FsDir listing) entries ->
    found (path_join dir name) (FsDir listing) p info ->
    found dir (FsDir (Some entries)) p info.

(** The height of a directory tree. *)
Fixpoint height (node : fsNode) : nat :=
  match node with
  | FsDir (Some entries) =>
      S ((fix each (entries : list (jsstring * fsNode)) : nat :=
            match entries with
            | [] => 0%nat
            | (_, entry) :: rest => Nat.max (height entry) (each rest)
            end) entries)
  | _ => 0%nat
  end.

(** A tree for the examples: a session file, a file of another kind, a
    directory that cannot be read and a directory with one session
    file. *)
Definition demoTree : fsNode :=
  FsDir (Some [ (lit "a.jsonl", FsFile (mkFileInfo None (Some 7)));
                (lit "notes.txt", FsFile (mkFileInfo None None));
                (lit "locked", FsDir None);
                (lit "sub", FsDir (Some [ (lit "b.jsonl", FsFile (mkFileInfo None None)) ])) ]).

(* ================================================================== *)
(** * Facts about strings and code points *)
(* ================================================================== *)

Lemma str_eqb_eq (a b : jsstring) : str_eqb a b = true <-> a = b.
Proof.
  unfold str_eqb. destruct (list_eq_dec N.eq_dec a b); split; congruence.
Qed.

Lemma str_eqb_neq (a b : jsstring) : str_eqb a b = false <-> a <> b.
Proof.
  unfold str_eqb. destruct (list_eq_dec N.eq_dec a b); split; congruence.
Qed.

Lemma str_eqb_refl (a : jsstring) : str_eqb a a = true.
Proof. now apply str_eqb_eq. Qed.

(** Induction along the way [chars] cuts a string. *)
Lemma chars_ind (P : jsstring -> Prop) :
  P [] ->
  (forall u, P [u]) ->
  (forall u l rest,
      isHighSurrogate u && isLowSurrogate l = true -> P rest -> P (u :: l :: rest)) ->
  (forall u l rest,
      isHighSurrogate u && isLowSurrogate l = false -> P (l :: rest) -> P (u :: l :: rest)) ->
  forall s, P s.
Proof.
  intros Hnil Hone Hpair Hsingle s.
  assert (Hlen : forall n (t : jsstring), (length t <= n)%nat -> P t).
  { induction n as [|n IH]; intros t Ht.
    - destruct t; [exact Hnil | simpl in Ht; lia].
    - destruct t as [|u [|l rest]]; [exact Hnil | apply Hone |].
      destruct (isHighSurrogate u && isLowSurrogate l) eqn:E.
      + apply Hpair; [exact E | apply IH; simpl in *; lia].
      + apply Hsingle; [exact E | apply IH; simpl in *; lia]. }
  apply (Hlen (length s)). lia.
Qed.

Lemma chars_cons2 (u l : N) (rest : jsstring) :
  chars (u :: l :: rest) =
  if isHighSurrogate u && isLowSurrogate l
  then [u; l] :: chars rest else [u] :: chars (l :: rest).
Proof. reflexivity. Qed.

Lemma chars_cons_not_high (u : N) (s : jsstring) :
  isHighSurrogate u = false -> chars (u :: s) = [u] :: chars s.
Proof.
  intros Hu. destruct s as [|l s']; [reflexivity|].
  simpl. rewrite Hu. reflexivity.
Qed.

Lemma low_not_high (u : N) : isLowSurrogate u = true -> isHighSurrogate u = false.
Proof.
  unfold isLowSurrogate, isHighSurrogate. intros H.
  apply andb_true_iff in H. destruct H as [H1 H2].
  apply N.leb_le in H1. apply andb_false_iff. right. apply N.leb_gt. lia.
Qed.

Lemma chars_yields_chars (s : jsstring) : Forall isChar (chars s).
Proof.
  induction s as [| u | u l rest E IH | u l rest E IH] using chars_ind.
  - constructor.
  - repeat constructor.
  - simpl. rewrite E. constructor; [|exact IH].
    unfold isChar. simpl. rewrite E. reflexivity.
  - change (chars (u :: l :: rest))
      with (if isHighSurrogate u && isLowSurrogate l
            then [u; l] :: chars rest else [u] :: chars (l :: rest)).
    rewrite E. constructor; [reflexivity | exact IH].
Qed.

(** ** Widths *)

Lemma charWidth_range (c : jsstring) : 0 <= charWidth c <= 2.
Proof.
  unfold charWidth.
  destruct (N.leb _ 31); [lia|]. destruct (N.leb _ 127); lia.
Qed.

Lemma charWidth_high (u : N) (rest : jsstring) :
  isHighSurrogate u = true -> charWidth (u :: rest) = 2.
Proof.
  unfold isHighSurrogate. intros H.
  apply andb_true_iff in H. destruct H as [H1 H2].
  apply N.leb_le in H1. apply N.leb_le in H2.
  assert (Hu : (if N.leb u 31 then 0 else if N.leb u 127 then 1 else 2) = 2).
  { destruct (N.leb_spec u 31); [lia|]. destruct (N.leb_spec u 127); [lia|]. reflexivity. }
  unfold charWidth, codePointAt0.
  destruct rest as [|l rest']; [exact Hu|].
  destruct (isHighSurrogate u && isLowSurrogate l); [|exact Hu].
  destruct (N.leb_spec (65536 + (u - 55296) * 1024 + (l - 56320)) 31); [lia|].
  destruct (N.leb_spec (65536 + (u - 55296) * 1024 + (l - 56320)) 127); [lia|].
  reflexivity.
Qed.

Lemma fold_width_shift (cs : list jsstring) (a : Z) :
  fold_left (fun width char => width + charWidth char) cs a = a + widthOf cs.
Proof.
  unfold widthOf. revert a.
  induction cs as [|c cs IH]; intros a; simpl; [lia|].
  rewrite IH. rewrite (IH (charWidth c)). lia.
Qed.

Lemma widthOf_nil : widthOf [] = 0.
Proof. reflexivity. Qed.

Lemma widthOf_cons (c : jsstring) (cs : list jsstring) :
  widthOf (c :: cs) = charWidth c + widthOf cs.
Proof.
  unfold widthOf at 1. simpl. rewrite fold_width_shift. lia.
Qed.

Lemma widthOf_nonneg (cs : list jsstring) : 0 <= widthOf cs.
Proof.
  induction cs as [|c cs IH]; [unfold widthOf; simpl; lia|].
  rewrite widthOf_cons. pose proof (charWidth_range c). lia.
Qed.

Lemma stringWidth_chars (s : jsstring) : stringWidth (Some s) = widthOf (chars s).
Proof. reflexivity. Qed.

Lemma stringWidth_char (c : jsstring) : isChar c -> stringWidth (Some c) = charWidth c.
Proof.
  intros Hc. rewrite stringWidth_chars, Hc, widthOf_cons, widthOf_nil. lia.
Qed.

(** Joining two strings can only merge a trailing high surrogate with a
    leading low one, and the pair is no wider than its halves. *)
Lemma widthOf_chars_app (a b : jsstring) :
  widthOf (chars (a ++ b)) <= widthOf (chars a) + widthOf (chars b).
Proof.
  induction a as [| u | u l rest E IH | u l rest E IH] using chars_ind.
  - change (chars []) with (@nil jsstring). rewrite widthOf_nil.
    change ([] ++ b) with b. lia.
  - change (chars [u]) with [[u]]. rewrite widthOf_cons, widthOf_nil.
    destruct b as [|l b'].
    + change (chars ([u] ++ [])) with [[u]]. rewrite widthOf_cons, widthOf_nil.
      change (chars []) with (@nil jsstring). rewrite widthOf_nil. lia.
    + change ([u] ++ l :: b') with (u :: l :: b').
      rewrite (chars_cons2 u l b').
      destruct (isHighSurrogate u && isLowSurrogate l) eqn:E.
      * apply andb_true_iff in E. destruct E as [Eh El].
        rewrite (chars_cons_not_high l b' (low_not_high l El)).
        rewrite !widthOf_cons.
        rewrite (charWidth_high u [l] Eh), (charWidth_high u [] Eh).
        pose proof (charWidth_range [l]). lia.
      * rewrite !widthOf_cons. lia.
  - change ((u :: l :: rest) ++ b) with (u :: l :: (rest ++ b)).
    rewrite !chars_cons2, E, !widthOf_cons. lia.
  - change ((u :: l :: rest) ++ b) with (u :: l :: (rest ++ b)).
    rewrite !chars_cons2, E, !widthOf_cons.
    change (l :: (rest ++ b)) with ((l :: rest) ++ b). lia.
Qed.

Lemma stringWidth_app_char (l c : jsstring) :
  isChar c -> stringWidth (Some (l ++ c)) <= stringWidth (Some l) + charWidth c.
Proof.
  intros Hc. rewrite !stringWidth_chars.
  pose proof (widthOf_chars_app l c) as Happ.
  rewrite <- (stringWidth_char c Hc), stringWidth_chars. exact Happ.
Qed.

(* ================================================================== *)
(** * Width / wrap primitives *)
(* ================================================================== *)

Section WrapWidth.
Variable maxWidth : Z.
Hypothesis budget : 1 <= maxWidth.

Lemma wrapInvariant_init : wrapInvariant maxWidth (mkWrap [] [] 0).
Proof.
  unfold wrapInvariant. simpl. repeat split; try constructor; try lia.
  rewrite stringWidth_chars. change (chars []) with (@nil jsstring).
  rewrite widthOf_nil. lia.
Qed.

Lemma stringWidth_empty : stringWidth (Some []) = 0.
Proof. reflexivity. Qed.

Lemma wrapInvariant_placeChar (st : WrapState) (c : jsstring) :
  isChar c -> wrapInvariant maxWidth st -> wrapInvariant maxWidth (placeChar maxWidth st c).
Proof.
  intros Hc (Hlines & Hline & Hw).
  pose proof (charWidth_range c) as Hcw.
  pose proof (stringWidth_app_char (line st) c Hc) as Happ.
  pose proof (stringWidth_char c Hc) as Hsingle.
  unfold placeChar.
  destruct ((lineWidth st + charWidth c >? maxWidth) && negb (str_eqb (line st) [])) eqn:Epre.
  - (* the line is pushed first: the code point starts a line *)
    assert (Hpushed : Forall (fitsOrLoneWide maxWidth) (lines st ++ [line st])).
    { apply Forall_app. split; [exact Hlines|]. constructor; [|constructor].
      left. lia. }
    cbn [pushLine lines line lineWidth app].
    destruct (0 + charWidth c >=? maxWidth) eqn:Efull.
    + unfold wrapInvariant. cbn [pushLine lines line lineWidth].
      rewrite stringWidth_empty. repeat split; try lia.
      apply Forall_app. split; [exact Hpushed|]. constructor; [|constructor].
      destruct (Z_le_gt_dec (charWidth c) maxWidth).
      * left. lia.
      * right. split; [exact Hc | lia].
    + rewrite Z.geb_leb in Efull. apply Z.leb_gt in Efull.
      unfold wrapInvariant. cbn [lines line lineWidth].
      change ([] ++ c) with c.
      split; [exact Hpushed | split; lia].
  - cbn [lines line lineWidth].
    destruct (lineWidth st + charWidth c >=? maxWidth) eqn:Efull.
    + unfold wrapInvariant. cbn [pushLine lines line lineWidth].
      rewrite stringWidth_empty. repeat split; try lia.
      apply Forall_app. split; [exact Hlines|]. constructor; [|constructor].
      apply andb_false_iff in Epre. destruct Epre as [Efit | Eempty].
      * left. rewrite Z.gtb_ltb in Efit. apply Z.ltb_ge in Efit. lia.
      * apply negb_false_iff in Eempty. apply str_eqb_eq in Eempty.
        rewrite Eempty. change ([] ++ c) with c.
        destruct (Z_le_gt_dec (charWidth c) maxWidth).
        -- left. lia.
        -- right. split; [exact Hc | lia].
    + rewrite Z.geb_leb in Efull. apply Z.leb_gt in Efull.
      unfold wrapInvariant. cbn [lines line lineWidth].
      split; [exact Hlines | split; lia].
Qed.

Lemma wrapInvariant_wrapStep (st : WrapState) (c : jsstring) :
  isChar c -> wrapInvariant maxWidth st -> wrapInvariant maxWidth (wrapStep maxWidth st c).
Proof.
  intros Hc Hst. unfold wrapStep.
  destruct (str_eqb c CR); [exact Hst|].
  destruct (str_eqb c TAB).
  - change (chars (lit "  ")) with [[32%N]; [32%N]].
    cbn [fold_left].
    apply wrapInvariant_placeChar; [reflexivity|].
    apply wrapInvariant_placeChar; [reflexivity | exact Hst].
  - apply wrapInvariant_placeChar; assumption.
Qed.

Lemma wrapInvariant_loop (cs : list jsstring) (st : WrapState) :
  Forall isChar cs -> wrapInvariant maxWidth st ->
  wrapInvariant maxWidth (fold_left (wrapStep maxWidth) cs st).
Proof.
  revert st. induction cs as [|c cs IH]; intros st Hcs Hst; [exact Hst|].
  inversion Hcs; subst. cbn [fold_left].
  apply IH; [assumption|]. apply wrapInvariant_wrapStep; assumption.
Qed.

Lemma wrapText_lines_fit (text : option jsstring) :
  Forall (fitsOrLoneWide maxWidth) (wrapText text maxWidth).
Proof.
  unfold wrapText.
  destruct (maxWidth <=? 0) eqn:E; [apply Z.leb_le in E; lia|].
  assert (Hloop : forall s,
    let st := fold_left (wrapStep maxWidth) (chars s) (mkWrap [] [] 0) in
    Forall (fitsOrLoneWide maxWidth)
      (if negb (str_eqb (line st) []) || (length (lines st) =? 0)%nat
       then lines st ++ [line st] else lines st)).
  { intros s st.
    destruct (wrapInvariant_loop (chars s) (mkWrap [] [] 0)
                (chars_yields_chars s) wrapInvariant_init) as (Hlines & Hline & Hw).
    fold st in Hlines, Hline, Hw.
    destruct (negb (str_eqb (line st) []) || (length (lines st) =? 0)%nat);
      [|exact Hlines].
    apply Forall_app. split; [exact Hlines|]. constructor; [|constructor].
    left. lia. }
  destruct text as [[|u s]|].
  - constructor; [|constructor]. left. change (stringWidth (Some (lit " "))) with 1. lia.
  - apply (Hloop (u :: s)).
  - apply (Hloop []).
Qed.
End WrapWidth.

(** C2. For every text and every width [w >= 1], each line [wrapText]
    produces has display width (by [stringWidth], that is by the
    [charWidth] rule) at most [w], except a line that is a single code
    point whose own width exceeds [w]. *)
Theorem wrapText_width_bound (text : option jsstring) (w : Z) :
  1 <= w ->
  forall l, In l (wrapText text w) ->
    stringWidth (Some l) <= w \/ (chars l = [l] /\ w < charWidth l).
Proof.
  intros Hw l Hin.
  pose proof (wrapText_lines_fit w Hw text) as Hall.
  rewrite Forall_forall in Hall. exact (Hall l Hin).
Qed.

(** The width bound at a text with a tab, a carriage return and wide code
    points, wrapped at width 3. *)
Lemma wrapText_width_bound_witness :
  1 <= 3 /\
  forall l,
    In l (wrapText (Some (lit "ab" ++ TAB ++ [12354%N; 12354%N] ++ CR ++ lit "cdefg")) 3) ->
    stringWidth (Some l) <= 3 \/ (chars l = [l] /\ 3 < charWidth l).
Proof.
  split; [lia|].
  apply (wrapText_width_bound
           (Some (lit "ab" ++ TAB ++ [12354%N; 12354%N] ++ CR ++ lit "cdefg")) 3).
  lia.
Defined.

Lemma wrapText_length_pos (text : option jsstring) (w : Z) :
  (1 <= length (wrapText text w))%nat.
Proof.
  unfold wrapText.
  destruct (w <=? 0); [simpl; lia|].
  assert (Hloop : forall st : WrapState,
    (1 <= length (if negb (str_eqb (line st) []) || (length (lines st) =? 0)%nat
                  then lines st ++ [line st] else lines st))%nat).
  { intros st.
    destruct (negb (str_eqb (line st) [])); cbn [orb].
    - rewrite length_app. simpl. lia.
    - destruct (length (lines st) =? 0)%nat eqn:E.
      + rewrite length_app. simpl. lia.
      + apply Nat.eqb_neq in E. lia. }
  destruct text as [[|u s]|]; [simpl; lia | apply Hloop | apply Hloop].
Qed.

(** C9. [wrapText] is a total function that returns at least one line for
    every input; at a width [w <= 0] it returns the text as its only
    line, unchanged (tabs and carriage returns kept, nothing split), and
    the empty string gives one empty line. *)
Theorem wrapText_never_empty (text : option jsstring) (w : Z) :
  (1 <= length (wrapText text w))%nat
  /\ (w <= 0 -> wrapText text w = [orEmpty text])
  /\ (w <= 0 -> wrapText (Some []) w = [[]]).
Proof.
  split; [apply wrapText_length_pos|].
  split; intros Hw; unfold wrapText; apply Z.leb_le in Hw; rewrite Hw; reflexivity.
Qed.

Lemma wrapText_never_empty_witness :
  0 <= 0 /\
  wrapText (Some (lit "a" ++ TAB ++ lit "b" ++ CR)) 0 = [lit "a" ++ TAB ++ lit "b" ++ CR]
  /\ wrapText (Some []) 0 = [[]].
Proof.
  split; [lia|].
  split.
  - apply (proj1 (proj2 (wrapText_never_empty (Some (lit "a" ++ TAB ++ lit "b" ++ CR)) 0))).
    lia.
  - apply (proj2 (proj2 (wrapText_never_empty (Some []) 0))). lia.
Defined.

(** ** Label truncation *)

Lemma printable_not_high (u : N) : isPrintable u -> isHighSurrogate u = false.
Proof.
  unfold isPrintable, isHighSurrogate. intros Hu.
  apply andb_false_iff. left. apply N.leb_gt. lia.
Qed.

Lemma charWidth_printable (u : N) : isPrintable u -> charWidth [u] = 1.
Proof.
  unfold isPrintable, charWidth, codePointAt0. intros Hu.
  destruct (N.leb_spec u 31); [lia|]. destruct (N.leb_spec u 127); [reflexivity | lia].
Qed.

Lemma chars_printable (s : jsstring) :
  Forall isPrintable s -> chars s = map (fun u => [u]) s.
Proof.
  induction 1 as [|u s Hu Hs IH]; [reflexivity|].
  rewrite (chars_cons_not_high u s (printable_not_high u Hu)), IH. reflexivity.
Qed.

Lemma stringWidth_printable (s : jsstring) :
  Forall isPrintable s -> stringWidth (Some s) = str_length s.
Proof.
  intros Hs. rewrite stringWidth_chars, (chars_printable s Hs).
  unfold str_length.
  induction Hs as [|u s Hu Hs IH]; [reflexivity|].
  cbn [map length]. rewrite widthOf_cons, IH, (charWidth_printable u Hu). lia.
Qed.

Lemma truncateLoop_printable (maxWidth : Z) (s result : jsstring) (width : Z) :
  Forall isPrintable s ->
  truncateLoop maxWidth (map (fun u => [u]) s) result width
  = result ++ firstn (Z.to_nat (maxWidth - width)) s.
Proof.
  intros Hs. revert result width.
  induction Hs as [|u s Hu Hs IH]; intros result width.
  - cbn [map truncateLoop]. rewrite firstn_nil, app_nil_r. reflexivity.
  - cbn [map truncateLoop]. rewrite (charWidth_printable u Hu).
    destruct (width + 1 >? maxWidth) eqn:E; rewrite Z.gtb_ltb in E.
    + apply Z.ltb_lt in E.
      replace (Z.to_nat (maxWidth - width)) with 0%nat by lia.
      cbn [firstn]. rewrite app_nil_r. reflexivity.
    + apply Z.ltb_ge in E. rewrite IH.
      replace (Z.to_nat (maxWidth - width))
        with (S (Z.to_nat (maxWidth - (width + 1)))) by lia.
      cbn [firstn]. rewrite <- app_assoc. reflexivity.
Qed.

Lemma truncateByWidth_printable (s : jsstring) (maxWidth : Z) :
  Forall isPrintable s -> truncateByWidth (Some s) maxWidth = firstn (Z.to_nat maxWidth) s.
Proof.
  intros Hs. unfold truncateByWidth.
  destruct s as [|u s]; [now rewrite firstn_nil|].
  destruct (maxWidth <=? 0) eqn:E.
  - apply Z.leb_le in E. replace (Z.to_nat maxWidth) with 0%nat by lia. reflexivity.
  - rewrite (chars_printable _ Hs), (truncateLoop_printable _ _ _ _ Hs).
    rewrite Z.sub_0_r. reflexivity.
Qed.

Lemma slice0_firstn (s : jsstring) (e : Z) :
  0 <= e -> slice0 s e = firstn (Z.to_nat e) s.
Proof.
  intros He. unfold slice0.
  destruct (e <? 0) eqn:E; [apply Z.ltb_lt in E; lia|].
  unfold str_length.
  destruct (Z.min_spec e (Z.of_nat (length s))) as [[Hlt ->] | [Hge ->]]; [reflexivity|].
  rewrite Nat2Z.id, firstn_all. symmetry. apply firstn_all2. lia.
Qed.

Lemma truncateLabel_units (label : jsstring) (budget : Z) :
  (str_length label <= budget -> truncateLabel (Some label) budget = label)
  /\ (budget < str_length label -> 3 < budget ->
      truncateLabel (Some label) budget
      = firstn (Z.to_nat (budget - 3)) label ++ lit "...")
  /\ (budget < str_length label -> 0 <= budget <= 3 ->
      truncateLabel (Some label) budget = firstn (Z.to_nat budget) label)
  /\ (budget < 0 ->
      truncateLabel (Some label) budget
      = firstn (Z.to_nat (str_length label + budget)) label).
Proof.
  unfold truncateLabel.
  destruct label as [|u s].
  - unfold str_length. cbn [length].
    repeat split; intros; rewrite ?firstn_nil; try reflexivity; lia.
  - set (label := u :: s).
    repeat split.
    + intros Hfit. apply Z.leb_le in Hfit. rewrite Hfit. reflexivity.
    + intros Hlong Hbig.
      apply Z.leb_gt in Hlong. rewrite Hlong.
      apply Z.leb_gt in Hbig. rewrite Hbig.
      apply Z.leb_gt in Hbig. rewrite slice0_firstn by lia. reflexivity.
    + intros Hlong Hsmall.
      apply Z.leb_gt in Hlong. rewrite Hlong.
      destruct (budget <=? 3) eqn:E; [|apply Z.leb_gt in E; lia].
      apply slice0_firstn. lia.
    + intros Hneg.
      assert (Hlen : 0 <= str_length label) by (unfold str_length; lia).
      destruct (str_length label <=? budget) eqn:E1; [apply Z.leb_le in E1; lia|].
      destruct (budget <=? 3) eqn:E2; [|apply Z.leb_gt in E2; lia].
      unfold slice0.
      destruct (budget <? 0) eqn:E3; [|apply Z.ltb_ge in E3; lia].
      destruct (Z.max_spec (str_length label + budget) 0) as [[Hlt ->] | [Hge ->]].
      * replace (Z.to_nat (str_length label + budget)) with 0%nat by lia. reflexivity.
      * reflexivity.
Qed.

(** C6, as amended.  Label truncation counts UTF-16 code units, not
    display width: a label of at most [budget] code units is returned
    unchanged; a longer one keeps its first [budget - 3] code units and
    gets ["..."] when [budget > 3], and is cut to its first [budget] code
    units without an ellipsis when [0 <= budget <= 3]; a negative budget
    drops that many trailing code units.  For a label of printable ASCII
    and a budget that is not negative this is the contract in width
    units. *)
Theorem truncateLabel_ellipsis_contract (label : jsstring) (budget : Z) :
  (str_length label <= budget -> truncateLabel (Some label) budget = label)
  /\ (budget < str_length label -> 3 < budget ->
      truncateLabel (Some label) budget
      = firstn (Z.to_nat (budget - 3)) label ++ lit "...")
  /\ (budget < str_length label -> 0 <= budget <= 3 ->
      truncateLabel (Some label) budget = firstn (Z.to_nat budget) label)
  /\ (budget < 0 ->
      truncateLabel (Some label) budget
      = firstn (Z.to_nat (str_length label + budget)) label)
  /\ (Forall isPrintable label -> 0 <= budget -> widthEllipsisContract label budget).
Proof.
  destruct (truncateLabel_units label budget) as (Hfit & Hlong & Hcut & Hneg).
  repeat (split; [assumption|]).
  intros Hascii Hbudget. unfold widthEllipsisContract.
  rewrite (stringWidth_printable label Hascii).
  rewrite !(truncateByWidth_printable label _ Hascii).
  repeat split.
  - exact Hfit.
  - exact Hlong.
  - intros Hl Hb. apply Hcut; lia.
Qed.

Lemma truncateLabel_ellipsis_contract_witness :
  truncateLabel (Some (lit "abc")) 5 = lit "abc"
  /\ truncateLabel (Some (lit "2024-01-02 03:04:05")) 8 = lit "2024-..."
  /\ truncateLabel (Some (lit "abcdef")) 2 = lit "ab"
  /\ truncateLabel (Some (lit "abcdef")) (-2) = lit "abcd"
  /\ widthEllipsisContract (lit "abcdef") 5.
Proof.
  pose proof (truncateLabel_ellipsis_contract (lit "abc") 5) as (H1 & _).
  pose proof (truncateLabel_ellipsis_contract (lit "2024-01-02 03:04:05") 8) as (_ & H2 & _).
  pose proof (truncateLabel_ellipsis_contract (lit "abcdef") 2) as (_ & _ & H3 & _).
  pose proof (truncateLabel_ellipsis_contract (lit "abcdef") (-2)) as (_ & _ & _ & H4 & _).
  pose proof (truncateLabel_ellipsis_contract (lit "abcdef") 5) as (_ & _ & _ & _ & H5).
  split; [apply H1; vm_compute; discriminate|].
  split; [apply H2; reflexivity|].
  split; [apply H3; [reflexivity | split; vm_compute; discriminate]|].
  split; [apply H4; reflexivity|].
  apply H5; [|lia].
  repeat constructor; vm_compute; discriminate.
Defined.

(** C6 as stated fails: a label of four wide code points (width 8) at
    budget 5 exceeds the budget in width, yet it has only four code units
    and comes back unchanged, where the contract in width units leaves
    one code point and the ellipsis.  And a negative budget is no cut to
    the budget in any unit: at budget -1 the label [abc] keeps two code
    units. *)
Lemma truncateLabel_width_counterexample :
  let label := [12354%N; 12354%N; 12354%N; 12354%N] in
  stringWidth (Some label) = 8
  /\ truncateLabel (Some label) 5 = label
  /\ truncateByWidth (Some label) (5 - 3) ++ lit "..." = [12354%N; 46%N; 46%N; 46%N]
  /\ ~ widthEllipsisContract label 5
  /\ truncateLabel (Some (lit "abc")) (-1) = lit "ab"
  /\ truncateByWidth (Some (lit "abc")) (-1) = [].
Proof.
  cbv zeta. repeat split.
  intros (_ & Hlong & _).
  assert (H : 5 < stringWidth (Some [12354%N; 12354%N; 12354%N; 12354%N])) by reflexivity.
  specialize (Hlong H ltac:(lia)). vm_compute in Hlong. discriminate Hlong.
Qed.

(** ** Re-wrapping rows *)

(** C7, at the failing input.  A row whose text is a lone carriage
    return (the Markdown row of the blank line of a message with CRLF
    line ends) loses it in the first pass and is left with the empty
    text; the second pass turns the empty text into the one-space
    placeholder, so the second pass is not a no-op. *)
Theorem wrapRows_twice_differs_on_carriage_return :
  let entries := [mkEntry (VStr (lit "user"))
                          (VStr (lit "a" ++ CR ++ NL ++ CR ++ NL ++ lit "b"))] in
  let rows := buildMarkdownRows (buildMarkdown entries) in
  map rtext rows
    = [Some (lit "### User"); Some (lit "a" ++ CR); Some CR; Some (lit "b"); Some (lit " ")]
  /\ map rtext (wrapRows rows 10)
    = [Some (lit "### User"); Some (lit "a"); Some []; Some (lit "b"); Some (lit " ")]
  /\ map rtext (wrapRows (wrapRows rows 10) 10)
    = [Some (lit "### User"); Some (lit "a"); Some (lit " "); Some (lit "b"); Some (lit " ")]
  /\ wrapRows (wrapRows rows 10) 10 <> wrapRows rows 10
  /\ wrapText (Some CR) 10 = [[]]
  /\ wrapText (Some []) 10 = [lit " "].
Proof.
  cbv zeta. repeat split. vm_compute. discriminate.
Qed.

(* ================================================================== *)
(** * Conversation extractor *)
(* ================================================================== *)

(** ** Image placeholders *)

Lemma placeholdersFrom_seq (images : list jsval) (index : nat) :
  placeholdersFrom index images
  = map (fun i => lit "[image " ++ decimal (Z.of_nat i) ++ lit "]")
        (seq (S index) (length images)).
Proof.
  revert index. induction images as [|image rest IH]; intros index; [reflexivity|].
  cbn [placeholdersFrom length seq map]. rewrite IH.
  replace (Z.of_nat index + 1) with (Z.of_nat (S index)) by lia. reflexivity.
Qed.

Lemma arrayItems_guard (v : jsval) :
  (if isArray v then arrayItems v else []) = arrayItems v.
Proof. destruct v; reflexivity. Qed.

Lemma imagePlaceholders_tokens (payload : jsval) :
  imagePlaceholders payload = imageTokens (length (attachments payload)).
Proof.
  unfold imagePlaceholders, attachments, imageTokens.
  rewrite !arrayItems_guard.
  destruct (arrayItems (getProp payload "images")
            ++ arrayItems (getProp payload "local_images")) as [|image rest] eqn:E.
  - reflexivity.
  - cbn [length Nat.eqb]. apply placeholdersFrom_seq.
Qed.

Lemma imageTokens_length (n : nat) : length (imageTokens n) = n.
Proof. unfold imageTokens. now rewrite length_map, length_seq. Qed.

Lemma appendImages_tokens (body payload : jsval) :
  appendImages body payload =
  match length (attachments payload) with
  | O => body
  | S _ as n =>
      if truthy body
      then VStr (ToString body ++ NL ++ NL ++ join NL (imageTokens n))
      else VStr (join NL (imageTokens n))
  end.
Proof.
  unfold appendImages. rewrite imagePlaceholders_tokens, imageTokens_length.
  destruct (length (attachments payload)) as [|n]; [reflexivity|].
  cbn [Nat.eqb]. destruct (truthy body); reflexivity.
Qed.

Lemma shouldExcludeText_str (s : jsstring) :
  shouldExcludeText (VStr s) = Return (excludedText s).
Proof.
  unfold shouldExcludeText, excludedText, truthy.
  destruct (str_eqb s []); reflexivity.
Qed.

Lemma isStr_inv (v : jsval) (s : string) : isStr v s = true -> v = VStr (lit s).
Proof.
  destruct v; try discriminate. cbn [isStr]. intros E.
  apply str_eqb_eq in E. now subst.
Qed.

(** C8. For every [user_message] record whose body [message || ""] is
    the string [m], with [n] attachments in its [images] and
    [local_images] arrays taken in that order: the placeholders are the
    tokens [[image 1]] ... [[image n]]; the text is [m] when there is no
    attachment, the tokens joined by newlines when [m] is empty, and [m],
    one blank line and the tokens otherwise; that text is the text of the
    entry the record adds to the primary stream unless the exclusion rule
    drops it.  Two images and an empty message give
    ["[image 1]\n[image 2]"]. *)
Theorem user_message_image_placeholders (parsed : jsval) (acc : Streams) (m : jsstring) :
  let payload := jsOr (getProp parsed "payload") (VObj []) in
  let n := length (attachments payload) in
  let text :=
    match n with
    | O => m
    | S _ =>
        if str_eqb m [] then join NL (imageTokens n)
        else m ++ NL ++ NL ++ join NL (imageTokens n)
    end in
  isStr (getProp parsed "type") "event_msg" = true ->
  isStr (getProp payload "type") "user_message" = true ->
  jsOr (getProp payload "message") (VStr []) = VStr m ->
  imagePlaceholders payload = imageTokens n
  /\ appendImages (VStr m) payload = VStr text
  /\ scanEvent parsed acc
     = Return (if excludedText text then acc
               else mkStreams (eventMessages acc ++ [mkEntry (VStr (lit "user")) (VStr text)])
                              (fallbackMessages acc))
  /\ appendImages (VStr [])
       (VObj [ (lit "images", VArr [VStr (lit "a.png"); VStr (lit "b.png")]);
               (lit "message", VStr []) ])
     = VStr (lit "[image 1]" ++ NL ++ lit "[image 2]").
Proof.
  intros payload n text Hevent Huser Hbody.
  assert (Happend : appendImages (VStr m) payload = VStr text).
  { rewrite appendImages_tokens. fold n. unfold text.
    destruct n as [|k]; [reflexivity|].
    cbn [truthy ToString]. destruct (str_eqb m []); reflexivity. }
  split; [apply imagePlaceholders_tokens|].
  split; [exact Happend|].
  split; [|reflexivity].
  unfold scanEvent. rewrite Hevent. fold payload. rewrite Huser, Hbody, Happend.
  rewrite shouldExcludeText_str.
  apply isStr_inv in Huser. rewrite Huser.
  cbn [bindO isStr]. change (str_eqb (lit "user_message") (lit "agent_message")) with false.
  change (str_eqb (lit "user_message") (lit "assistant_message")) with false.
  cbn [orb]. destruct (excludedText text); reflexivity.
Qed.

(** The spec's example as a record: two images and an empty message. *)
Lemma user_message_image_placeholders_witness :
  scanEvent
    (VObj [ (lit "type", VStr (lit "event_msg"));
            (lit "payload",
             VObj [ (lit "type", VStr (lit "user_message"));
                    (lit "message", VStr []);
                    (lit "images", VArr [VStr (lit "a.png"); VStr (lit "b.png")]) ]) ])
    (mkStreams [] [])
  = Return (mkStreams [mkEntry (VStr (lit "user"))
                               (VStr (lit "[image 1]" ++ NL ++ lit "[image 2]"))] []).
Proof.
  exact (proj1 (proj2 (proj2
    (user_message_image_placeholders
       (VObj [ (lit "type", VStr (lit "event_msg"));
               (lit "payload",
                VObj [ (lit "type", VStr (lit "user_message"));
                       (lit "message", VStr []);
                       (lit "images", VArr [VStr (lit "a.png"); VStr (lit "b.png")]) ]) ])
       (mkStreams [] []) [] eq_refl eq_refl eq_refl)))).
Defined.

(** ** The two streams *)

Lemma streams_eta (acc : Streams) :
  mkStreams (eventMessages acc) (fallbackMessages acc) = acc.
Proof. destruct acc; reflexivity. Qed.



(** The response-item branch never throws, and it leaves the primary
    stream alone. *)
Lemma scanResponseItem_frame (parsed : jsval) (acc : Streams) :
  scanResponseItem parsed acc
  = Return (mkStreams (eventMessages acc) (fallbackMessages acc ++ fallbackOf parsed)).
Proof.
  unfold fallbackOf, scanResponseItem.
  destruct (isStr (getProp parsed "type") "response_item");
    [|cbn [fallbackMessages]; now rewrite app_nil_r, streams_eta].
  set (payload := jsOr (getProp parsed "payload") (VObj [])).
  destruct (isStr (getProp payload "type") "message");
    [|cbn [fallbackMessages]; now rewrite app_nil_r, streams_eta].
  destruct (isStr (getProp payload "role") "user"
            || isStr (getProp payload "role") "assistant");
    [|cbn [fallbackMessages]; now rewrite app_nil_r, streams_eta].
  rewrite shouldExcludeText_str. cbn [bindO].
  destruct (excludedText _); cbn [negb eventMessages fallbackMessages app].
  - now rewrite app_nil_r, streams_eta.
  - reflexivity.
Qed.

(** ** The loop body against the rules of the specification *)




Section Streams.
Context `{Host}.




End Streams.

(** What the event branch does on any record: it throws whatever the
    accumulators hold, or adds what it adds from empty ones. *)
Lemma scanEvent_outcome (parsed : jsval) (acc : Streams) :
  scanEvent parsed acc
  = if recordThrows parsed then Throw TypeError
    else Return (mkStreams (eventMessages acc ++ primaryOf parsed) (fallbackMessages acc)).
Proof.
  unfold recordThrows, primaryOf, scanEvent.
  destruct (isStr (getProp parsed "type") "event_msg");
    [|cbn [eventMessages]; now rewrite app_nil_r, streams_eta].
  set (payload := jsOr (getProp parsed "payload") (VObj [])).
  set (msgType := getProp payload "type").
  destruct (isStr msgType "user_message") eqn:Euser.
  - pose proof (isStr_inv _ _ Euser) as Hty. rewrite Hty.
    change (isStr (VStr (lit "user_message")) "agent_message") with false.
    change (isStr (VStr (lit "user_message")) "assistant_message") with false.
    cbn [orb].
    destruct (shouldExcludeText (appendImages (jsOr (getProp payload "message") (VStr []))
                                              payload)) as [[|]|[]];
      cbn [bindO negb eventMessages fallbackMessages app]; try reflexivity.
    now rewrite app_nil_r, streams_eta.
  - cbn [bindO].
    destruct (isStr msgType "agent_message" || isStr msgType "assistant_message").
    + destruct (shouldExcludeText (jsOr (getProp payload "message") (VStr []))) as [[|]|[]];
        cbn [bindO negb eventMessages fallbackMessages app]; try reflexivity.
      now rewrite app_nil_r, streams_eta.
    + cbn [eventMessages]. now rewrite app_nil_r, streams_eta.
Qed.

(** The outcome of the extraction on every log: it fails as a whole when
    a record makes the loop body throw, and otherwise returns the primary
    stream, or the fallback stream when the primary one is empty. *)
Lemma extractConversation_outcome `{Host} (rl : list jsstring) :
  extractConversation rl
  = if existsb recordThrows (records rl) then Throw TypeError
    else Return (match primaryStream rl with
                 | [] => fallbackStream rl
                 | _ :: _ => primaryStream rl
                 end).
Proof.
  unfold extractConversation.
  assert (Hscan : forall acc,
    scanLines acc rl
    = if existsb recordThrows (records rl) then Throw TypeError
      else Return (mkStreams (eventMessages acc ++ primaryStream rl)
                             (fallbackMessages acc ++ fallbackStream rl))).
  { unfold primaryStream, fallbackStream, records.
    induction rl as [|line rest IH]; intros acc.
    - cbn [scanLines flat_map existsb]. now rewrite !app_nil_r, streams_eta.
    - cbn [scanLines flat_map]. unfold scanLine.
      destruct (str_eqb (trim line) []); [cbn [bindO app]; apply IH|].
      destruct (JSON_parse line) as [parsed|]; [|cbn [bindO app]; apply IH].
      cbn [app existsb flat_map]. rewrite scanEvent_outcome.
      destruct (recordThrows parsed); cbn [bindO orb]; [reflexivity|].
      rewrite scanResponseItem_frame. cbn [bindO]. rewrite IH.
      cbn [eventMessages fallbackMessages].
      destruct (existsb recordThrows _); [reflexivity|].
      now rewrite <- !app_assoc. }
  rewrite Hscan.
  destruct (existsb recordThrows (records rl)); [reflexivity|].
  cbn [bindO eventMessages fallbackMessages app].
  destruct (primaryStream rl); reflexivity.
Qed.



(* ================================================================== *)
(** * Session locator *)
(* ================================================================== *)

(** ** The sort *)

Lemma StronglySorted_weaken {A : Type} (R S : A -> A -> Prop) (l : list A) :
  (forall a b, R a b -> S a b) -> StronglySorted R l -> StronglySorted S l.
Proof.
  intros HRS. induction 1 as [|a rest Hrest IH Ha]; constructor; [exact IH|].
  rewrite Forall_forall in *. intros b Hb. apply HRS, Ha, Hb.
Qed.

Section Sort.
Variable A : Type.
Variable compare : A -> A -> Z.
Hypothesis compare_total : forall a b, 0 < compare a b -> compare b a <= 0.
Hypothesis compare_trans :
  forall a b c, compare a b <= 0 -> compare b c <= 0 -> compare a c <= 0.

Lemma sortInsert_perm (a : A) (l : list A) : Permutation (a :: l) (sortInsert compare a l).
Proof.
  induction l as [|b rest IH]; cbn [sortInsert]; [reflexivity|].
  destruct (compare a b <=? 0); [reflexivity|].
  rewrite perm_swap. now apply perm_skip.
Qed.

Lemma jsSort_perm (l : list A) : Permutation l (jsSort compare l).
Proof.
  induction l as [|a rest IH]; cbn [jsSort fold_right]; [reflexivity|].
  rewrite <- sortInsert_perm. now apply perm_skip.
Qed.

Lemma sortInsert_sorted (a : A) (l : list A) :
  StronglySorted (fun x y => compare x y <= 0) l ->
  StronglySorted (fun x y => compare x y <= 0) (sortInsert compare a l).
Proof.
  induction 1 as [|b rest Hrest IH Hb]; cbn [sortInsert].
  - constructor; constructor.
  - destruct (compare a b <=? 0) eqn:E.
    + apply Z.leb_le in E. constructor; [constructor; assumption|].
      constructor; [exact E|].
      rewrite Forall_forall in *. intros c Hc.
      apply (compare_trans a b c E (Hb c Hc)).
    + apply Z.leb_gt in E. constructor; [exact IH|].
      apply (Permutation_Forall (sortInsert_perm a rest)).
      constructor; [apply compare_total; lia | exact Hb].
Qed.

Lemma jsSort_sorted (l : list A) :
  StronglySorted (fun x y => compare x y <= 0) (jsSort compare l).
Proof.
  induction l as [|a rest IH]; cbn [jsSort fold_right]; [constructor|].
  apply sortInsert_sorted. exact IH.
Qed.
End Sort.

Section SessionOrder.
Context `{Host}.
Hypothesis labels_ordered : consistentCompare localeCompare.

Lemma compareSessions_order (a b : Session) :
  compareSessions a b <= 0 <-> sessionOrder a b.
Proof.
  unfold compareSessions, sessionOrder.
  destruct (sortKey a =? sortKey b) eqn:E; cbn [negb].
  - apply Z.eqb_eq in E. split; [intros Hc; right; split; assumption|].
    intros [Hlt | [_ Hc]]; [lia | exact Hc].
  - apply Z.eqb_neq in E. split; [intros Hc; left; lia|].
    intros [Hlt | [Heq _]]; lia.
Qed.

Lemma compareSessions_total (a b : Session) :
  0 < compareSessions a b -> compareSessions b a <= 0.
Proof.
  destruct labels_ordered as [Htotal _].
  unfold compareSessions.
  rewrite (Z.eqb_sym (sortKey b) (sortKey a)).
  destruct (sortKey a =? sortKey b) eqn:E; cbn [negb]; [apply Htotal | lia].
Qed.

Lemma compareSessions_trans (a b c : Session) :
  compareSessions a b <= 0 -> compareSessions b c <= 0 -> compareSessions a c <= 0.
Proof.
  destruct labels_ordered as [_ Htrans].
  rewrite !compareSessions_order. unfold sessionOrder.
  intros [Hab | [Hab Lab]] [Hbc | [Hbc Lbc]]; try (left; lia).
  right. split; [lia|]. exact (Htrans _ _ _ Lab Lbc).
Qed.

Lemma deriveSortKey_precedence (stat : option Z) (tsRaw : jsval) (filePath : jsstring) :
  deriveSortKey stat tsRaw filePath
  = firstAvailable (usable stat) (usable (metaMsOf tsRaw))
                   (usable (parseTimestampMsFromFilename filePath)).
Proof.
  unfold deriveSortKey, firstAvailable, metaMsOf, usable, numOr.
  destruct stat as [[|m|m]|]; cbn [Z.eqb]; try reflexivity;
    (destruct (truthy tsRaw); [destruct (Date_parse tsRaw) as [[|t|t]|]|]);
    cbn [Z.eqb]; try reflexivity;
    destruct (parseTimestampMsFromFilename filePath) as [[|f|f]|]; reflexivity.
Qed.

(** C3, as amended.  The sort key of a discovered file is its
    modification time in milliseconds when [stat] gives one and it is
    not 0, else the parsed metadata timestamp when there is one and it is
    not 0, else the timestamp of the file name when there is one, else 0;
    the scan returns the sessions of the files found, each once, in
    descending order of sort key with equal keys in ascending label
    order. *)
Theorem scan_sort_contract (baseDir : jsstring) (root : fsNode) :
  exists sessionsData,
    scanSessions baseDir root = Return sessionsData
    /\ Permutation (map (describeSession baseDir) (findJsonlFiles baseDir root)) sessionsData
    /\ StronglySorted sessionOrder sessionsData
    /\ (forall filePath info,
          In (filePath, info) (findJsonlFiles baseDir root) ->
          sortKey (describeSession baseDir (filePath, info))
          = firstAvailable
              (usable (statMtimeMs info))
              (usable (metaMsOf (metaTimestamp (readSessionMeta info))))
              (usable (parseTimestampMsFromFilename filePath))).
Proof.
  eexists. split; [reflexivity|].
  split; [apply jsSort_perm|].
  split.
  - apply (StronglySorted_weaken (fun a b => compareSessions a b <= 0)).
    + intros a b. apply compareSessions_order.
    + apply (jsSort_sorted Session compareSessions
               compareSessions_total compareSessions_trans).
  - intros filePath info _. cbn [describeSession sortKey].
    apply deriveSortKey_precedence.
Qed.
End SessionOrder.

(** ** The order of the example host *)

Lemma lexCompare_antisym (a b : jsstring) : lexCompare b a = - lexCompare a b.
Proof.
  revert b. induction a as [|u a IH]; intros [|v b]; cbn [lexCompare]; try reflexivity.
  destruct (N.ltb_spec u v), (N.ltb_spec v u); try lia; try reflexivity.
  apply IH.
Qed.

Lemma lexCompare_trans (a b c : jsstring) :
  lexCompare a b <= 0 -> lexCompare b c <= 0 -> lexCompare a c <= 0.
Proof.
  revert b c. induction a as [|u a IH]; intros [|v b] [|w c]; cbn [lexCompare];
    try lia.
  destruct (N.ltb_spec u v), (N.ltb_spec v u), (N.ltb_spec v w), (N.ltb_spec w v),
    (N.ltb_spec u w), (N.ltb_spec w u); try lia.
  apply IH.
Qed.

Lemma lexCompare_consistent : consistentCompare lexCompare.
Proof.
  split.
  - intros a b Hab. rewrite lexCompare_antisym. lia.
  - apply lexCompare_trans.
Qed.

Lemma scan_sort_contract_witness :
  consistentCompare lexCompare
  /\ exists sessionsData,
       scanSessions (lit "/s") demoRoot = Return sessionsData
       /\ Permutation (map (describeSession (lit "/s")) (findJsonlFiles (lit "/s") demoRoot))
                      sessionsData
       /\ StronglySorted sessionOrder sessionsData
       /\ (forall filePath info,
             In (filePath, info) (findJsonlFiles (lit "/s") demoRoot) ->
             sortKey (describeSession (lit "/s") (filePath, info))
             = firstAvailable
                 (usable (statMtimeMs info))
                 (usable (metaMsOf (metaTimestamp (readSessionMeta info))))
                 (usable (parseTimestampMsFromFilename filePath))).
Proof.
  split; [exact lexCompare_consistent|].
  exact (scan_sort_contract lexCompare_consistent (lit "/s") demoRoot).
Defined.

(** Sort keys 5, 5 and 3 with labels b, a and c come out as a, b, c. *)
Lemma scan_sort_example :
  match scanSessions (lit "/s") demoRoot with
  | Return sessionsData => map (fun s => (label s, sortKey s)) sessionsData
  | Throw _ => []
  end
  = [ (lit "a.jsonl", 5); (lit "b.jsonl", 5); (lit "old/c.jsonl", 3) ].
Proof. reflexivity. Qed.

(** C3 as stated fails where a timestamp that is there is 0: the file
    [x.jsonl] has the modification time 0 and the meta timestamp 1000;
    its sort key is 1000, not its modification time, and it is listed
    before the file modified at 500. *)
Lemma sortKey_zero_mtime_counterexample :
  let x := mkFileInfo (Some (lit "M:1000")) (Some 0) in
  statMtimeMs x = Some 0
  /\ metaMsOf (metaTimestamp (readSessionMeta x)) = Some 1000
  /\ firstAvailable (statMtimeMs x) (metaMsOf (metaTimestamp (readSessionMeta x)))
                    (parseTimestampMsFromFilename (lit "/s/x.jsonl")) = 0
  /\ sortKey (describeSession (lit "/s") (lit "/s/x.jsonl", x)) = 1000
  /\ scanSessions (lit "/s") epochRoot
     = Return [ mkSession VNull (lit "1000") (lit "/s/x.jsonl") 1000 VNull;
                mkSession VNull (lit "y.jsonl") (lit "/s/y.jsonl") 500 VNull ].
Proof. cbv zeta. repeat split. Qed.

(** ** An unreadable root *)

(** C4, as amended.  A failure to read the root of the scan gives no
    file; the scan effect then ends in the state of a scan that found no
    session file, with no error recorded, and the list shows "No sessions
    found". *)
Theorem unreadable_root_is_no_sessions `{Host} (baseDir : jsstring) (st : SessionsState)
    (visibleCount maxLabelWidth : Z) :
  findJsonlFiles baseDir (FsDir None) = []
  /\ runScan baseDir (FsDir None) st = mkSessionsState [] 0 0 false []
  /\ runScan baseDir (FsDir None) st = runScan baseDir (FsDir (Some [])) st
  /\ ListView (runScan baseDir (FsDir None) st) visibleCount maxLabelWidth = ViewNoSessions.
Proof.
  repeat split.
Qed.

(** C4 as stated fails: after the scan of an unreadable root the list
    renders what it renders after the scan of an empty directory, and
    that is not the load error. *)
Lemma unreadable_root_counterexample :
  ListView (runScan (lit "/s") (FsDir None) initialSessionsState) 15 21
  = ListView (runScan (lit "/s") (FsDir (Some [])) initialSessionsState) 15 21
  /\ ListView (runScan (lit "/s") (FsDir None) initialSessionsState) 15 21 = ViewNoSessions
  /\ forall detail,
       ListView (runScan (lit "/s") (FsDir None) initialSessionsState) 15 21
       <> ViewLoadError detail.
Proof.
  repeat split. intros detail. discriminate.
Qed.

(* ================================================================== *)
(** * Scroll controller of the conversation pane *)
(* ================================================================== *)

Lemma maxRightOffset_nonneg (e : PaneEnv) : 0 <= maxRightOffset e.
Proof. unfold maxRightOffset. lia. Qed.

Lemma rightVisibleCount_pos (e : PaneEnv) : 1 <= rightVisibleCount e.
Proof. unfold rightVisibleCount. lia. Qed.

Lemma ceilHalf_nonneg (n : Z) : 1 <= n -> 0 <= ceilHalf n.
Proof. intros Hn. unfold ceilHalf. apply Z.div_pos; lia. Qed.

Lemma runEffects_inRange (old new : PaneEnv) (prev : Z) :
  0 <= prev <= maxRightOffset old ->
  0 <= runEffects old new prev <= maxRightOffset new.
Proof.
  intros Hprev. pose proof (maxRightOffset_nonneg new) as Hnew.
  unfold runEffects.
  destruct (resetDepsChanged old new); [lia|].
  destruct (maxRightOffset old =? maxRightOffset new) eqn:E; cbn [negb].
  - apply Z.eqb_eq in E. lia.
  - lia.
Qed.

Lemma paneStep_inRange (st : PaneState) (ev : PaneEvent) :
  inRange st -> inRange (paneStep st ev).
Proof.
  unfold inRange. intros Hst.
  pose proof (maxRightOffset_nonneg (env st)) as Hmax.
  pose proof (rightVisibleCount_pos (env st)) as Hvis.
  pose proof (ceilHalf_nonneg _ Hvis) as Hhalf.
  destruct ev as [key | rows columns | | session | rowsOf]; cbn [paneStep].
  - cbn [env rightScrollOffset]. destruct key; cbn [rightKey]; lia.
  - cbn [env rightScrollOffset]. apply runEffects_inRange, Hst.
  - cbn [env rightScrollOffset]. apply runEffects_inRange, Hst.
  - destruct (session_eqb session (selectedSession (env st))); [exact Hst|].
    cbn [env rightScrollOffset]. apply runEffects_inRange, Hst.
  - cbn [env rightScrollOffset]. apply runEffects_inRange. lia.
Qed.

Lemma paneRun_inRange (env0 : PaneEnv) (events : list PaneEvent) :
  inRange (paneRun env0 events).
Proof.
  unfold paneRun.
  assert (Hgen : forall st, inRange st -> inRange (fold_left paneStep events st)).
  { induction events as [|ev rest IH]; intros st Hst; [exact Hst|].
    cbn [fold_left]. apply IH, paneStep_inRange, Hst. }
  apply Hgen. unfold inRange, initialPaneState. cbn [rightScrollOffset env].
  pose proof (maxRightOffset_nonneg env0). lia.
Qed.

Lemma session_eqb_refl (s : option jsstring) : session_eqb s s = true.
Proof. destruct s; [apply str_eqb_refl | reflexivity]. Qed.

Lemma session_eqb_neq (a b : option jsstring) : a <> b -> session_eqb a b = false.
Proof.
  intros Hab. destruct a as [p|], b as [q|]; try reflexivity; [|congruence].
  cbn [session_eqb]. apply str_eqb_neq. congruence.
Qed.

Lemma viewMode_eqb_toggle (mode : ViewMode) : viewMode_eqb mode (toggleMode mode) = false.
Proof. destruct mode; reflexivity. Qed.

Lemma viewMode_eqb_refl (mode : ViewMode) : viewMode_eqb mode mode = true.
Proof. destruct mode; reflexivity. Qed.

(** C5, as amended.  After every transition the offset of the
    conversation pane is between 0 and [max(0, totalRows -
    visibleCount)].  A resize of the terminal that keeps the content
    width of the pane clamps the offset to the new maximum and does not
    reset it; a resize that changes the content width, the toggle of the
    render mode, the switch to another session and the arrival of the
    extracted conversation reset the offset to 0. *)
Theorem scroll_offset_contract (env0 : PaneEnv) (events : list PaneEvent) :
  let st := paneRun env0 events in
  0 <= rightScrollOffset st <= Z.max 0 (rightTotalCount (env st) - rightVisibleCount (env st))
  /\ (forall rows columns,
        rightContentWidth (env (paneStep st (Resize rows columns)))
        = rightContentWidth (env st) ->
        rightScrollOffset (paneStep st (Resize rows columns))
        = Z.min (rightScrollOffset st)
                (maxRightOffset (env (paneStep st (Resize rows columns)))))
  /\ (forall rows columns,
        rightContentWidth (env (paneStep st (Resize rows columns)))
        <> rightContentWidth (env st) ->
        rightScrollOffset (paneStep st (Resize rows columns)) = 0)
  /\ rightScrollOffset (paneStep st ToggleMode) = 0
  /\ (forall session,
        session <> selectedSession (env st) ->
        rightScrollOffset (paneStep st (SelectSession session)) = 0)
  /\ (forall rowsOf, rightScrollOffset (paneStep st (ConversationLoaded rowsOf)) = 0).
Proof.
  intros st. pose proof (paneRun_inRange env0 events) as Hst. fold st in Hst.
  unfold inRange in Hst.
  split; [exact Hst|]. split; [|split; [|split; [|split]]].
  - intros rows columns Hwidth. cbn [paneStep env rightScrollOffset] in *.
    unfold runEffects, resetDepsChanged, rightHeaderHeight.
    cbn [selectedSession viewMode].
    rewrite session_eqb_refl, viewMode_eqb_refl, Hwidth, !Z.eqb_refl. cbn [negb orb].
    match goal with
    | |- context [maxRightOffset (env st) =? ?m] =>
        destruct (maxRightOffset (env st) =? m) eqn:E; cbn [negb]; [|reflexivity]
    end.
    apply Z.eqb_eq in E. lia.
  - intros rows columns Hwidth. cbn [paneStep env rightScrollOffset] in *.
    unfold runEffects, resetDepsChanged.
    match goal with
    | |- context [rightContentWidth (env st) =? ?w] =>
        assert (E : (rightContentWidth (env st) =? w) = false)
          by (apply Z.eqb_neq; congruence)
    end.
    rewrite E. cbn [negb]. now rewrite orb_true_r.
  - cbn [paneStep env rightScrollOffset]. unfold runEffects, resetDepsChanged.
    cbn [selectedSession viewMode]. rewrite viewMode_eqb_toggle. cbn [negb].
    now rewrite orb_true_r.
  - intros session Hsession. cbn [paneStep].
    rewrite (session_eqb_neq _ _ Hsession). cbn [env rightScrollOffset].
    unfold runEffects, resetDepsChanged. cbn [selectedSession].
    rewrite (session_eqb_neq (selectedSession (env st)) session) by congruence.
    reflexivity.
  - intros rowsOf. cbn [paneStep env rightScrollOffset]. unfold runEffects.
    destruct (resetDepsChanged _ _); [reflexivity|].
    match goal with
    | |- context [Z.min 0 ?m] => pose proof (maxRightOffset_nonneg
        (mkPaneEnv (stdoutRows (env st)) (stdoutColumns (env st))
                   (selectedSession (env st)) (viewMode (env st)) rowsOf))
    end.
    destruct (negb _); lia.
Qed.

(** One line above the end of a conversation of 100 rows, at offset 87:
    a terminal of 60 rows leaves the content width as it is and the
    offset is clamped to the new maximum 52; a terminal of 80 columns,
    the other mode and another session reset it. *)
Lemma scroll_offset_contract_witness :
  let st := paneRun wideEnv [Press KeyShiftG; Press KeyUp] in
  rightScrollOffset st = 87
  /\ rightScrollOffset (paneStep st (Resize 60 120)) = 52
  /\ rightScrollOffset (paneStep st (Resize 24 80)) = 0
  /\ rightScrollOffset (paneStep st (SelectSession (Some (lit "/s/b.jsonl")))) = 0.
Proof.
  cbv zeta.
  pose proof (scroll_offset_contract wideEnv [Press KeyShiftG; Press KeyUp])
    as (_ & Hclamp & Hreset & _ & Hsession & _).
  split; [reflexivity|].
  split; [exact (Hclamp 60 120 eq_refl)|].
  split; [apply (Hreset 24 80); vm_compute; discriminate|].
  apply Hsession. discriminate.
Defined.

(** The spec's clamp example: 10 rows and 4 visible give the maximum 6;
    a page down from 3 or from 6 stops at 6, a page up from 0 stays at
    0. *)
Lemma scroll_clamp_example :
  let e := mkPaneEnv 16 120 (Some (lit "/s/a.jsonl")) Pretty (fun _ _ => 10) in
  rightVisibleCount e = 4 /\ maxRightOffset e = 6
  /\ rightKey e KeyF 3 = 6 /\ rightKey e KeyF 6 = 6 /\ rightKey e KeyB 0 = 0.
Proof. cbv zeta. repeat split. Qed.

(** C5 as stated fails: with the same session and the same mode, a
    terminal that shrinks from 120 to 80 columns re-wraps 100 rows into
    150; the offset 3 is within the new maximum, and the pane resets it
    to 0 where a clamp would keep 3. *)
Lemma scroll_reset_on_width_counterexample :
  let st := paneRun wideEnv [Press KeyDown; Press KeyDown; Press KeyDown] in
  let st' := paneStep st (Resize 24 80) in
  rightScrollOffset st = 3
  /\ selectedSession (env st') = selectedSession (env st)
  /\ viewMode (env st') = viewMode (env st)
  /\ rightTotalCount (env st) = 100
  /\ rightTotalCount (env st') = 150
  /\ Z.min (rightScrollOffset st) (maxRightOffset (env st')) = 3
  /\ rightScrollOffset st' = 0.
Proof.
  cbv zeta. repeat split.
Qed.

(* ================================================================== *)
(** * Exporter *)
(* ================================================================== *)

(** C10.  The default export path is defined for a session that is not
    [null]: with an id, a string that is not empty, it is the working
    directory joined with [<id>.md]; without one the path of the session is read, and the base
    name without the [.jsonl] extension is used, or [session] when there
    is no path.  For [null] and [undefined] the id is [undefined] and
    reading the path throws. *)
Theorem defaultExportPath_cases `{Host} (session : jsval) :
  (forall sessionId, getProp session "id" = VStr sessionId -> sessionId <> [] ->
   defaultExportPath session
   = Return (path_join process_cwd (sessionId ++ lit ".md")))
  /\ (truthy (getProp session "id") = false ->
      session <> VNull -> session <> VUndefined ->
      forall p, getProp session "path" = VStr p -> p <> [] ->
      defaultExportPath session
      = Return (path_join process_cwd (path_basename_ext p (lit ".jsonl") ++ lit ".md")))
  /\ (truthy (getProp session "id") = false ->
      session <> VNull -> session <> VUndefined ->
      truthy (getProp session "path") = false ->
      defaultExportPath session
      = Return (path_join process_cwd
                  (path_basename_ext (lit "session") (lit ".jsonl") ++ lit ".md")))
  /\ (session = VNull \/ session = VUndefined ->
      getProp session "id" = VUndefined
      /\ getPropStrict session "path" = Throw TypeError
      /\ defaultExportPath session = Throw TypeError).
Proof.
  assert (Hstrict : session <> VNull -> session <> VUndefined ->
                    getPropStrict session "path" = Return (getProp session "path")).
  { intros Hnull Hundef. destruct session; try reflexivity; congruence. }
  unfold defaultExportPath. split; [|split; [|split]].
  - intros sessionId Hid Hne. rewrite Hid. cbn [truthy].
    apply str_eqb_neq in Hne. rewrite Hne. reflexivity.
  - intros Hid Hnull Hundef p Hpath Hp. rewrite Hid, (Hstrict Hnull Hundef), Hpath.
    cbn [bindO]. unfold jsOr. cbn [truthy].
    apply str_eqb_neq in Hp. rewrite Hp. reflexivity.
  - intros Hid Hnull Hundef Hpath. rewrite Hid, (Hstrict Hnull Hundef).
    cbn [bindO]. unfold jsOr. rewrite Hpath. reflexivity.
  - intros [-> | ->]; repeat split.
Qed.

(** A session of the list with an id, one without, an object with
    neither id nor path, and no session. *)
Lemma defaultExportPath_cases_witness :
  defaultExportPath
    (sessionValue (Some (mkSession (VStr (lit "0199-abc")) (lit "2024-01-02 03:04:05")
                                   (lit "/s/2024/rollout-1.jsonl") 5 VNull)))
  = Return (lit "/work/0199-abc.md")
  /\ defaultExportPath
       (sessionValue (Some (mkSession VNull (lit "2024/rollout-1.jsonl")
                                      (lit "/s/2024/rollout-1.jsonl") 5 VNull)))
     = Return (lit "/work/rollout-1.md")
  /\ defaultExportPath (VObj []) = Return (lit "/work/session.md")
  /\ defaultExportPath (sessionValue None) = Throw TypeError.
Proof.
  split; [|split; [|split]].
  - refine (proj1 (defaultExportPath_cases
      (sessionValue (Some (mkSession (VStr (lit "0199-abc")) (lit "2024-01-02 03:04:05")
                                     (lit "/s/2024/rollout-1.jsonl") 5 VNull))))
      (lit "0199-abc") eq_refl _); discriminate.
  - refine (proj1 (proj2 (defaultExportPath_cases
      (sessionValue (Some (mkSession VNull (lit "2024/rollout-1.jsonl")
                                     (lit "/s/2024/rollout-1.jsonl") 5 VNull)))))
      eq_refl _ _ (lit "/s/2024/rollout-1.jsonl") eq_refl _); discriminate.
  - refine (proj1 (proj2 (proj2 (defaultExportPath_cases (VObj []))))
      eq_refl _ _ eq_refl); discriminate.
  - exact (proj2 (proj2 (proj2 (proj2 (proj2 (defaultExportPath_cases (sessionValue None))))
      (or_introl eq_refl)))).
Defined.

(* ================================================================== *)
(** * Re-wrapping: where the second pass is a no-op *)
(* ================================================================== *)

Lemma isChar_cases (c : jsstring) :
  isChar c ->
  (exists u, c = [u])
  \/ (exists h lo, c = [h; lo] /\ isHighSurrogate h = true /\ isLowSurrogate lo = true).
Proof.
  unfold isChar. destruct c as [|x [|y rest]].
  - discriminate.
  - intros _. left. now exists x.
  - rewrite chars_cons2.
    destruct (isHighSurrogate x && isLowSurrogate y) eqn:E.
    + intros Hc. right. exists x, y.
      apply andb_true_iff in E. destruct E as [Eh El].
      inversion Hc; subst. repeat split; assumption.
    + intros Hc. inversion Hc.
Qed.

(** Appending a code point to a string adds an item to what the iterator
    yields, or completes a surrogate pair with the last item. *)
Lemma chars_app_char (l c : jsstring) :
  isChar c ->
  chars (l ++ c) = chars l ++ [c]
  \/ (exists pre h lo,
        chars l = pre ++ [[h]] /\ c = [lo]
        /\ isHighSurrogate h = true /\ isLowSurrogate lo = true
        /\ chars (l ++ c) = pre ++ [[h; lo]]).
Proof.
  intros Hc.
  induction l as [| u | u l0 rest E IH | u l0 rest E IH] using chars_ind.
  - left. exact Hc.
  - destruct c as [|x c']; [discriminate Hc|].
    change ([u] ++ x :: c') with (u :: x :: c'). rewrite chars_cons2.
    destruct (isHighSurrogate u && isLowSurrogate x) eqn:E.
    + apply andb_true_iff in E. destruct E as [Eh El].
      destruct (isChar_cases _ Hc) as [[v Hv] | (h & lo & Hpair & Hh & _)].
      * injection Hv as -> ->. right. exists [], u, v. repeat split; assumption.
      * injection Hpair as -> _. rewrite (low_not_high _ El) in Hh. discriminate.
    + left. unfold isChar in Hc. rewrite Hc. reflexivity.
  - change ((u :: l0 :: rest) ++ c) with (u :: l0 :: (rest ++ c)).
    rewrite !chars_cons2, E.
    destruct IH as [IH | (pre & h & lo & Hl & Hlo & Hh & Hlow & Happ)].
    + left. rewrite IH. reflexivity.
    + right. exists ([u; l0] :: pre), h, lo. rewrite Hl, Happ. repeat split; assumption.
  - change ((u :: l0 :: rest) ++ c) with (u :: l0 :: (rest ++ c)).
    rewrite !chars_cons2, E. change (l0 :: (rest ++ c)) with ((l0 :: rest) ++ c).
    destruct IH as [IH | (pre & h & lo & Hl & Hlo & Hh & Hlow & Happ)].
    + left. rewrite IH. reflexivity.
    + right. exists ([u] :: pre), h, lo. rewrite Hl, Happ. repeat split; assumption.
Qed.

Lemma high_not_control (h : N) (rest : jsstring) :
  isHighSurrogate h = true ->
  str_eqb (h :: rest) CR = false /\ str_eqb (h :: rest) TAB = false.
Proof.
  unfold isHighSurrogate. intros H. apply andb_true_iff in H. destruct H as [H _].
  apply N.leb_le in H.
  split; apply str_eqb_neq; unfold CR, TAB; intros Heq; injection Heq as Heq _; lia.
Qed.

Section Stable.
Variable maxWidth : Z.
Hypothesis budget : 1 <= maxWidth.

Lemma wrapRun_snoc (l c : jsstring) :
  chars (l ++ c) = chars l ++ [c] ->
  wrapRun maxWidth (l ++ c) = wrapStep maxWidth (wrapRun maxWidth l) c.
Proof.
  intros Happ. unfold wrapRun. rewrite Happ, fold_left_app. reflexivity.
Qed.

Lemma filling_empty (width : Z) : 0 <= width -> filling maxWidth [] width.
Proof. intros Hw. unfold filling, wrapRun. cbn. repeat split. exact Hw. Qed.

Lemma filling_nonneg (l : jsstring) (width : Z) :
  filling maxWidth l width -> wrapInvariant maxWidth (wrapRun maxWidth l).
Proof.
  intros _. apply wrapInvariant_loop;
    [exact budget | apply chars_yields_chars | apply wrapInvariant_init; exact budget].
Qed.

(** Without a push, [placeChar] appends to the line. *)
Lemma placeChar_no_push (st : WrapState) (c : jsstring) :
  lines (placeChar maxWidth st c) = [] ->
  lines st = []
  /\ ((lineWidth st + charWidth c >? maxWidth) && negb (str_eqb (line st) [])) = false
  /\ (lineWidth st + charWidth c >=? maxWidth) = false
  /\ placeChar maxWidth st c = mkWrap [] (line st ++ c) (lineWidth st + charWidth c).
Proof.
  unfold placeChar.
  destruct ((lineWidth st + charWidth c >? maxWidth) && negb (str_eqb (line st) [])).
  - cbn [pushLine lines line lineWidth].
    destruct (0 + charWidth c >=? maxWidth); cbn [pushLine lines line lineWidth];
      intros Hl; destruct (lines st); discriminate Hl.
  - cbn [lines line lineWidth].
    destruct (lineWidth st + charWidth c >=? maxWidth); cbn [pushLine lines line lineWidth].
    + intros Hl; destruct (lines st); discriminate Hl.
    + intros Hl. rewrite Hl. repeat split.
Qed.

(** The loop run on the line of the first pass with one more code
    point: nothing pushed before that code point, and no more width than
    the first pass counted. *)
Lemma wrapRun_extend (l c : jsstring) (width : Z) :
  isChar c -> str_eqb c CR = false -> str_eqb c TAB = false ->
  filling maxWidth l width ->
  width + charWidth c <= maxWidth \/ l = [] ->
  exists width',
    width' <= width + charWidth c
    /\ (wrapRun maxWidth (l ++ c) = mkWrap [] (l ++ c) width' /\ width' < maxWidth
        \/ wrapRun maxWidth (l ++ c) = mkWrap [l ++ c] [] 0 /\ maxWidth <= width').
Proof.
  intros Hc Hcr Htab (Hlines & Hline & Hwidth) Hroom.
  pose proof (charWidth_range c) as Hcw.
  destruct (filling_nonneg l width (conj Hlines (conj Hline Hwidth))) as (_ & _ & Hrun).
  destruct (chars_app_char l c Hc) as [Happ | (pre & h & lo & Hl & Hlo & Hh & Hlow & Happ)].
  - rewrite (wrapRun_snoc l c Happ). unfold wrapStep. rewrite Hcr, Htab.
    destruct (wrapRun maxWidth l) as [ls ln lw] eqn:Erun.
    cbn [lines line lineWidth] in Hlines, Hline, Hwidth, Hrun. subst ls ln.
    unfold placeChar. cbn [lines line lineWidth].
    assert (Epre : ((lw + charWidth c >? maxWidth) && negb (str_eqb l [])) = false).
    { destruct Hroom as [Hroom | ->]; [|now rewrite str_eqb_refl, andb_false_r].
      apply andb_false_iff. left. rewrite Z.gtb_ltb. apply Z.ltb_ge. lia. }
    rewrite Epre. cbn [lines line lineWidth].
    exists (lw + charWidth c). split; [lia|].
    destruct (lw + charWidth c >=? maxWidth) eqn:Efull; rewrite Z.geb_leb in Efull.
    + right. apply Z.leb_le in Efull. split; [reflexivity | exact Efull].
    + left. apply Z.leb_gt in Efull. split; [reflexivity | exact Efull].
  - subst c.
    assert (Hrun_l : wrapRun maxWidth l
                     = placeChar maxWidth (fold_left (wrapStep maxWidth) pre (mkWrap [] [] 0)) [h]).
    { unfold wrapRun. rewrite Hl, fold_left_app. cbn [fold_left]. unfold wrapStep.
      destruct (high_not_control h [] Hh) as [-> ->]. reflexivity. }
    assert (Hrun_lc : wrapRun maxWidth (l ++ [lo])
                      = placeChar maxWidth (fold_left (wrapStep maxWidth) pre (mkWrap [] [] 0))
                                  [h; lo]).
    { unfold wrapRun. rewrite Happ, fold_left_app. cbn [fold_left]. unfold wrapStep.
      destruct (high_not_control h [lo] Hh) as [-> ->]. reflexivity. }
    set (sp := fold_left (wrapStep maxWidth) pre (mkWrap [] [] 0)) in *.
    rewrite Hrun_l in Hlines, Hline, Hwidth, Hrun.
    destruct (placeChar_no_push sp [h] Hlines) as (Hsp & Epre & Efull & Hplace).
    rewrite Hplace in Hline, Hwidth. cbn [line lineWidth] in Hline, Hwidth.
    rewrite (charWidth_high h [] Hh) in *.
    exists (lineWidth sp + 2). split; [lia|]. left.
    rewrite Z.geb_leb in Efull. apply Z.leb_gt in Efull.
    split; [|exact Efull].
    rewrite Hrun_lc. unfold placeChar. rewrite (charWidth_high h [lo] Hh), Epre.
    cbn [lines line lineWidth].
    assert (Efull' : (lineWidth sp + 2 >=? maxWidth) = false)
      by (rewrite Z.geb_leb; apply Z.leb_gt; exact Efull).
    rewrite Efull', Hsp, <- Hline, <- app_assoc. reflexivity.
Qed.

Lemma filling_settled (l : jsstring) (width : Z) :
  l <> [] -> filling maxWidth l width -> settled maxWidth l.
Proof.
  intros Hl (Hlines & Hline & _). split; [exact Hl|]. right. split; assumption.
Qed.

Lemma stableInvariant_placeChar (st : WrapState) (c : jsstring) :
  isChar c -> str_eqb c CR = false -> str_eqb c TAB = false ->
  0 <= lineWidth st ->
  stableInvariant maxWidth st ->
  stableInvariant maxWidth (placeChar maxWidth st c) /\ 0 <= lineWidth (placeChar maxWidth st c).
Proof.
  intros Hc Hcr Htab Hpos (Hsettled & Hfill & Hlt).
  pose proof (charWidth_range c) as Hcw.
  assert (Hc_ne : c <> []) by (intros ->; discriminate Hc).
  assert (Hstep : forall ls l width,
    Forall (settled maxWidth) ls -> filling maxWidth l width -> 0 <= width ->
    width + charWidth c <= maxWidth \/ l = [] ->
    let st2 := mkWrap ls (l ++ c) (width + charWidth c) in
    stableInvariant maxWidth (if lineWidth st2 >=? maxWidth then pushLine st2 else st2)
    /\ 0 <= lineWidth (if lineWidth st2 >=? maxWidth then pushLine st2 else st2)).
  { intros ls l width Hls Hl Hwidth Hroom st2.
    destruct (wrapRun_extend l c width Hc Hcr Htab Hl Hroom)
      as (width' & Hle & [[Hrun Hw'] | [Hrun Hw']]);
      unfold st2; cbn [lineWidth];
      destruct (width + charWidth c >=? maxWidth) eqn:Efull; rewrite Z.geb_leb in Efull.
    - (* the first pass pushes, the loop on the line alone keeps filling *)
      unfold stableInvariant. cbn [pushLine lines line lineWidth].
      split; [|lia]. split; [|split; [apply filling_empty; lia | lia]].
      apply Forall_app. split; [exact Hls|]. constructor; [|constructor].
      split; [intros Habs; apply app_eq_nil in Habs; tauto|].
      right. rewrite Hrun. split; reflexivity.
    - apply Z.leb_gt in Efull. unfold stableInvariant. cbn [lines line lineWidth].
      split; [|lia]. split; [exact Hls|]. split; [|lia].
      unfold filling. rewrite Hrun. cbn [lines line lineWidth]. repeat split. lia.
    - unfold stableInvariant. cbn [pushLine lines line lineWidth].
      split; [|lia]. split; [|split; [apply filling_empty; lia | lia]].
      apply Forall_app. split; [exact Hls|]. constructor; [|constructor].
      split; [intros Habs; apply app_eq_nil in Habs; tauto|].
      left. rewrite Hrun. split; reflexivity.
    - apply Z.leb_gt in Efull. lia. }
  unfold placeChar.
  destruct ((lineWidth st + charWidth c >? maxWidth) && negb (str_eqb (line st) [])) eqn:Epre.
  - apply andb_true_iff in Epre. destruct Epre as [_ Hne].
    apply negb_true_iff, str_eqb_neq in Hne.
    cbn [pushLine lines line lineWidth].
    apply (Hstep (lines st ++ [line st]) [] 0).
    + apply Forall_app. split; [exact Hsettled|]. constructor; [|constructor].
      exact (filling_settled _ _ Hne Hfill).
    + apply filling_empty. lia.
    + lia.
    + right. reflexivity.
  - apply (Hstep (lines st) (line st) (lineWidth st) Hsettled Hfill Hpos).
    apply andb_false_iff in Epre. destruct Epre as [Efit | Eempty].
    + left. rewrite Z.gtb_ltb in Efit. apply Z.ltb_ge in Efit. exact Efit.
    + right. apply negb_false_iff, str_eqb_eq in Eempty. exact Eempty.
Qed.

Lemma stableInvariant_loop (cs : list jsstring) (st : WrapState) :
  Forall isChar cs -> 0 <= lineWidth st -> stableInvariant maxWidth st ->
  stableInvariant maxWidth (fold_left (wrapStep maxWidth) cs st).
Proof.
  revert st. induction cs as [|c cs IH]; intros st Hcs Hpos Hst; [exact Hst|].
  inversion Hcs as [|? ? Hc Hrest]; subst. cbn [fold_left].
  unfold wrapStep at 2.
  destruct (str_eqb c CR) eqn:Ecr; [apply IH; assumption|].
  destruct (str_eqb c TAB) eqn:Etab.
  - change (chars (lit "  ")) with [[32%N]; [32%N]]. cbn [fold_left].
    destruct (stableInvariant_placeChar st [32%N]) as [H1 P1]; try reflexivity; try assumption.
    destruct (stableInvariant_placeChar (placeChar maxWidth st [32%N]) [32%N]) as [H2 P2];
      try reflexivity; try assumption.
    apply IH; assumption.
  - destruct (stableInvariant_placeChar st c Hc Ecr Etab Hpos Hst) as [H1 P1].
    apply IH; assumption.
Qed.

Lemma settled_wrapText (p : jsstring) : settled maxWidth p -> wrapText (Some p) maxWidth = [p].
Proof.
  intros [Hp Hrun]. unfold wrapText.
  destruct (maxWidth <=? 0) eqn:E; [apply Z.leb_le in E; lia|].
  destruct p as [|u p']; [congruence|].
  cbn [orEmpty]. fold (wrapRun maxWidth (u :: p')).
  destruct Hrun as [[-> ->] | [-> ->]]; reflexivity.
Qed.

Lemma space_settled : settled maxWidth (lit " ").
Proof.
  split; [discriminate|].
  unfold wrapRun. change (chars (lit " ")) with [lit " "]. cbn [fold_left].
  unfold wrapStep. change (str_eqb (lit " ") CR) with false.
  change (str_eqb (lit " ") TAB) with false.
  unfold placeChar. cbn [lines line lineWidth].
  change (negb (str_eqb [] [])) with false. rewrite andb_false_r.
  cbn [lines line lineWidth app].
  destruct (0 + charWidth (lit " ") >=? maxWidth); [left | right]; split; reflexivity.
Qed.

(** Every line of the first pass that is not empty comes back as it is
    from a second pass at the same width. *)
Lemma wrapText_lines_stable (text : option jsstring) (p : jsstring) :
  In p (wrapText text maxWidth) -> p <> [] -> wrapText (Some p) maxWidth = [p].
Proof.
  unfold wrapText at 1.
  destruct (maxWidth <=? 0) eqn:E; [apply Z.leb_le in E; lia|].
  assert (Hloop : forall s,
    In p (let st := fold_left (wrapStep maxWidth) (chars s) (mkWrap [] [] 0) in
          if negb (str_eqb (line st) []) || (length (lines st) =? 0)%nat
          then lines st ++ [line st] else lines st) ->
    p <> [] -> wrapText (Some p) maxWidth = [p]).
  { intros s Hin Hp. cbv zeta in Hin.
    destruct (stableInvariant_loop (chars s) (mkWrap [] [] 0)) as (Hsettled & Hfill & _).
    - apply chars_yields_chars.
    - cbn. lia.
    - unfold stableInvariant. cbn [lines line lineWidth].
      split; [constructor | split; [apply filling_empty; lia | lia]].
    - rewrite Forall_forall in Hsettled.
      destruct (negb (str_eqb _ []) || _).
      + apply in_app_or in Hin. destruct Hin as [Hin | [<- | []]].
        * apply settled_wrapText, Hsettled, Hin.
        * apply settled_wrapText. exact (filling_settled _ _ Hp Hfill).
      + apply settled_wrapText, Hsettled, Hin. }
  destruct text as [[|u s]|].
  - intros [<- | []] _. apply settled_wrapText, space_settled.
  - apply (Hloop (u :: s)).
  - apply (Hloop []).
Qed.
End Stable.

(** ** Lines that come out empty *)

Lemma concat_chars (s : jsstring) : concat (chars s) = s.
Proof.
  induction s as [| u | u l rest E IH | u l rest E IH] using chars_ind.
  - reflexivity.
  - reflexivity.
  - rewrite chars_cons2, E. cbn [concat app]. now rewrite IH.
  - rewrite chars_cons2, E. cbn [concat app]. now rewrite IH.
Qed.

Lemma chars_carriage_returns (s : jsstring) :
  Forall (fun u => u = 13%N) s -> chars s = map (fun _ => CR) s.
Proof.
  induction 1 as [|u s Hu Hs IH]; [reflexivity|]. subst u.
  rewrite chars_cons_not_high by reflexivity. now rewrite IH.
Qed.

Lemma placeChar_not_empty (maxWidth : Z) (st : WrapState) (c : jsstring) :
  c <> [] ->
  lines (placeChar maxWidth st c) <> [] \/ line (placeChar maxWidth st c) <> [].
Proof.
  intros Hc. unfold placeChar.
  match goal with
  | |- context [if ?b then pushLine ?x else ?y] =>
      destruct b; cbn [pushLine lines line lineWidth]
  end.
  - intros. left. intros Habs. apply app_eq_nil in Habs. destruct Habs; discriminate.
  - right. intros Habs. apply app_eq_nil in Habs. tauto.
Qed.

Lemma placeChar_keeps_lines (maxWidth : Z) (st : WrapState) (c : jsstring) :
  lines st <> [] -> lines (placeChar maxWidth st c) <> [].
Proof.
  intros Hl. unfold placeChar.
  destruct ((lineWidth st + charWidth c >? maxWidth) && negb (str_eqb (line st) []));
    cbn [pushLine lines line lineWidth];
    match goal with
    | |- context [if ?b then _ else _] => destruct b; cbn [pushLine lines line lineWidth]
    end;
    try exact Hl;
    intros Habs; repeat (apply app_eq_nil in Habs; destruct Habs as [Habs _]);
    try discriminate; tauto.
Qed.

Lemma wrapStep_empty_state (maxWidth : Z) (st : WrapState) (c : jsstring) :
  isChar c ->
  lines (wrapStep maxWidth st c) = [] -> line (wrapStep maxWidth st c) = [] ->
  c = CR /\ lines st = [] /\ line st = [].
Proof.
  intros Hc. unfold wrapStep.
  destruct (str_eqb c CR) eqn:Ecr.
  - apply str_eqb_eq in Ecr. tauto.
  - destruct (str_eqb c TAB).
    + change (chars (lit "  ")) with [[32%N]; [32%N]]. cbn [fold_left].
      intros Hl Hn.
      destruct (placeChar_not_empty maxWidth (placeChar maxWidth st [32%N]) [32%N]);
        [discriminate | tauto | tauto].
    + intros Hl Hn.
      destruct (placeChar_not_empty maxWidth st c); [|tauto|tauto].
      intros ->. discriminate Hc.
Qed.

Lemma wrapLoop_empty_state (maxWidth : Z) (cs : list jsstring) (st : WrapState) :
  Forall isChar cs ->
  lines (fold_left (wrapStep maxWidth) cs st) = [] ->
  line (fold_left (wrapStep maxWidth) cs st) = [] ->
  Forall (fun c => c = CR) cs.
Proof.
  revert st. induction cs as [|c cs IH]; intros st Hcs Hl Hn; [constructor|].
  inversion Hcs as [|? ? Hc Hrest]; subst. cbn [fold_left] in Hl, Hn.
  pose proof (IH _ Hrest Hl Hn) as Hall.
  constructor; [|exact Hall].
  assert (Hstay : fold_left (wrapStep maxWidth) cs (wrapStep maxWidth st c)
                  = wrapStep maxWidth st c).
  { clear -Hall. generalize (wrapStep maxWidth st c) as s.
    induction Hall as [|d ds Hd Hds IHd]; intros s; [reflexivity|].
    subst d. cbn [fold_left]. unfold wrapStep at 2.
    change (str_eqb CR CR) with true. cbn iota. apply IHd. }
  rewrite Hstay in Hl, Hn.
  exact (proj1 (wrapStep_empty_state maxWidth st c Hc Hl Hn)).
Qed.

Section EmptyLines.
Variable maxWidth : Z.
Hypothesis budget : 1 <= maxWidth.

(** The first pass yields an empty line exactly for a text that is not
    empty and has carriage returns only. *)
Lemma wrapText_empty_line_iff (s : jsstring) :
  In [] (wrapText (Some s) maxWidth) <-> onlyCarriageReturns s.
Proof.
  unfold wrapText.
  destruct (maxWidth <=? 0) eqn:E; [apply Z.leb_le in E; lia|].
  destruct s as [|u s].
  - split.
    + intros [Habs | []]. discriminate Habs.
    + intros [Habs _]. congruence.
  - cbn [orEmpty]. fold (wrapRun maxWidth (u :: s)). split.
    + intros Hin.
      destruct (stableInvariant_loop maxWidth budget (chars (u :: s)) (mkWrap [] [] 0))
        as (Hsettled & _ & _).
      { apply chars_yields_chars. }
      { cbn. lia. }
      { unfold stableInvariant. cbn [lines line lineWidth].
        split; [constructor | split; [apply filling_empty; lia | lia]]. }
      fold (wrapRun maxWidth (u :: s)) in Hsettled.
      rewrite Forall_forall in Hsettled.
      assert (Hstate : lines (wrapRun maxWidth (u :: s)) = []
                       /\ line (wrapRun maxWidth (u :: s)) = []).
      { destruct (str_eqb (line (wrapRun maxWidth (u :: s))) []) eqn:El; cbn [negb orb] in Hin.
        - apply str_eqb_eq in El.
          destruct (lines (wrapRun maxWidth (u :: s))) as [|p ps] eqn:Els; [tauto|].
          cbn [length Nat.eqb] in Hin.
          destruct (Hsettled [] Hin) as [Habs _]. congruence.
        - apply str_eqb_neq in El. apply in_app_or in Hin.
          destruct Hin as [Hin | [Hin | []]].
          + destruct (Hsettled [] Hin) as [Habs _]. congruence.
          + congruence. }
      destruct Hstate as [Hl Hn].
      pose proof (wrapLoop_empty_state maxWidth (chars (u :: s)) (mkWrap [] [] 0)
                    (chars_yields_chars _) Hl Hn) as Hall.
      split; [discriminate|].
      rewrite <- (concat_chars (u :: s)).
      induction Hall as [|c cs Hc Hcs IH]; [constructor|].
      subst c. cbn [concat app CR]. constructor; [reflexivity | exact IH].
    + intros [_ Hall].
      assert (Hrun : wrapRun maxWidth (u :: s) = mkWrap [] [] 0).
      { unfold wrapRun. rewrite (chars_carriage_returns _ Hall).
        generalize (u :: s) as t. induction t as [|v t IH]; [reflexivity|].
        cbn [map fold_left]. unfold wrapStep at 2.
        change (str_eqb CR CR) with true. cbn iota. exact IH. }
      rewrite Hrun. cbn. left. reflexivity.
Qed.
End EmptyLines.

(** ** Rows *)

Lemma wrapRowLines_texts (row : Row) (index : nat) (ls : list jsstring) (r : Row) :
  In r (wrapRowLines row index ls) -> exists p, In p ls /\ rtext r = Some p.
Proof.
  revert index. induction ls as [|l ls IH]; intros index; [intros []|].
  cbn [wrapRowLines]. intros [<- | Hin].
  - exists l. split; [now left | reflexivity].
  - destruct (IH _ Hin) as (p & Hp & Hr). exists p. split; [now right | exact Hr].
Qed.

Lemma wrapRows_texts (rows : list Row) (w : Z) (r : Row) :
  In r (wrapRows rows w) ->
  exists row p,
    In row rows /\ In p (wrapText (Some (orEmpty (rtext row))) w) /\ rtext r = Some p.
Proof.
  unfold wrapRows. rewrite in_flat_map. intros (row & Hrow & Hin).
  pose proof (wrapText_length_pos (Some (orEmpty (rtext row))) w) as Hlen.
  destruct (length (wrapText (Some (orEmpty (rtext row))) w) =? 0)%nat eqn:E;
    [apply Nat.eqb_eq in E; lia|].
  destruct (wrapRowLines_texts _ _ _ _ Hin) as (p & Hp & Hr).
  exists row, p. repeat split; assumption.
Qed.

Lemma flat_map_fixed {A : Type} (f : A -> list A) (l : list A) :
  (forall x, In x l -> f x = [x]) -> flat_map f l = l.
Proof.
  induction l as [|a l IH]; intros Hf; [reflexivity|].
  cbn [flat_map]. rewrite (Hf a (or_introl eq_refl)), IH; [reflexivity|].
  intros x Hx. apply Hf. now right.
Qed.

(** The second pass is a no-op on the rows of a first pass in which no
    row came out with the empty text, that is when no row given to the
    first pass has a text of carriage returns only. *)
Lemma wrapRows_idempotent_without_bare_cr (rows : list Row) (w : Z) :
  1 <= w ->
  Forall (fun row => ~ onlyCarriageReturns (orEmpty (rtext row))) rows ->
  wrapRows (wrapRows rows w) w = wrapRows rows w.
Proof.
  intros Hw Hrows. unfold wrapRows at 1. apply flat_map_fixed.
  intros r Hr.
  destruct (wrapRows_texts rows w r Hr) as (row & p & Hrow & Hp & Htext).
  rewrite Forall_forall in Hrows.
  assert (Hne : p <> []).
  { intros ->. apply (Hrows row Hrow).
    apply (wrapText_empty_line_iff w Hw). exact Hp. }
  rewrite Htext. cbn [orEmpty].
  rewrite (wrapText_lines_stable w Hw _ p Hp Hne).
  cbn [length Nat.eqb wrapRowLines]. destruct r as [t ro tx].
  cbn [rtext] in Htext. subst tx. reflexivity.
Qed.

(** The empty conversation has two Markdown rows at every width. *)
Lemma noConversation_markdown_rows (w : Z) :
  Z.of_nat (length (wrapRows (buildMarkdownRows (buildMarkdown [])) w))
  = noConversation Markdown w.
Proof.
  change (buildMarkdownRows (buildMarkdown []))
    with [mkRow TText None (Some (lit " ")); mkRow TText None (Some (lit " "))].
  unfold wrapRows. cbn [flat_map rtext orEmpty].
  assert (Hone : wrapText (Some (lit " ")) w = [lit " "]).
  { destruct (Z_le_gt_dec w 0) as [Hw | Hw].
    - unfold wrapText. apply Z.leb_le in Hw. rewrite Hw. reflexivity.
    - apply settled_wrapText; [lia | apply space_settled; lia]. }
  rewrite Hone. reflexivity.
Qed.

(* ================================================================== *)
(** * More on the width primitives *)
(* ================================================================== *)

(** ** Wrapping keeps the text *)

Lemma wrapContent_pushLine (st : WrapState) : wrapContent (pushLine st) = wrapContent st.
Proof.
  unfold wrapContent, pushLine. cbn [lines line].
  now rewrite concat_app, app_nil_r; cbn [concat]; rewrite app_nil_r.
Qed.

Lemma wrapContent_placeChar (maxWidth : Z) (st : WrapState) (c : jsstring) :
  wrapContent (placeChar maxWidth st c) = wrapContent st ++ c.
Proof.
  unfold placeChar.
  set (st1 := if (lineWidth st + charWidth c >? maxWidth) && negb (str_eqb (line st) [])
              then pushLine st else st).
  assert (H1 : wrapContent st1 = wrapContent st).
  { unfold st1. destruct (_ && _); [apply wrapContent_pushLine | reflexivity]. }
  match goal with
  | |- wrapContent (if ?b then pushLine ?s else ?s) = _ =>
      assert (H2 : wrapContent s = wrapContent st1 ++ c)
        by (unfold wrapContent; cbn [lines line]; now rewrite app_assoc);
      destruct b; [rewrite wrapContent_pushLine|]; now rewrite H2, H1
  end.
Qed.

Lemma wrapContent_wrapStep (maxWidth : Z) (st : WrapState) (c : jsstring) :
  wrapContent (wrapStep maxWidth st c) = wrapContent st ++ expandChar c.
Proof.
  unfold wrapStep, expandChar.
  destruct (str_eqb c CR); [now rewrite app_nil_r|].
  destruct (str_eqb c TAB); [|apply wrapContent_placeChar].
  change (chars (lit "  ")) with [[32%N]; [32%N]]. cbn [fold_left].
  rewrite !wrapContent_placeChar, <- app_assoc. reflexivity.
Qed.

Lemma wrapContent_loop (maxWidth : Z) (cs : list jsstring) (st : WrapState) :
  wrapContent (fold_left (wrapStep maxWidth) cs st)
  = wrapContent st ++ concat (map expandChar cs).
Proof.
  revert st. induction cs as [|c cs IH]; intros st; cbn [fold_left map concat].
  - now rewrite app_nil_r.
  - rewrite IH, wrapContent_wrapStep, <- app_assoc. reflexivity.
Qed.

Lemma wrapText_concat (text : option jsstring) (w : Z) :
  1 <= w -> text <> Some [] ->
  concat (wrapText text w) = expandText (orEmpty text).
Proof.
  intros Hw Htext. unfold wrapText.
  destruct (w <=? 0) eqn:E; [apply Z.leb_le in E; lia|].
  assert (Hloop : forall s,
    concat (let st := fold_left (wrapStep w) (chars s) (mkWrap [] [] 0) in
            if negb (str_eqb (line st) []) || (length (lines st) =? 0)%nat
            then lines st ++ [line st] else lines st)
    = expandText s).
  { intros s. cbv zeta.
    pose proof (wrapContent_loop w (chars s) (mkWrap [] [] 0)) as Hc.
    unfold wrapContent in Hc. cbn [lines line concat app] in Hc.
    fold (expandText s) in Hc.
    destruct (str_eqb (line _) []) eqn:El; cbn [negb orb].
    - apply str_eqb_eq in El. rewrite El, app_nil_r in Hc.
      destruct (length _ =? 0)%nat; [|exact Hc].
      rewrite concat_app. cbn [concat]. rewrite El, !app_nil_r. exact Hc.
    - rewrite concat_app. cbn [concat]. rewrite app_nil_r. exact Hc. }
  destruct text as [[|u s]|]; [congruence | apply Hloop | apply (Hloop [])].
Qed.

(** Wrapping only breaks the text: the lines of [wrapText], put end to
    end, are the text without its carriage returns and with two spaces
    for each tab.  The empty string is the exception: its one line is the
    one-space placeholder. *)
Theorem wrapText_keeps_text (text : option jsstring) (w : Z) :
  1 <= w -> text <> Some [] ->
  concat (wrapText text w) = expandText (orEmpty text).
Proof. apply wrapText_concat. Qed.

Lemma wrapText_keeps_text_witness :
  concat (wrapText (Some (lit "ab" ++ TAB ++ lit "cd" ++ CR ++ lit "efg")) 3)
  = lit "ab  cdefg".
Proof.
  exact (wrapText_keeps_text (Some (lit "ab" ++ TAB ++ lit "cd" ++ CR ++ lit "efg")) 3
           ltac:(lia) ltac:(discriminate)).
Defined.

(** ** Joining strings without merging surrogates *)

Lemma last_cons2 (u l : N) (rest : jsstring) (d : N) :
  last (u :: l :: rest) d = last (l :: rest) d.
Proof. reflexivity. Qed.

(** The iterator cuts a joined string at the joint unless a high
    surrogate ends the first part and a low one starts the second. *)
Lemma chars_app_split (a b : jsstring) :
  isHighSurrogate (last a 0%N) && isLowSurrogate (hd 0%N b) = false ->
  chars (a ++ b) = chars a ++ chars b.
Proof.
  induction a as [| u | u l rest E IH | u l rest E IH] using chars_ind; intros Hjoint.
  - reflexivity.
  - destruct b as [|x b']; [reflexivity|].
    change ([u] ++ x :: b') with (u :: x :: b'). rewrite chars_cons2.
    cbn [last hd] in Hjoint. rewrite Hjoint. reflexivity.
  - change ((u :: l :: rest) ++ b) with (u :: l :: (rest ++ b)).
    rewrite !chars_cons2, E. cbn [app]. f_equal. apply IH.
    destruct rest as [|r rest']; [reflexivity|].
    rewrite !last_cons2 in Hjoint. exact Hjoint.
  - change ((u :: l :: rest) ++ b) with (u :: l :: (rest ++ b)).
    rewrite !chars_cons2, E. cbn [app]. f_equal.
    change (l :: (rest ++ b)) with ((l :: rest) ++ b). apply IH.
    rewrite last_cons2 in Hjoint. exact Hjoint.
Qed.

Lemma widthOf_app (cs ds : list jsstring) : widthOf (cs ++ ds) = widthOf cs + widthOf ds.
Proof.
  induction cs as [|c cs IH]; cbn [app]; [rewrite widthOf_nil; lia|].
  rewrite !widthOf_cons, IH. lia.
Qed.

Lemma stringWidth_app_split (a b : jsstring) :
  isHighSurrogate (last a 0%N) && isLowSurrogate (hd 0%N b) = false ->
  stringWidth (Some (a ++ b)) = stringWidth (Some a) + stringWidth (Some b).
Proof.
  intros Hjoint. rewrite !stringWidth_chars, (chars_app_split a b Hjoint).
  apply widthOf_app.
Qed.

(** ** Runs of spaces *)

Lemma repeat_str_spaces (n : Z) : repeat_str (lit " ") n = repeat 32%N (Z.to_nat n).
Proof.
  unfold repeat_str. induction (Z.to_nat n) as [|k IH]; [reflexivity|].
  cbn [repeat concat]. rewrite IH. reflexivity.
Qed.

Lemma spaces_printable (k : nat) : Forall isPrintable (repeat 32%N k).
Proof.
  induction k as [|k IH]; constructor; [unfold isPrintable; lia | exact IH].
Qed.

Lemma stringWidth_spaces (n : Z) :
  stringWidth (Some (repeat_str (lit " ") n)) = Z.max 0 n.
Proof.
  rewrite repeat_str_spaces, (stringWidth_printable _ (spaces_printable _)).
  unfold str_length. rewrite repeat_length. lia.
Qed.

Lemma spaces_hd (n : Z) : isLowSurrogate (hd 0%N (repeat_str (lit " ") n)) = false.
Proof.
  rewrite repeat_str_spaces. destruct (Z.to_nat n); reflexivity.
Qed.

Lemma spaces_last (n : Z) : isHighSurrogate (last (repeat_str (lit " ") n) 0%N) = false.
Proof.
  rewrite repeat_str_spaces. induction (Z.to_nat n) as [|k IH]; [reflexivity|].
  destruct k; [reflexivity|]. exact IH.
Qed.

Lemma stringWidth_pad (a : jsstring) (n : Z) :
  stringWidth (Some (a ++ repeat_str (lit " ") n)) = stringWidth (Some a) + Z.max 0 n.
Proof.
  rewrite stringWidth_app_split, stringWidth_spaces; [reflexivity|].
  rewrite spaces_hd. apply andb_false_r.
Qed.

Lemma stringWidth_indent (n : Z) (b : jsstring) :
  stringWidth (Some (repeat_str (lit " ") n ++ b)) = Z.max 0 n + stringWidth (Some b).
Proof.
  rewrite stringWidth_app_split, stringWidth_spaces; [reflexivity|].
  rewrite spaces_last. reflexivity.
Qed.

Lemma stringWidth_gap (a b : jsstring) (n : Z) :
  1 <= n ->
  stringWidth (Some (a ++ repeat_str (lit " ") n ++ b))
  = stringWidth (Some a) + n + stringWidth (Some b).
Proof.
  intros Hn. rewrite stringWidth_app_split.
  - rewrite stringWidth_indent. lia.
  - assert (Hhd : hd 0%N (repeat_str (lit " ") n ++ b) = 32%N).
    { rewrite repeat_str_spaces.
      destruct (Z.to_nat n) as [|k] eqn:E; [lia | reflexivity]. }
    rewrite Hhd. apply andb_false_r.
Qed.

Lemma padRightByWidth_stringWidth (text : jsstring) (targetWidth : Z) :
  stringWidth (Some (padRightByWidth text targetWidth))
  = Z.max (stringWidth (Some text)) targetWidth.
Proof.
  unfold padRightByWidth.
  destruct (stringWidth (Some text) >=? targetWidth) eqn:E; rewrite Z.geb_leb in E.
  - apply Z.leb_le in E. lia.
  - apply Z.leb_gt in E. rewrite stringWidth_pad. lia.
Qed.

(** Padding appends spaces only, and it reaches the target width
    exactly; a text that is already as wide or wider is left as it
    is. *)
Theorem padRightByWidth_width (text : jsstring) (targetWidth : Z) :
  stringWidth (Some (padRightByWidth text targetWidth))
  = Z.max (stringWidth (Some text)) targetWidth
  /\ exists n, padRightByWidth text targetWidth = text ++ repeat 32%N n.
Proof.
  split; [apply padRightByWidth_stringWidth|].
  unfold padRightByWidth. destruct (_ >=? _).
  - exists 0%nat. now rewrite app_nil_r.
  - rewrite repeat_str_spaces. eexists. reflexivity.
Qed.

(** ** Truncation by width *)

Lemma chars_head (l : N) (r c : jsstring) (cs : list jsstring) :
  chars (l :: r) = c :: cs -> exists c', c = l :: c'.
Proof.
  destruct r as [|x r']; [intros H; inversion H; now exists []|].
  rewrite chars_cons2. destruct (_ && _); intros H; inversion H; eauto.
Qed.

(** A run of items the iterator yields from a string is what it yields
    from their concatenation. *)
Lemma chars_prefix (s : jsstring) :
  forall taken rest, chars s = taken ++ rest -> chars (concat taken) = taken.
Proof.
  induction s as [| u | u l rest0 E IH | u l rest0 E IH] using chars_ind;
    intros taken rest Hs.
  - destruct taken; [reflexivity | discriminate Hs].
  - destruct taken as [|t taken]; [reflexivity|].
    cbn in Hs. inversion Hs as [[Ht Hrest]]. subst t.
    destruct taken; [reflexivity | discriminate Hrest].
  - rewrite chars_cons2, E in Hs.
    destruct taken as [|t taken]; [reflexivity|].
    cbn [app] in Hs. inversion Hs as [[Ht Hrest]]. subst t.
    cbn [concat app]. rewrite chars_cons2, E. f_equal. exact (IH _ _ Hrest).
  - rewrite chars_cons2, E in Hs.
    destruct taken as [|t taken]; [reflexivity|].
    cbn [app] in Hs. inversion Hs as [[Ht Hrest]]. subst t.
    cbn [concat app].
    destruct taken as [|t' taken'] eqn:Etaken; [reflexivity|].
    symmetry in Hrest. cbn [app] in Hrest.
    destruct (chars_head _ _ _ _ (eq_sym Hrest)) as [c' Hc']. subst t'.
    cbn [concat app]. rewrite chars_cons2, E. f_equal.
    apply (IH (( l :: c') :: taken') rest). symmetry. exact Hrest.
Qed.

Lemma truncateLoop_spec (maxWidth : Z) (cs : list jsstring) (result : jsstring) (width : Z) :
  exists taken rest,
    cs = taken ++ rest
    /\ truncateLoop maxWidth cs result width = result ++ concat taken
    /\ (width <= maxWidth -> width + widthOf taken <= maxWidth)
    /\ (rest = [] \/ exists c rest', rest = c :: rest'
                                     /\ maxWidth < width + widthOf taken + charWidth c).
Proof.
  revert result width. induction cs as [|c cs IH]; intros result width.
  - exists [], []. cbn [truncateLoop app concat]. rewrite app_nil_r, widthOf_nil.
    repeat split; [lia | now left].
  - cbn [truncateLoop].
    destruct (width + charWidth c >? maxWidth) eqn:E; rewrite Z.gtb_ltb in E.
    + apply Z.ltb_lt in E. exists [], (c :: cs).
      cbn [app concat]. rewrite app_nil_r, widthOf_nil.
      repeat split; [lia|]. right. exists c, cs. split; [reflexivity | lia].
    + apply Z.ltb_ge in E.
      destruct (IH (result ++ c) (width + charWidth c))
        as (taken & rest & Hcs & Hres & Hfit & Hstop).
      exists (c :: taken), rest. rewrite widthOf_cons. cbn [app concat].
      repeat split.
      * now rewrite Hcs.
      * now rewrite Hres, <- app_assoc.
      * intros _. specialize (Hfit E). lia.
      * destruct Hstop as [-> | (d & rest' & -> & Hd)]; [now left|].
        right. exists d, rest'. split; [reflexivity | lia].
Qed.

Lemma truncateByWidth_facts (text : option jsstring) (maxWidth : Z) :
  (exists rest, orEmpty text = truncateByWidth text maxWidth ++ rest)
  /\ (0 <= maxWidth -> stringWidth (Some (truncateByWidth text maxWidth)) <= maxWidth)
  /\ (1 <= maxWidth -> stringWidth text <= maxWidth ->
      truncateByWidth text maxWidth = orEmpty text).
Proof.
  unfold truncateByWidth.
  destruct text as [[|u s]|];
    try (split; [now exists [] | split; [intros; cbn; lia | reflexivity]]).
  set (t := u :: s).
  destruct (maxWidth <=? 0) eqn:E.
  - apply Z.leb_le in E.
    split; [now exists t | split; [intros; cbn; lia | intros; lia]].
  - apply Z.leb_gt in E.
    destruct (truncateLoop_spec maxWidth (chars t) [] 0)
      as (taken & rest & Hcs & Hres & Hfit & Hstop).
    cbn [app] in Hres. rewrite Hres.
    assert (Hwidth : stringWidth (Some (concat taken)) = widthOf taken).
    { rewrite stringWidth_chars, (chars_prefix t taken rest Hcs). reflexivity. }
    split; [|split].
    + exists (concat rest). cbn [orEmpty].
      rewrite <- concat_app, <- Hcs. symmetry. apply concat_chars.
    + intros _. rewrite Hwidth. lia.
    + intros _ Hall. cbn [orEmpty].
      destruct Hstop as [-> | (c & rest' & -> & Hc)].
      * rewrite app_nil_r in Hcs. rewrite <- Hcs. apply concat_chars.
      * exfalso. unfold stringWidth in Hall. cbn [orEmpty] in Hall.
        fold (widthOf (chars t)) in Hall.
        rewrite Hcs, widthOf_app, widthOf_cons in Hall.
        pose proof (widthOf_nonneg rest'). lia.
Qed.

(** [truncateByWidth] returns a prefix of the text, no wider than the
    budget; a text that fits a budget of at least 1 is returned
    whole. *)
Theorem truncateByWidth_prefix (text : option jsstring) (maxWidth : Z) :
  (exists rest, orEmpty text = truncateByWidth text maxWidth ++ rest)
  /\ (0 <= maxWidth -> stringWidth (Some (truncateByWidth text maxWidth)) <= maxWidth)
  /\ (1 <= maxWidth -> stringWidth text <= maxWidth ->
      truncateByWidth text maxWidth = orEmpty text).
Proof. apply truncateByWidth_facts. Qed.

Lemma truncateByWidth_prefix_witness :
  stringWidth (Some (truncateByWidth (Some [12354%N; 12354%N; 97%N]) 3)) <= 3
  /\ truncateByWidth (Some (lit "abc")) 3 = lit "abc".
Proof.
  split.
  - apply (proj1 (proj2 (truncateByWidth_prefix (Some [12354%N; 12354%N; 97%N]) 3))). lia.
  - apply (proj2 (proj2 (truncateByWidth_prefix (Some (lit "abc")) 3)));
      [lia | vm_compute; discriminate].
Defined.

(** ** The header line and the title border *)

(** On a terminal of at least one column the header line is never wider
    than the terminal, and it fills the width exactly when the left text
    is narrower than the terminal. *)
Theorem buildHeaderLine_width (leftText rightText : option jsstring) (totalWidth : Z) :
  1 <= totalWidth ->
  stringWidth (Some (buildHeaderLine leftText rightText totalWidth)) <= totalWidth
  /\ (stringWidth leftText < totalWidth ->
      stringWidth (Some (buildHeaderLine leftText rightText totalWidth)) = totalWidth).
Proof.
  intros Hw. unfold buildHeaderLine.
  assert (E0 : (totalWidth =? 0) || (totalWidth <=? 0) = false).
  { apply orb_false_iff. split; [apply Z.eqb_neq | apply Z.leb_gt]; lia. }
  rewrite E0.
  assert (Hleft : stringWidth (Some (orEmpty leftText)) = stringWidth leftText)
    by (destruct leftText; reflexivity).
  rewrite Hleft.
  destruct (stringWidth leftText >=? totalWidth) eqn:E1; rewrite Z.geb_leb in E1.
  - apply Z.leb_le in E1. split; [|lia].
    apply (proj1 (proj2 (truncateByWidth_facts (Some (orEmpty leftText)) totalWidth))). lia.
  - apply Z.leb_gt in E1.
    destruct (stringWidth leftText + 1 + stringWidth (Some (orEmpty rightText)) <=? totalWidth)
      eqn:E2.
    + apply Z.leb_le in E2. rewrite stringWidth_gap by lia. rewrite Hleft. lia.
    + apply Z.leb_gt in E2.
      set (maxRight := Z.max 0 (totalWidth - stringWidth leftText - 1)).
      pose proof (proj1 (proj2 (truncateByWidth_facts (Some (orEmpty rightText)) maxRight)))
        as Hright.
      specialize (Hright ltac:(lia)).
      rewrite stringWidth_gap by lia. rewrite Hleft. lia.
Qed.

Lemma buildHeaderLine_width_witness :
  stringWidth (Some (buildHeaderLine (Some (lit "Codex Transcriber"))
                                     (Some (lit "Directory: /home/me/.codex/sessions")) 40))
  = 40.
Proof.
  apply (proj2 (buildHeaderLine_width (Some (lit "Codex Transcriber"))
                  (Some (lit "Directory: /home/me/.codex/sessions")) 40 ltac:(lia))).
  reflexivity.
Defined.

(** The title border of a panel at least two columns wide is a corner,
    at most one dash, a prefix of the title, dashes and a corner; the
    dashes and the width of the title part add up to the inner width. *)
Theorem buildTitleBorderLine_fills (width : Z) (title : jsstring) :
  2 <= width ->
  exists leftDashCount rightDashCount safeTitle rest,
    buildTitleBorderLine width title
    = BOX_TOP_LEFT ++ repeat_str BOX_DASH leftDashCount ++ safeTitle
        ++ repeat_str BOX_DASH rightDashCount ++ BOX_TOP_RIGHT
    /\ title = safeTitle ++ rest
    /\ 0 <= leftDashCount <= 1 /\ 0 <= rightDashCount
    /\ leftDashCount + stringWidth (Some safeTitle) + rightDashCount = width - 2.
Proof.
  intros Hw. unfold buildTitleBorderLine.
  assert (E0 : (width =? 0) || (width <? 2) = false).
  { apply orb_false_iff. split; [apply Z.eqb_neq | apply Z.ltb_ge]; lia. }
  rewrite E0.
  destruct (str_eqb title []) eqn:Et.
  - apply str_eqb_eq in Et. subst title.
    exists 0, (width - 2), [], []. cbn [app repeat_str Z.to_nat repeat concat].
    change (stringWidth (Some [])) with 0. repeat split; lia.
  - destruct (truncateByWidth_facts (Some title) (width - 2)) as ([rest Hrest] & Hfit & _).
    specialize (Hfit ltac:(lia)). cbn [orEmpty] in Hrest.
    set (safeTitle := truncateByWidth (Some title) (width - 2)) in *.
    set (remaining := Z.max 0 (width - 2 - stringWidth (Some safeTitle))).
    exists (Z.min 1 remaining), (Z.max 0 (remaining - Z.min 1 remaining)), safeTitle, rest.
    pose proof (widthOf_nonneg (chars safeTitle)) as Hpos.
    rewrite <- stringWidth_chars in Hpos.
    repeat split; try assumption; unfold remaining; lia.
Qed.

Lemma buildTitleBorderLine_fills_witness :
  2 <= 25
  /\ exists leftDashCount rightDashCount safeTitle rest,
       buildTitleBorderLine 25 (lit " [1] Sessions ")
       = BOX_TOP_LEFT ++ repeat_str BOX_DASH leftDashCount ++ safeTitle
           ++ repeat_str BOX_DASH rightDashCount ++ BOX_TOP_RIGHT
       /\ lit " [1] Sessions " = safeTitle ++ rest
       /\ 0 <= leftDashCount <= 1 /\ 0 <= rightDashCount
       /\ leftDashCount + stringWidth (Some safeTitle) + rightDashCount = 25 - 2.
Proof.
  split; [lia|].
  exact (buildTitleBorderLine_fills 25 (lit " [1] Sessions ") ltac:(lia)).
Defined.

(* ================================================================== *)
(** * Transcript renderer: the boxed rows *)
(* ================================================================== *)

Lemma printable_check (s : jsstring) :
  forallb (fun u => (32 <=? u)%N && (u <=? 127)%N) s = true -> Forall isPrintable s.
Proof.
  rewrite forallb_forall, Forall_forall. intros H u Hu.
  specialize (H u Hu). apply andb_true_iff in H. destruct H as [H1 H2].
  apply N.leb_le in H1. apply N.leb_le in H2. unfold isPrintable. lia.
Qed.

Lemma dashes_printable (n : Z) : Forall isPrintable (repeat_str (lit "-") n).
Proof.
  unfold repeat_str. induction (Z.to_nat n) as [|k IH]; [constructor|].
  cbn [repeat concat]. apply Forall_app. split; [|exact IH].
  apply printable_check. reflexivity.
Qed.

Lemma dashes_length (n : Z) : str_length (repeat_str (lit "-") n) = Z.max 0 n.
Proof.
  unfold repeat_str, str_length.
  assert (H : forall k, length (concat (repeat (lit "-") k)) = k).
  { induction k as [|k IH]; [reflexivity|]. cbn [repeat concat].
    rewrite length_app, IH. reflexivity. }
  rewrite H. lia.
Qed.

Lemma str_length_app (a b : jsstring) : str_length (a ++ b) = str_length a + str_length b.
Proof. unfold str_length. rewrite length_app. lia. Qed.

(** The top border of a box: the label, cut to the border if need be,
    and dashes up to the border width. *)
Lemma topBorder_width (labelTag0 : jsstring) (borderInnerWidth : Z) :
  Forall isPrintable labelTag0 -> 0 <= borderInnerWidth ->
  let labelTag :=
    if stringWidth (Some labelTag0) >? borderInnerWidth
    then slice0 labelTag0 (Z.max 0 borderInnerWidth) else labelTag0 in
  let remaining := Z.max 0 (borderInnerWidth - stringWidth (Some labelTag)) in
  let topBorder := lit "+" ++ labelTag ++ repeat_str (lit "-") remaining ++ lit "+" in
  Forall isPrintable topBorder /\ str_length topBorder = borderInnerWidth + 2.
Proof.
  intros Htag0 Hw labelTag remaining topBorder.
  assert (Htag : Forall isPrintable labelTag /\ str_length labelTag <= borderInnerWidth).
  { unfold labelTag. rewrite (stringWidth_printable _ Htag0).
    destruct (str_length labelTag0 >? borderInnerWidth) eqn:E; rewrite Z.gtb_ltb in E.
    - apply Z.ltb_lt in E. rewrite slice0_firstn by lia. split.
      + rewrite <- (firstn_skipn (Z.to_nat (Z.max 0 borderInnerWidth)) labelTag0) in Htag0.
        apply Forall_app in Htag0. exact (proj1 Htag0).
      + unfold str_length in *. rewrite length_firstn. lia.
    - apply Z.ltb_ge in E. split; assumption. }
  destruct Htag as [Hprint Hlen].
  assert (Hall : Forall isPrintable topBorder).
  { unfold topBorder. repeat (apply Forall_app; split);
      try (apply printable_check; reflexivity); try assumption.
    apply dashes_printable. }
  split; [exact Hall|].
  unfold topBorder. rewrite !str_length_app, dashes_length.
  unfold remaining. rewrite (stringWidth_printable _ Hprint).
  change (str_length (lit "+")) with 1. lia.
Qed.

Lemma boxTextRow_width (entryRole : jsval) (innerWidth : Z) (l : jsstring) :
  stringWidth (Some l) <= innerWidth ->
  stringWidth (rtext (boxTextRow entryRole innerWidth l)) = innerWidth + 4.
Proof.
  intros Hl. unfold boxTextRow. cbn [rtext].
  rewrite stringWidth_app_split by reflexivity.
  rewrite stringWidth_app_split by (cbn [hd lit]; apply andb_false_r).
  rewrite padRightByWidth_stringWidth.
  change (stringWidth (Some (lit "| "))) with 2.
  change (stringWidth (Some (lit " |"))) with 2. lia.
Qed.

Lemma wrapText_lines_within (text : option jsstring) (w : Z) (l : jsstring) :
  2 <= w -> In l (wrapText text w) -> stringWidth (Some l) <= w.
Proof.
  intros Hw Hin.
  pose proof (wrapText_lines_fit w ltac:(lia) text) as Hall.
  rewrite Forall_forall in Hall.
  destruct (Hall l Hin) as [Hfit | [_ Hwide]]; [exact Hfit|].
  pose proof (charWidth_range l). lia.
Qed.

(** Every border and text row of an entry is exactly as wide as the
    pane. *)
Lemma boxEntryRows_widths (entry : Entry) (maxWidth : Z) (added : list Row) :
  6 <= maxWidth ->
  boxEntryRows entry maxWidth = Return added ->
  Forall (fun row => if isBoxRow row then stringWidth (rtext row) = maxWidth
                     else row = mkRow TSpacer None (Some (lit " "))) added.
Proof.
  intros Hw. unfold boxEntryRows.
  replace (Z.max 1 (maxWidth - 4)) with (maxWidth - 4) by lia.
  destruct (jsOr (text entry) (VStr [])) as [| | | |body| |]; try discriminate.
  intros Hret.
  apply (f_equal (fun o => match o with Return a => a | Throw _ => [] end)) in Hret.
  cbv beta iota in Hret. subst added.
  set (label := if isStr (role entry) "user" then lit "User" else lit "Assistant").
  assert (Hlabel : Forall isPrintable (lit " " ++ label ++ lit " ")).
  { unfold label. destruct (isStr (role entry) "user"); apply printable_check; reflexivity. }
  destruct (topBorder_width (lit " " ++ label ++ lit " ") (maxWidth - 4 + 2) Hlabel ltac:(lia))
    as [Htop_print Htop_len].
  apply Forall_app. split; [constructor; [|constructor]|apply Forall_app; split].
  - cbn [isBoxRow rtype rtext]. rewrite (stringWidth_printable _ Htop_print), Htop_len. lia.
  - apply Forall_forall. intros row Hrow.
    apply in_flat_map in Hrow. destruct Hrow as (rawLine & _ & Hrow).
    apply in_map_iff in Hrow. destruct Hrow as (l & <- & Hl).
    cbn [isBoxRow boxTextRow rtype].
    rewrite boxTextRow_width; [lia|].
    apply (wrapText_lines_within (Some rawLine)); [lia | exact Hl].
  - repeat constructor. cbn [isBoxRow rtype rtext].
    assert (Hborder : Forall isPrintable
                        (lit "+" ++ repeat_str (lit "-") (maxWidth - 4 + 2) ++ lit "+")).
    { repeat (apply Forall_app; split); try (apply printable_check; reflexivity).
      apply dashes_printable. }
    rewrite (stringWidth_printable _ Hborder), !str_length_app, dashes_length.
    change (str_length (lit "+")) with 1. lia.
Qed.

Lemma boxRowsLoop_widths (entries : list Entry) (maxWidth : Z) (rows result : list Row)
    (P : Row -> Prop) :
  (forall entry added, boxEntryRows entry maxWidth = Return added -> Forall P added) ->
  Forall P rows ->
  boxRowsLoop entries maxWidth rows = Return result -> Forall P result.
Proof.
  intros Hentry. revert rows. induction entries as [|entry rest IH]; intros rows Hrows.
  - cbn [boxRowsLoop]. intros H. injection H as <-. exact Hrows.
  - cbn [boxRowsLoop]. destruct (boxEntryRows entry maxWidth) as [added|e] eqn:E;
      cbn [bindO]; [|discriminate].
    apply IH. apply Forall_app. split; [exact Hrows | exact (Hentry _ _ E)].
Qed.

Lemma popSpacers_incl (reversed : list Row) (row : Row) :
  In row (popSpacers reversed) -> In row reversed.
Proof.
  induction reversed as [|r rest IH]; [intros []|].
  cbn [popSpacers]. destruct (isSpacer r); [intros H; right; exact (IH H) | exact (fun H => H)].
Qed.

Lemma buildBoxRows_all (entries : list Entry) (maxWidth : Z) (rows : list Row)
    (P : Row -> Prop) :
  (forall entry added, boxEntryRows entry maxWidth = Return added -> Forall P added) ->
  buildBoxRows entries maxWidth = Return rows -> Forall P rows.
Proof.
  intros Hentry. unfold buildBoxRows.
  destruct (boxRowsLoop entries maxWidth []) as [all|e] eqn:E; cbn [bindO]; [|discriminate].
  intros H. injection H as <-.
  pose proof (boxRowsLoop_widths entries maxWidth [] all P Hentry ltac:(constructor) E) as Hall.
  rewrite Forall_forall in *. intros row Hrow.
  apply Hall. apply in_rev. apply popSpacers_incl. apply in_rev in Hrow. exact Hrow.
Qed.

Lemma popSpacers_head (reversed : list Row) :
  match popSpacers reversed with
  | [] => True
  | row :: _ => isSpacer row = false
  end.
Proof.
  induction reversed as [|r rest IH]; [exact I|].
  cbn [popSpacers]. destruct (isSpacer r) eqn:E; [exact IH | exact E].
Qed.

(** The boxed transcript is a rectangle: in a pane of at least 6
    columns every border and every text row has exactly the width of the
    pane, whatever code points the entries hold; the other rows are the
    one-space spacers, and the last row is not a spacer. *)
Theorem buildBoxRows_rectangle (entries : list Entry) (maxWidth : Z) (rows : list Row) :
  6 <= maxWidth ->
  buildBoxRows entries maxWidth = Return rows ->
  (forall row, In row rows ->
     if isBoxRow row then stringWidth (rtext row) = maxWidth
     else row = mkRow TSpacer None (Some (lit " ")))
  /\ isSpacer (last rows (mkRow TText None None)) = false.
Proof.
  intros Hw Hrows. split.
  - apply Forall_forall.
    apply (buildBoxRows_all entries maxWidth rows _
             (fun entry added => boxEntryRows_widths entry maxWidth added Hw) Hrows).
  - unfold buildBoxRows in Hrows.
    destruct (boxRowsLoop entries maxWidth []) as [all|e]; cbn [bindO] in Hrows;
      [|discriminate].
    injection Hrows as <-.
    pose proof (popSpacers_head (rev all)) as Hhead.
    destruct (popSpacers (rev all)) as [|row rest]; [reflexivity|].
    cbn [rev]. rewrite last_last. exact Hhead.
Qed.

(** The boxed rows are built for every list of entries whose texts are
    strings, as the extractor makes them. *)
Lemma buildBoxRows_returns (entries : list Entry) (maxWidth : Z) :
  forallb textEntry entries = true ->
  exists rows, buildBoxRows entries maxWidth = Return rows.
Proof.
  intros Htext. unfold buildBoxRows.
  assert (Hloop : forall rows, exists all, boxRowsLoop entries maxWidth rows = Return all).
  { induction entries as [|entry rest IH]; intros rows; [now exists rows|].
    cbn [forallb] in Htext. apply andb_true_iff in Htext. destruct Htext as [He Hrest].
    cbn [boxRowsLoop]. unfold boxEntryRows, textEntry in *.
    destruct (text entry) as [| | | |s| |]; try discriminate.
    unfold jsOr. cbn [truthy]. destruct (negb (str_eqb s [])); cbn [bindO]; apply IH, Hrest. }
  destruct (Hloop []) as [all ->]. cbn [bindO]. eexists. reflexivity.
Qed.

Lemma buildBoxRows_rectangle_witness :
  6 <= 12
  /\ exists rows,
       buildBoxRows [mkEntry (VStr (lit "user")) (VStr ([12354%N; 12354%N] ++ NL ++ lit "a long line of text"))] 12
       = Return rows
       /\ (forall row, In row rows ->
             if isBoxRow row then stringWidth (rtext row) = 12
             else row = mkRow TSpacer None (Some (lit " ")))
       /\ isSpacer (last rows (mkRow TText None None)) = false.
Proof.
  split; [lia|].
  destruct (buildBoxRows_returns
              [mkEntry (VStr (lit "user"))
                       (VStr ([12354%N; 12354%N] ++ NL ++ lit "a long line of text"))] 12 eq_refl)
    as [rows Hrows].
  exists rows. split; [exact Hrows|].
  exact (buildBoxRows_rectangle _ 12 rows ltac:(lia) Hrows).
Defined.

(** ** The re-wrap pass leaves the boxes alone *)

Lemma expandChar_plain (c : jsstring) : isChar c -> Forall plainUnit (expandChar c).
Proof.
  intros Hc. unfold expandChar.
  destruct (str_eqb c CR) eqn:Ecr; [constructor|].
  destruct (str_eqb c TAB) eqn:Etab.
  - repeat constructor; discriminate.
  - apply str_eqb_neq in Ecr. apply str_eqb_neq in Etab.
    destruct (isChar_cases c Hc) as [[u ->] | (h & lo & -> & Hh & Hlo)].
    + repeat constructor; intros ->; [apply Ecr | apply Etab]; reflexivity.
    + unfold isHighSurrogate, isLowSurrogate in *.
      apply andb_true_iff in Hh. destruct Hh as [Hh _]. apply N.leb_le in Hh.
      apply andb_true_iff in Hlo. destruct Hlo as [Hlo _]. apply N.leb_le in Hlo.
      repeat constructor; lia.
Qed.

Lemma expandText_plain (s : jsstring) : Forall plainUnit (expandText s).
Proof.
  unfold expandText. pose proof (chars_yields_chars s) as Hcs.
  induction Hcs as [|c cs Hc Hcs IH]; [constructor|].
  cbn [map concat]. apply Forall_app. split; [apply expandChar_plain, Hc | exact IH].
Qed.

(** No line of [wrapText] holds a carriage return or a tab. *)
Lemma wrapText_lines_plain (text : option jsstring) (w : Z) (l : jsstring) :
  1 <= w -> In l (wrapText text w) -> Forall plainUnit l.
Proof.
  intros Hw Hin.
  destruct text as [[|u s]|].
  - unfold wrapText in Hin.
    destruct (w <=? 0) eqn:E; [apply Z.leb_le in E; lia|].
    destruct Hin as [<- | []]. repeat constructor; discriminate.
  - pose proof (wrapText_concat (Some (u :: s)) w Hw ltac:(discriminate)) as Hc.
    pose proof (expandText_plain (orEmpty (Some (u :: s)))) as Hplain.
    rewrite <- Hc in Hplain. rewrite Forall_forall in *.
    intros x Hx. apply Hplain. apply in_concat. exists l. split; assumption.
  - pose proof (wrapText_concat None w Hw ltac:(discriminate)) as Hc.
    pose proof (expandText_plain (orEmpty None)) as Hplain.
    rewrite <- Hc in Hplain. rewrite Forall_forall in *.
    intros x Hx. apply Hplain. apply in_concat. exists l. split; assumption.
Qed.

Lemma chars_units (s c : jsstring) (u : N) : In c (chars s) -> In u c -> In u s.
Proof.
  intros Hc Hu. rewrite <- (concat_chars s). apply in_concat. exists c. split; assumption.
Qed.

Lemma plain_chars (s c : jsstring) :
  Forall plainUnit s -> In c (chars s) -> str_eqb c CR = false /\ str_eqb c TAB = false.
Proof.
  intros Hs Hc. rewrite Forall_forall in Hs.
  split; apply str_eqb_neq; intros ->.
  - destruct (Hs 13%N (chars_units s _ 13%N Hc (or_introl eq_refl))) as [H _]. congruence.
  - destruct (Hs 9%N (chars_units s _ 9%N Hc (or_introl eq_refl))) as [_ H]. congruence.
Qed.

(** Code points that fit the line being filled are appended to it. *)
Lemma wrapLoop_fits (w : Z) (cs : list jsstring) (l : jsstring) (k : Z) :
  Forall (fun c => c <> [] /\ str_eqb c CR = false /\ str_eqb c TAB = false) cs ->
  0 <= k -> k + widthOf cs < w ->
  fold_left (wrapStep w) cs (mkWrap [] l k) = mkWrap [] (l ++ concat cs) (k + widthOf cs).
Proof.
  intros Hcs. revert l k. induction Hcs as [|c cs (Hne & Hcr & Htab) Hcs IH]; intros l k Hk Hfit.
  - cbn [fold_left concat]. rewrite widthOf_nil, app_nil_r, Z.add_0_r. reflexivity.
  - rewrite widthOf_cons in Hfit. pose proof (charWidth_range c) as Hcw.
    pose proof (widthOf_nonneg cs) as Hpos.
    cbn [fold_left]. unfold wrapStep at 2. rewrite Hcr, Htab.
    unfold placeChar. cbn [lines line lineWidth].
    assert (E1 : (k + charWidth c >? w) = false) by (rewrite Z.gtb_ltb; apply Z.ltb_ge; lia).
    assert (E2 : (k + charWidth c >=? w) = false) by (rewrite Z.geb_leb; apply Z.leb_gt; lia).
    rewrite E1. cbn [andb lines line lineWidth]. rewrite E2.
    rewrite IH by lia. rewrite widthOf_cons. cbn [concat].
    rewrite <- app_assoc. f_equal. lia.
Qed.

Lemma wrapText_run (s : jsstring) (w : Z) :
  1 <= w -> s <> [] ->
  wrapText (Some s) w
  = if negb (str_eqb (line (wrapRun w s)) []) || (length (lines (wrapRun w s)) =? 0)%nat
    then lines (wrapRun w s) ++ [line (wrapRun w s)]
    else lines (wrapRun w s).
Proof.
  intros Hw Hs. unfold wrapText.
  destruct (w <=? 0) eqn:E; [apply Z.leb_le in E; lia|].
  destruct s; [congruence | reflexivity].
Qed.

(** A line that is exactly as wide as the budget, ends in a code point
    of width 1 and holds no carriage return or tab is one line for
    [wrapText]. *)
Lemma wrapText_exact_width (w : Z) (t : jsstring) (u : N) :
  1 <= w -> charWidth [u] = 1 -> Forall plainUnit (t ++ [u]) ->
  stringWidth (Some (t ++ [u])) = w ->
  wrapText (Some (t ++ [u])) w = [t ++ [u]].
Proof.
  intros Hw Hu Hplain Hwidth.
  assert (Hlow : isLowSurrogate u = false).
  { unfold charWidth, codePointAt0 in Hu. unfold isLowSurrogate.
    destruct (N.leb_spec u 31); [discriminate|].
    destruct (N.leb_spec u 127); [|discriminate].
    apply andb_false_iff. left. apply N.leb_gt. lia. }
  assert (Hchars : chars (t ++ [u]) = chars t ++ [[u]]).
  { rewrite chars_app_split; [reflexivity|]. cbn [hd]. rewrite Hlow. apply andb_false_r. }
  rewrite stringWidth_chars, Hchars, widthOf_app, widthOf_cons, widthOf_nil, Hu in Hwidth.
  apply Forall_app in Hplain. destruct Hplain as [Ht Hu_plain].
  assert (Hcs : Forall (fun c => c <> [] /\ str_eqb c CR = false /\ str_eqb c TAB = false)
                       (chars t)).
  { apply Forall_forall. intros c Hc. split.
    - pose proof (chars_yields_chars t) as Hall. rewrite Forall_forall in Hall.
      intros ->. discriminate (Hall [] Hc).
    - exact (plain_chars t c Ht Hc). }
  rewrite wrapText_run by (try lia; destruct t; discriminate).
  unfold wrapRun. rewrite Hchars, fold_left_app.
  rewrite (wrapLoop_fits w (chars t) [] 0 Hcs ltac:(lia) ltac:(lia)).
  cbn [app fold_left]. rewrite concat_chars.
  destruct (Forall_inv Hu_plain) as [H13 H9].
  unfold wrapStep.
  assert (Ecr : str_eqb [u] CR = false) by (apply str_eqb_neq; unfold CR; congruence).
  assert (Etab : str_eqb [u] TAB = false) by (apply str_eqb_neq; unfold TAB; congruence).
  rewrite Ecr, Etab. unfold placeChar. cbn [lines line lineWidth]. rewrite Hu.
  assert (E1 : (0 + widthOf (chars t) + 1 >? w) = false)
    by (rewrite Z.gtb_ltb; apply Z.ltb_ge; lia).
  assert (E2 : (0 + widthOf (chars t) + 1 >=? w) = true)
    by (rewrite Z.geb_leb; apply Z.leb_le; lia).
  rewrite E1. cbn [andb lines line lineWidth]. rewrite E2.
  cbn [pushLine lines line lineWidth app]. rewrite str_eqb_refl. reflexivity.
Qed.

Lemma padRightByWidth_spaces (text : jsstring) (targetWidth : Z) :
  exists n, padRightByWidth text targetWidth = text ++ repeat 32%N n.
Proof.
  unfold padRightByWidth. destruct (_ >=? _).
  - exists 0%nat. now rewrite app_nil_r.
  - rewrite repeat_str_spaces. eexists. reflexivity.
Qed.

Lemma printable_plain (s : jsstring) : Forall isPrintable s -> Forall plainUnit s.
Proof.
  apply Forall_impl. intros u Hu. unfold isPrintable in Hu. unfold plainUnit. lia.
Qed.

Lemma wrapRows_one_line (row : Row) (w : Z) (t : jsstring) :
  rtext row = Some t -> wrapText (Some t) w = [t] -> wrapRows [row] w = [row].
Proof.
  intros Ht Hwrap. unfold wrapRows. cbn [flat_map]. rewrite Ht. cbn [orEmpty].
  rewrite Hwrap. cbn [length Nat.eqb wrapRowLines app].
  destruct row as [ty ro tx]. cbn [rtext] in Ht. subst tx. reflexivity.
Qed.

Lemma wrapRows_printable_row (ty : RowType) (ro : option Role) (t : jsstring) (w : Z) :
  1 <= w -> Forall isPrintable t -> str_length t = w ->
  wrapRows [mkRow ty ro (Some t)] w = [mkRow ty ro (Some t)].
Proof.
  intros Hw Hprint Hlen.
  destruct (exists_last (l := t)) as (t' & u & ->).
  { intros ->. unfold str_length in Hlen. cbn in Hlen. lia. }
  apply (wrapRows_one_line _ w (t' ++ [u])); [reflexivity|].
  apply wrapText_exact_width; try assumption.
  - apply Forall_app in Hprint. destruct Hprint as [_ Hu]. inversion Hu; subst.
    now apply charWidth_printable.
  - now apply printable_plain.
  - now rewrite stringWidth_printable.
Qed.

Lemma boxEntryRows_stable (entry : Entry) (maxWidth : Z) (added : list Row) :
  6 <= maxWidth ->
  boxEntryRows entry maxWidth = Return added ->
  Forall (fun row => wrapRows [row] maxWidth = [row]) added.
Proof.
  intros Hw. unfold boxEntryRows.
  replace (Z.max 1 (maxWidth - 4)) with (maxWidth - 4) by lia.
  destruct (jsOr (text entry) (VStr [])) as [| | | |body| |]; try discriminate.
  intros Hret.
  apply (f_equal (fun o => match o with Return a => a | Throw _ => [] end)) in Hret.
  cbv beta iota in Hret. subst added.
  set (label := if isStr (role entry) "user" then lit "User" else lit "Assistant").
  assert (Hlabel : Forall isPrintable (lit " " ++ label ++ lit " ")).
  { unfold label. destruct (isStr (role entry) "user"); apply printable_check; reflexivity. }
  destruct (topBorder_width (lit " " ++ label ++ lit " ") (maxWidth - 4 + 2) Hlabel ltac:(lia))
    as [Htop_print Htop_len].
  assert (Hspacer : wrapRows [mkRow TSpacer None (Some (lit " "))] maxWidth
                    = [mkRow TSpacer None (Some (lit " "))]).
  { apply (wrapRows_one_line _ maxWidth (lit " ")); [reflexivity|].
    apply settled_wrapText; [lia | apply space_settled; lia]. }
  apply Forall_app. split; [constructor; [|constructor]|apply Forall_app; split].
  - apply wrapRows_printable_row; [lia | exact Htop_print | rewrite Htop_len; lia].
  - apply Forall_forall. intros row Hrow.
    apply in_flat_map in Hrow. destruct Hrow as (rawLine & _ & Hrow).
    apply in_map_iff in Hrow. destruct Hrow as (l & <- & Hl).
    assert (Hinner : 2 <= maxWidth - 4) by lia.
    pose proof (boxTextRow_width (role entry) (maxWidth - 4) l
                  (wrapText_lines_within (Some rawLine) (maxWidth - 4) l Hinner Hl))
      as Hwidth.
    unfold boxTextRow in *. cbn [rtext] in Hwidth.
    destruct (padRightByWidth_spaces l (maxWidth - 4)) as [n Hpad]. rewrite Hpad in *.
    apply (wrapRows_one_line _ maxWidth (lit "| " ++ (l ++ repeat 32%N n) ++ lit " |"));
      [reflexivity|].
    change (lit " |") with ([32%N] ++ [124%N]) in *.
    rewrite !app_assoc in *. apply wrapText_exact_width; [lia | reflexivity | | lia].
    rewrite <- !app_assoc.
    repeat (apply Forall_app; split); try (repeat constructor; discriminate).
    + apply (wrapText_lines_plain (Some rawLine) (maxWidth - 4)); [lia | exact Hl].
    + apply printable_plain, spaces_printable.
  - constructor; [|constructor; [exact Hspacer | constructor; [exact Hspacer | constructor]]].
    apply wrapRows_printable_row; [lia | |].
    + repeat (apply Forall_app; split); try (apply printable_check; reflexivity).
      apply dashes_printable.
    + rewrite !str_length_app, dashes_length. change (str_length (lit "+")) with 1. lia.
Qed.

(** In a pane of at least 6 columns the re-wrap pass at the width of the
    pane returns the boxed rows as they are: no border and no text row
    is split, whatever code points the entries hold. *)
Theorem wrapRows_keeps_boxes (entries : list Entry) (maxWidth : Z) (rows : list Row) :
  6 <= maxWidth ->
  buildBoxRows entries maxWidth = Return rows ->
  wrapRows rows maxWidth = rows.
Proof.
  intros Hw Hrows.
  pose proof (buildBoxRows_all entries maxWidth rows _
                (fun entry added => boxEntryRows_stable entry maxWidth added Hw) Hrows) as Hall.
  unfold wrapRows. apply flat_map_fixed. intros row Hrow.
  rewrite Forall_forall in Hall. specialize (Hall row Hrow).
  unfold wrapRows in Hall. cbn [flat_map] in Hall. rewrite app_nil_r in Hall. exact Hall.
Qed.

Lemma wrapRows_keeps_boxes_witness :
  6 <= 12
  /\ exists rows,
       buildBoxRows [mkEntry (VStr (lit "assistant"))
                             (VStr (lit "tab" ++ TAB ++ lit "and" ++ CR ++ NL ++ [12354%N]))] 12
       = Return rows
       /\ wrapRows rows 12 = rows.
Proof.
  split; [lia|].
  destruct (buildBoxRows_returns
              [mkEntry (VStr (lit "assistant"))
                       (VStr (lit "tab" ++ TAB ++ lit "and" ++ CR ++ NL ++ [12354%N]))] 12
              eq_refl) as [rows Hrows].
  exists rows. split; [exact Hrows|].
  exact (wrapRows_keeps_boxes _ 12 rows ltac:(lia) Hrows).
Defined.

(* ================================================================== *)
(** * Conversation extractor: what the entries are *)
(* ================================================================== *)

Lemma shouldExcludeText_false (v : jsval) :
  shouldExcludeText v = Return false ->
  exists s, v = VStr s /\ s <> [] /\ excludedText s = false.
Proof.
  intros H. destruct v as [| |b|n|s|items|fields].
  - discriminate H.
  - discriminate H.
  - unfold shouldExcludeText in H. cbn [truthy] in H. destruct b; discriminate H.
  - unfold shouldExcludeText in H. cbn [truthy] in H. destruct (n =? 0); discriminate H.
  - rewrite shouldExcludeText_str in H. injection H as Hex.
    exists s. split; [reflexivity|]. split; [|exact Hex].
    intros ->. discriminate Hex.
  - discriminate H.
  - discriminate H.
Qed.

Lemma primaryOf_wellFormed (parsed : jsval) : Forall wellFormedEntry (primaryOf parsed).
Proof.
  unfold primaryOf, scanEvent.
  destruct (isStr (getProp parsed "type") "event_msg"); [|constructor].
  set (payload := jsOr (getProp parsed "payload") (VObj [])).
  set (msgType := getProp payload "type").
  destruct (isStr msgType "user_message") eqn:Euser.
  - pose proof (isStr_inv _ _ Euser) as Hty. rewrite Hty.
    change (isStr (VStr (lit "user_message")) "agent_message") with false.
    change (isStr (VStr (lit "user_message")) "assistant_message") with false.
    cbn [orb].
    destruct (shouldExcludeText (appendImages _ payload)) as [[|]|[]] eqn:Ex;
      cbn [bindO negb eventMessages app]; try constructor; [|constructor].
    split; [left; reflexivity | exact (shouldExcludeText_false _ Ex)].
  - cbn [bindO]. destruct (isStr msgType "agent_message" || isStr msgType "assistant_message");
      [|constructor].
    destruct (shouldExcludeText (jsOr _ _)) as [[|]|[]] eqn:Ex;
      cbn [bindO negb eventMessages app]; try constructor; [|constructor].
    split; [right; reflexivity | exact (shouldExcludeText_false _ Ex)].
Qed.

Lemma fallbackOf_wellFormed (parsed : jsval) : Forall wellFormedEntry (fallbackOf parsed).
Proof.
  unfold fallbackOf, scanResponseItem.
  destruct (isStr (getProp parsed "type") "response_item"); [|constructor].
  set (payload := jsOr (getProp parsed "payload") (VObj [])).
  destruct (isStr (getProp payload "type") "message"); [|constructor].
  destruct (isStr (getProp payload "role") "user") eqn:Eu;
    [|destruct (isStr (getProp payload "role") "assistant") eqn:Ea]; cbn [orb];
    try constructor;
    (destruct (shouldExcludeText _) as [[|]|[]] eqn:Ex;
     cbn [bindO negb fallbackMessages app]; try constructor; [|constructor];
     split; [|exact (shouldExcludeText_false _ Ex)]).
  - left. exact (isStr_inv _ _ Eu).
  - right. exact (isStr_inv _ _ Ea).
Qed.

Lemma flat_map_Forall {A B : Type} (P : B -> Prop) (f : A -> list B) (l : list A) :
  (forall a, Forall P (f a)) -> Forall P (flat_map f l).
Proof.
  intros Hf. induction l as [|a l IH]; [constructor|].
  cbn [flat_map]. apply Forall_app. split; [apply Hf | exact IH].
Qed.

Lemma extractConversation_wellFormed `{Host} (rl : list jsstring) (entries : list Entry) :
  extractConversation rl = Return entries -> Forall wellFormedEntry entries.
Proof.
  rewrite extractConversation_outcome.
  destruct (existsb recordThrows (records rl)); [discriminate|].
  intros Hret. injection Hret as <-.
  destruct (primaryStream rl) eqn:Ep.
  - apply flat_map_Forall, fallbackOf_wellFormed.
  - rewrite <- Ep. apply flat_map_Forall, primaryOf_wellFormed.
Qed.

(** Every entry of an extracted conversation has the role ["user"] or
    ["assistant"] and a text that is a string, is not empty and does not
    start, after leading white space, with an excluded prefix. *)
Theorem extractConversation_entries `{Host} (rl : list jsstring) (entries : list Entry) :
  extractConversation rl = Return entries ->
  forall entry, In entry entries -> wellFormedEntry entry.
Proof.
  intros Hret. apply Forall_forall. exact (extractConversation_wellFormed rl entries Hret).
Qed.

Lemma extractConversation_entries_witness :
  extractConversation [ lit "u:question"; lit "U:# AGENTS.md rules"; lit "a:answer" ]
  = Return [ mkEntry (VStr (lit "user")) (VStr (lit "question"));
             mkEntry (VStr (lit "assistant")) (VStr (lit "answer")) ]
  /\ wellFormedEntry (mkEntry (VStr (lit "user")) (VStr (lit "question")))
  /\ wellFormedEntry (mkEntry (VStr (lit "assistant")) (VStr (lit "answer"))).
Proof.
  assert (Hret : extractConversation
                   [ lit "u:question"; lit "U:# AGENTS.md rules"; lit "a:answer" ]
                 = Return [ mkEntry (VStr (lit "user")) (VStr (lit "question"));
                            mkEntry (VStr (lit "assistant")) (VStr (lit "answer")) ])
    by reflexivity.
  split; [exact Hret|].
  split; apply (extractConversation_entries _ _ Hret); cbn [In]; auto.
Defined.

Lemma records_app `{Host} (rl1 rl2 : list jsstring) :
  records (rl1 ++ rl2) = records rl1 ++ records rl2.
Proof. unfold records. apply flat_map_app. Qed.

Lemma records_skipped `{Host} (line : jsstring) (rl : list jsstring) :
  skippedLine line -> records (line :: rl) = records rl.
Proof.
  intros Hskip. unfold records. cbn [flat_map].
  destruct Hskip as [Hblank | Hparse].
  - rewrite Hblank, str_eqb_refl. reflexivity.
  - rewrite Hparse. destruct (str_eqb (trim line) []); reflexivity.
Qed.

Lemma extractConversation_records `{Host} (rl rl' : list jsstring) :
  records rl = records rl' -> extractConversation rl = extractConversation rl'.
Proof.
  intros Hrec. rewrite !extractConversation_outcome.
  unfold primaryStream, fallbackStream. rewrite Hrec. reflexivity.
Qed.

(** A blank line or a line that does not parse, anywhere in the log,
    changes nothing: the extraction gives what it gives without that
    line. *)
Theorem extractConversation_skips_line `{Host} (rl1 rl2 : list jsstring) (line : jsstring) :
  trim line = [] \/ JSON_parse line = None ->
  extractConversation (rl1 ++ line :: rl2) = extractConversation (rl1 ++ rl2).
Proof.
  intros Hskip. apply extractConversation_records.
  rewrite !records_app, (records_skipped line rl2 Hskip). reflexivity.
Qed.

Lemma extractConversation_skips_line_witness :
  extractConversation ([lit "U:question"] ++ lit "{broken" :: [lit "A:answer"])
  = extractConversation ([lit "U:question"] ++ [lit "A:answer"]).
Proof.
  apply (extractConversation_skips_line [lit "U:question"] [lit "A:answer"] (lit "{broken")).
  right. reflexivity.
Defined.

(** ** The exclusion rule and white space *)

Lemma trimStart_whitespace (ws s : jsstring) :
  forallb isWhiteSpace ws = true -> trimStart (ws ++ s) = trimStart s.
Proof.
  induction ws as [|u ws IH]; [reflexivity|].
  cbn [forallb app trimStart]. intros H. apply andb_true_iff in H. destruct H as [Hu Hws].
  rewrite Hu. exact (IH Hws).
Qed.

Lemma startsWith_app (p tail : jsstring) : startsWith (p ++ tail) p = true.
Proof.
  induction p as [|u p IH]; [destruct tail; reflexivity|].
  cbn [app startsWith]. now rewrite N.eqb_refl, IH.
Qed.

(** Leading white space does not count for the exclusion rule: a text
    that starts, after white space, with one of the four prefixes is
    excluded, and white space before a text that is not empty does not
    change the verdict.  The empty text is excluded, but a text of white
    space only is not. *)
Theorem shouldExcludeText_whitespace (ws s : jsstring) :
  forallb isWhiteSpace ws = true ->
  (forall prefix, In prefix EXCLUDE_PREFIXES ->
     shouldExcludeText (VStr (ws ++ prefix ++ s)) = Return true)
  /\ (s <> [] -> shouldExcludeText (VStr (ws ++ s)) = shouldExcludeText (VStr s))
  /\ shouldExcludeText (VStr []) = Return true
  /\ (ws <> [] -> shouldExcludeText (VStr ws) = Return false).
Proof.
  intros Hws. repeat split.
  - intros prefix Hin. rewrite shouldExcludeText_str. unfold excludedText.
    rewrite (trimStart_whitespace ws _ Hws).
    assert (Htrim : trimStart (prefix ++ s) = prefix ++ s).
    { cbn in Hin. destruct Hin as [<- | [<- | [<- | [<- | []]]]]; reflexivity. }
    rewrite Htrim.
    assert (Hex : existsb (fun p => startsWith (prefix ++ s) p) EXCLUDE_PREFIXES = true).
    { apply existsb_exists. exists prefix. split; [exact Hin | apply startsWith_app]. }
    rewrite Hex. apply f_equal, orb_true_r.
  - intros Hs. rewrite !shouldExcludeText_str. unfold excludedText.
    rewrite (trimStart_whitespace ws _ Hws).
    assert (E1 : str_eqb (ws ++ s) [] = false).
    { apply str_eqb_neq. intros Habs. apply app_eq_nil in Habs. tauto. }
    assert (E2 : str_eqb s [] = false) by now apply str_eqb_neq.
    now rewrite E1, E2.
  - intros Hne. rewrite shouldExcludeText_str. unfold excludedText.
    assert (E1 : str_eqb ws [] = false) by now apply str_eqb_neq.
    pose proof (trimStart_whitespace ws [] Hws) as Htrim. rewrite app_nil_r in Htrim.
    rewrite E1, Htrim. reflexivity.
Qed.

Lemma shouldExcludeText_whitespace_witness :
  shouldExcludeText (VStr (lit "  " ++ NL ++ lit "<environment_context>" ++ lit "cwd"))
  = Return true
  /\ shouldExcludeText (VStr (lit "  ")) = Return false.
Proof.
  pose proof (shouldExcludeText_whitespace (lit "  " ++ NL) (lit "cwd") eq_refl)
    as (Hprefix & _).
  pose proof (shouldExcludeText_whitespace (lit "  ") [] eq_refl) as (_ & _ & _ & Hblank).
  split.
  - exact (Hprefix (lit "<environment_context>") (or_intror (or_introl eq_refl))).
  - apply Hblank. discriminate.
Defined.

(* ================================================================== *)
(** * Transcript renderer: the Markdown rows and the view *)
(* ================================================================== *)

Lemma split_on_nonempty (c : N) (s : jsstring) : split_on c s <> [].
Proof.
  induction s as [|u s IH]; cbn [split_on]; [discriminate|].
  destruct (N.eqb u c); [discriminate|]. destruct (split_on c s); discriminate.
Qed.

Lemma join_cons (sep p : jsstring) (ps : list jsstring) :
  ps <> [] -> join sep (p :: ps) = p ++ sep ++ join sep ps.
Proof. destruct ps; [congruence | reflexivity]. Qed.

Lemma split_on_join (c : N) (s : jsstring) : join [c] (split_on c s) = s.
Proof.
  induction s as [|u s IH]; [reflexivity|].
  cbn [split_on]. destruct (N.eqb_spec u c) as [-> | Hne].
  - rewrite join_cons by apply split_on_nonempty. rewrite IH. reflexivity.
  - pose proof (split_on_nonempty c s) as Hs.
    destruct (split_on c s) as [|p ps]; [congruence|].
    destruct ps as [|q ps].
    + cbn [join] in *. now rewrite IH.
    + rewrite join_cons in * by discriminate. rewrite <- IH. reflexivity.
Qed.

Lemma split_on_pieces (c : N) (s : jsstring) : Forall (fun p => ~ In c p) (split_on c s).
Proof.
  induction s as [|u s IH]; cbn [split_on]; [repeat constructor; intros []|].
  destruct (N.eqb_spec u c) as [-> | Hne].
  - constructor; [intros [] | exact IH].
  - destruct (split_on c s) as [|p ps]; [repeat constructor; intros [H | []]; congruence|].
    inversion IH; subst. constructor; [|assumption].
    intros [H | H]; [congruence | contradiction].
Qed.

Lemma split_on_length (c : N) (s : jsstring) :
  length (split_on c s) = S (count_occ N.eq_dec s c).
Proof.
  induction s as [|u s IH]; [reflexivity|].
  cbn [split_on count_occ]. destruct (N.eqb_spec u c) as [-> | Hne].
  - destruct (N.eq_dec c c); [|congruence]. cbn [length]. now rewrite IH.
  - destruct (N.eq_dec u c); [congruence|].
    destruct (split_on c s); cbn [length] in *; [discriminate | exact IH].
Qed.

(** The Markdown rows are the lines of the Markdown text: joined by
    newlines, with the placeholder of an empty line taken back, they
    give the text; there is one row more than the text has newlines; no
    row has the empty text and none holds a newline. *)
Theorem buildMarkdownRows_lines (markdown : jsstring) :
  markdown <> [] ->
  exists ls,
    join NL ls = markdown
    /\ buildMarkdownRows markdown = map markdownRow ls
    /\ length ls = S (count_occ N.eq_dec markdown 10%N)
    /\ forall row, In row (buildMarkdownRows markdown) ->
         exists t, rtext row = Some t /\ t <> [] /\ ~ In 10%N t.
Proof.
  intros Hne. exists (split_on 10 markdown).
  assert (Hrows : buildMarkdownRows markdown = map markdownRow (split_on 10 markdown)).
  { unfold buildMarkdownRows. apply str_eqb_neq in Hne. rewrite Hne. reflexivity. }
  split; [apply split_on_join|]. split; [exact Hrows|]. split; [apply split_on_length|].
  rewrite Hrows. intros row Hrow. apply in_map_iff in Hrow.
  destruct Hrow as (l & <- & Hl).
  pose proof (split_on_pieces 10 markdown) as Hpieces. rewrite Forall_forall in Hpieces.
  unfold markdownRow. cbn [rtext].
  destruct (str_eqb l []) eqn:El.
  - exists (lit " "). repeat split; [discriminate|]. intros [H | []]. discriminate H.
  - exists l. repeat split; [now apply str_eqb_neq | exact (Hpieces l Hl)].
Qed.

Lemma buildMarkdownRows_lines_witness :
  lit "### User" ++ NL ++ lit "hi" ++ NL <> []
  /\ exists ls,
       join NL ls = lit "### User" ++ NL ++ lit "hi" ++ NL
       /\ buildMarkdownRows (lit "### User" ++ NL ++ lit "hi" ++ NL) = map markdownRow ls
       /\ length ls = S (count_occ N.eq_dec (lit "### User" ++ NL ++ lit "hi" ++ NL) 10%N)
       /\ forall row, In row (buildMarkdownRows (lit "### User" ++ NL ++ lit "hi" ++ NL)) ->
            exists t, rtext row = Some t /\ t <> [] /\ ~ In 10%N t.
Proof.
  split; [discriminate|].
  exact (buildMarkdownRows_lines (lit "### User" ++ NL ++ lit "hi" ++ NL) ltac:(discriminate)).
Defined.

Lemma wrapRows_length (rows : list Row) (w : Z) :
  (length rows <= length (wrapRows rows w))%nat.
Proof.
  unfold wrapRows. induction rows as [|row rows IH]; [reflexivity|].
  cbn [flat_map length]. rewrite length_app.
  pose proof (wrapText_length_pos (Some (orEmpty (rtext row))) w) as Hpos.
  destruct (length (wrapText (Some (orEmpty (rtext row))) w) =? 0)%nat eqn:E.
  - cbn [length]. lia.
  - assert (Hrow : forall ls i, length (wrapRowLines row i ls) = length ls).
    { induction ls as [|l ls IHl]; intros i; [reflexivity|].
      cbn [wrapRowLines length]. now rewrite IHl. }
    rewrite Hrow. lia.
Qed.

Lemma buildMarkdown_rows_two (entries : list Entry) :
  (2 <= length (buildMarkdownRows (buildMarkdown entries)))%nat.
Proof.
  unfold buildMarkdown. set (body := join (NL ++ NL) _).
  unfold buildMarkdownRows.
  assert (E : str_eqb (body ++ NL) [] = false).
  { apply str_eqb_neq. intros H. apply app_eq_nil in H. destruct H; discriminate. }
  rewrite E, length_map, split_on_length, count_occ_app.
  cbn. lia.
Qed.

(** With a session selected and nothing loading, the Markdown view never
    says "No conversation found": the rows of any conversation are at
    least two, and those of the empty conversation are two blank rows.
    The boxed view of the empty conversation has no row and says it. *)
Theorem conversationView_empty_conversation (session : Session) (entries : list Entry)
    (contentWidth scrollOffset visibleCount : Z) :
  wrappedRows [] Pretty contentWidth = Return []
  /\ ConversationView (Some session) false [] [] scrollOffset visibleCount
     = NoConversationFound
  /\ wrappedRows [] Markdown contentWidth
     = Return [markdownRow []; markdownRow []]
  /\ exists rows,
       wrappedRows entries Markdown contentWidth = Return rows
       /\ (2 <= length rows)%nat
       /\ ConversationView (Some session) false [] rows scrollOffset visibleCount
          <> NoConversationFound.
Proof.
  split; [reflexivity|]. split; [reflexivity|]. split.
  - unfold wrappedRows. cbn [bindO]. f_equal.
    change (buildMarkdownRows (buildMarkdown [])) with [markdownRow []; markdownRow []].
    assert (Hone : wrapRows [markdownRow []] contentWidth = [markdownRow []]).
    { apply (wrapRows_one_line _ contentWidth (lit " ")); [reflexivity|].
      destruct (Z_le_gt_dec contentWidth 0) as [Hw | Hw].
      - unfold wrapText. apply Z.leb_le in Hw. rewrite Hw. reflexivity.
      - apply settled_wrapText; [lia | apply space_settled; lia]. }
    unfold wrapRows in *. cbn [flat_map] in *. rewrite app_nil_r in Hone.
    now rewrite Hone.
  - eexists. split; [reflexivity|].
    pose proof (buildMarkdown_rows_two entries) as Htwo.
    pose proof (wrapRows_length (buildMarkdownRows (buildMarkdown entries)) contentWidth)
      as Hlen.
    split; [lia|].
    unfold ConversationView. cbn [negb str_eqb].
    destruct (length _ =? 0)%nat eqn:E; [apply Nat.eqb_eq in E; lia | discriminate].
Qed.

(** ** The visible window *)

Lemma jsSlice_length {A : Type} (l : list A) (offset visibleCount : Z) :
  0 <= visibleCount ->
  0 <= offset <= Z.max 0 (Z.of_nat (length l) - visibleCount) ->
  Z.of_nat (length (jsSlice l offset (offset + visibleCount)))
  = Z.min visibleCount (Z.of_nat (length l)).
Proof.
  intros Hv Ho. unfold jsSlice.
  destruct (offset <? 0) eqn:E1; [apply Z.ltb_lt in E1; lia|].
  destruct (offset + visibleCount <? 0) eqn:E2; [apply Z.ltb_lt in E2; lia|].
  rewrite length_firstn, length_skipn. lia.
Qed.

(** A scroll window inside the rows is always as full as it can be: the
    slice the panes show at an offset between 0 and [max(0, total -
    visible)] has [min(visible, total)] rows. *)
Theorem visible_window_full {A : Type} (rows : list A) (offset visibleCount : Z) :
  0 <= visibleCount ->
  0 <= offset <= Z.max 0 (Z.of_nat (length rows) - visibleCount) ->
  Z.of_nat (length (jsSlice rows offset (offset + visibleCount)))
  = Z.min visibleCount (Z.of_nat (length rows)).
Proof. apply jsSlice_length. Qed.

Lemma visible_window_full_witness :
  Z.of_nat (length (jsSlice [1; 2; 3; 4; 5; 6; 7; 8; 9; 10] 6 (6 + 4))) = Z.min 4 10.
Proof.
  apply (visible_window_full [1; 2; 3; 4; 5; 6; 7; 8; 9; 10] 6 4); cbn; lia.
Defined.

(** ** Rendering what was extracted *)

Lemma wellFormed_textEntry (entries : list Entry) :
  Forall wellFormedEntry entries -> forallb textEntry entries = true.
Proof.
  induction 1 as [|entry rest (_ & s & Hs & _) _ IH]; [reflexivity|].
  cbn [forallb]. unfold textEntry at 1. rewrite Hs. exact IH.
Qed.

(** The rows of an extracted conversation are built in both modes and at
    every width: rendering never throws on what the extractor
    returns. *)
Theorem extracted_conversation_renders `{Host} (rl : list jsstring) (entries : list Entry)
    (mode : ViewMode) (contentWidth : Z) :
  extractConversation rl = Return entries ->
  exists rows, wrappedRows entries mode contentWidth = Return rows.
Proof.
  intros Hret. unfold wrappedRows. destruct mode.
  - destruct (buildBoxRows_returns entries contentWidth
                (wellFormed_textEntry _ (extractConversation_wellFormed rl entries Hret)))
      as [rows ->].
    cbn [bindO]. eexists. reflexivity.
  - cbn [bindO]. eexists. reflexivity.
Qed.

Lemma extracted_conversation_renders_witness :
  exists rows,
    wrappedRows [ mkEntry (VStr (lit "user")) (VStr (lit "question"));
                  mkEntry (VStr (lit "assistant")) (VStr (lit "answer")) ] Pretty 40
    = Return rows.
Proof.
  exact (extracted_conversation_renders
           [ lit "u:question"; lit "U:# AGENTS.md rules"; lit "a:answer" ] _ Pretty 40 eq_refl).
Defined.

(* ================================================================== *)
(** * The session list pane and the keyboard *)
(* ================================================================== *)

Lemma keepSelectionVisible_fields (ls : SessionsState) (base : Z) :
  sessions (keepSelectionVisible ls base) = sessions ls
  /\ selectedIndex (keepSelectionVisible ls base) = selectedIndex ls.
Proof.
  unfold keepSelectionVisible. destruct (length (sessions ls) =? 0)%nat; split; reflexivity.
Qed.

Lemma keepSelectionVisible_window (ls : SessionsState) (base : Z) :
  1 <= base -> selectionInRange ls ->
  selectionVisible (keepSelectionVisible ls base) base.
Proof.
  intros Hbase [Hlo Hhi]. unfold keepSelectionVisible, selectionVisible.
  destruct (length (sessions ls) =? 0)%nat eqn:E; [apply Nat.eqb_eq in E; lia|].
  cbn [sessions selectedIndex scrollOffset].
  set (sel := selectedIndex ls) in *. set (len := Z.of_nat (length (sessions ls))) in *.
  destruct (sel <? scrollOffset ls) eqn:E1;
    [apply Z.ltb_lt in E1 | apply Z.ltb_ge in E1];
    match goal with
    | |- context [?s >=? ?n + base] =>
        destruct (s >=? n + base) eqn:E2; rewrite Z.geb_leb in E2;
          [apply Z.leb_le in E2 | apply Z.leb_gt in E2]
    end;
    match goal with
    | |- context [?n >? Z.max 0 (len - base)] =>
        destruct (n >? Z.max 0 (len - base)) eqn:E3; rewrite Z.gtb_ltb in E3;
          [apply Z.ltb_lt in E3 | apply Z.ltb_ge in E3]
    end;
    match goal with
    | |- context [?n <? 0] =>
        destruct (n <? 0) eqn:E4; [apply Z.ltb_lt in E4 | apply Z.ltb_ge in E4]
    end; lia.
Qed.

(** Whatever the offset of the list was, after the effect the selected
    session is inside the window of the list and the window is inside
    the list; the effect moves neither the selection nor the list. *)
Theorem keepSelectionVisible_contract (ls : SessionsState) (baseVisibleCount : Z) :
  1 <= baseVisibleCount ->
  0 <= selectedIndex ls < Z.of_nat (length (sessions ls)) ->
  let ls' := keepSelectionVisible ls baseVisibleCount in
  sessions ls' = sessions ls
  /\ selectedIndex ls' = selectedIndex ls
  /\ scrollOffset ls' <= selectedIndex ls < scrollOffset ls' + baseVisibleCount
  /\ 0 <= scrollOffset ls'
       <= Z.max 0 (Z.of_nat (length (sessions ls)) - baseVisibleCount).
Proof.
  intros Hbase Hsel ls'.
  destruct (keepSelectionVisible_fields ls baseVisibleCount) as [Hs Hi].
  destruct (keepSelectionVisible_window ls baseVisibleCount Hbase Hsel) as [Hwin Hoff].
  fold ls' in Hs, Hi, Hwin, Hoff. rewrite Hs, Hi in *. repeat split; try tauto; lia.
Qed.

Lemma keepSelectionVisible_contract_witness :
  let ls := mkSessionsState
              (repeat (mkSession VNull (lit "a") (lit "/s/a.jsonl") 1 VNull) 30) 20 0 false [] in
  scrollOffset (keepSelectionVisible ls 15) <= 20 < scrollOffset (keepSelectionVisible ls 15) + 15.
Proof.
  cbv zeta.
  exact (proj1 (proj2 (proj2
    (keepSelectionVisible_contract
       (mkSessionsState
          (repeat (mkSession VNull (lit "a") (lit "/s/a.jsonl") 1 VNull) 30) 20 0 false [])
       15 ltac:(lia) ltac:(cbn; lia))))).
Defined.

(** ** The state between two key presses *)

Lemma baseVisibleCount_pos (e : PaneEnv) : 1 <= baseVisibleCount e.
Proof. unfold baseVisibleCount. lia. Qed.

Lemma session_eqb_eq (a b : option jsstring) : session_eqb a b = true -> a = b.
Proof.
  destruct a as [p|], b as [q|]; cbn [session_eqb]; try discriminate; [|reflexivity].
  intros H. apply str_eqb_eq in H. now subst.
Qed.

Lemma paneStep_select_session (p : PaneState) (s : option jsstring) :
  selectedSession (env (paneStep p (SelectSession s))) = s
  /\ stdoutRows (env (paneStep p (SelectSession s))) = stdoutRows (env p).
Proof.
  cbn [paneStep]. destruct (session_eqb s (selectedSession (env p))) eqn:E.
  - apply session_eqb_eq in E. now subst.
  - split; reflexivity.
Qed.

Lemma baseVisibleCount_rows (e e' : PaneEnv) :
  stdoutRows e' = stdoutRows e -> baseVisibleCount e' = baseVisibleCount e.
Proof. unfold baseVisibleCount, paneHeight. now intros ->. Qed.

Lemma appInvariant_withExport (st : AppState) (on : bool) (p s d : jsstring) :
  appInvariant st -> appInvariant (withExport st on p s d).
Proof. exact (fun H => H). Qed.

Lemma appInvariant_withFocus (st : AppState) (f : Focus) :
  appInvariant st -> appInvariant (withFocus st f).
Proof. exact (fun H => H). Qed.

Lemma appInvariant_press (st : AppState) (k : Key) :
  appInvariant st -> appInvariant (withPane st (paneStep (pane st) (Press k))).
Proof.
  intros (Hsel & Hvis & Hfollow & Hpane). unfold appInvariant, withPane, leftVisibleCount.
  cbn [listState pane].
  split; [exact Hsel | split; [exact Hvis | split; [exact Hfollow|]]].
  apply paneStep_inRange, Hpane.
Qed.

Lemma appInvariant_toggle (st : AppState) :
  appInvariant st -> appInvariant (withPane st (paneStep (pane st) ToggleMode)).
Proof.
  intros (Hsel & Hvis & Hfollow & Hpane). unfold appInvariant, withPane, leftVisibleCount.
  cbn [listState pane].
  split; [exact Hsel | split; [exact Hvis | split; [exact Hfollow|]]].
  apply paneStep_inRange, Hpane.
Qed.

Lemma appInvariant_selectIndex (st : AppState) (index : Z) :
  appInvariant st ->
  0 <= index < Z.of_nat (length (sessions (listState st))) ->
  appInvariant (selectIndex st index).
Proof.
  intros Hinv Hindex. unfold selectIndex.
  destruct (index =? selectedIndex (listState st)); [exact Hinv|].
  destruct Hinv as (_ & _ & _ & Hpane).
  set (moved := mkSessionsState _ index _ _ _).
  assert (Hmoved : selectionInRange moved) by exact Hindex.
  destruct (keepSelectionVisible_fields moved (leftVisibleCount st)) as [Hs Hi].
  pose proof (keepSelectionVisible_window moved (leftVisibleCount st)
                (baseVisibleCount_pos _) Hmoved) as Hwin.
  set (ls' := keepSelectionVisible moved (leftVisibleCount st)) in *.
  destruct (paneStep_select_session (pane st) (option_map path (selectedSessionOf ls')))
    as [Hsession Hrows].
  unfold appInvariant, leftVisibleCount. cbn [listState pane].
  rewrite (baseVisibleCount_rows _ _ Hrows).
  split; [|split; [exact Hwin | split; [exact Hsession | apply paneStep_inRange, Hpane]]].
  unfold selectionInRange. rewrite Hs, Hi. exact Hindex.
Qed.

Ltac split_handler :=
  repeat match goal with
         | |- context [match focus ?s with _ => _ end] => destruct (focus s)
         | |- context [if ?b then _ else _] => destruct b
         | |- context [bindO ?m _] => destruct m; cbn [bindO]
         end.

(** Every key press keeps the state consistent: from a state in which
    the selection is a session of the list and is in the window of the
    list, the conversation pane shows that session and its offset is
    inside its rows, a key press that returns leads to such a state. *)
Theorem handleInput_keeps_invariant `{Host} (st st' : AppState) (key : InputKey)
    (actions : list Action) :
  appInvariant st ->
  handleInput st key = Return (st', actions) ->
  appInvariant st'.
Proof.
  intros Hinv. pose proof Hinv as (Hsel & _).
  unfold selectionInRange in Hsel.
  pose proof (baseVisibleCount_pos (env (pane st))) as Hbase.
  fold (leftVisibleCount st) in Hbase.
  unfold handleInput. cbv zeta.
  split_handler; intros Hret; try discriminate Hret; injection Hret as <- <-;
    first [ exact Hinv
          | apply appInvariant_withExport, Hinv
          | apply appInvariant_withFocus, Hinv
          | exact (appInvariant_press st KeyUp Hinv)
          | exact (appInvariant_press st KeyDown Hinv)
          | exact (appInvariant_press st KeyB Hinv)
          | exact (appInvariant_press st KeyF Hinv)
          | exact (appInvariant_press st KeyCtrlU Hinv)
          | exact (appInvariant_press st KeyCtrlD Hinv)
          | exact (appInvariant_press st KeyG Hinv)
          | exact (appInvariant_press st KeyShiftG Hinv)
          | exact (appInvariant_toggle st Hinv)
          | apply appInvariant_selectIndex; [exact Hinv | lia] ].
Qed.

Lemma handleInput_keeps_invariant_witness :
  appInvariant demoApp
  /\ exists st' actions,
       handleInput demoApp (typed (lit "j")) = Return (st', actions)
       /\ selectedIndex (listState st') = 1
       /\ appInvariant st'.
Proof.
  assert (Hinv : appInvariant demoApp).
  { unfold appInvariant, selectionInRange, selectionVisible, inRange.
    repeat split; vm_compute; discriminate. }
  split; [exact Hinv|].
  eexists. eexists. split; [reflexivity|]. split; [reflexivity|].
  exact (handleInput_keeps_invariant demoApp _ (typed (lit "j")) _ Hinv eq_refl).
Defined.

(** ** Export mode *)

(** Export mode is modal: while the path is being edited no key moves
    the focus, the selection or either pane, none leaves the program or
    starts the companion tool, and the handler never throws; the only
    action is the write of the file, on Enter. *)
Theorem export_mode_is_modal `{Host} (st : AppState) (key : InputKey) :
  exporting st = true ->
  exists st' actions,
    handleInput st key = Return (st', actions)
    /\ listState st' = listState st
    /\ pane st' = pane st
    /\ focus st' = focus st
    /\ (forall action, In action actions -> action = SubmitExport (exportPath st)).
Proof.
  intros Hexp. unfold handleInput. cbv zeta. rewrite Hexp.
  destruct (escape key); [|destruct (returnKey key);
    [|destruct (backspace key || deleteKey key);
      [|destruct (negb (str_eqb (input key) []))]]];
    eexists; eexists; (split; [reflexivity|]);
    repeat split; cbn [In]; intros action Hin; tauto || (destruct Hin as [<- | []]; reflexivity).
Qed.

Lemma export_mode_is_modal_witness :
  exists st' actions,
    handleInput (withExport demoApp true (lit "/work/a.md") [] []) (typed (lit "q"))
    = Return (st', actions)
    /\ listState st' = listState (withExport demoApp true (lit "/work/a.md") [] [])
    /\ pane st' = pane (withExport demoApp true (lit "/work/a.md") [] [])
    /\ focus st' = focus (withExport demoApp true (lit "/work/a.md") [] [])
    /\ (forall action, In action actions ->
          action = SubmitExport (exportPath (withExport demoApp true (lit "/work/a.md") [] []))).
Proof.
  exact (export_mode_is_modal (withExport demoApp true (lit "/work/a.md") [] [])
           (typed (lit "q")) eq_refl).
Defined.

Lemma dropLastUnit_app (p s : jsstring) :
  s <> [] -> dropLastUnit (p ++ s) = p ++ removelast s.
Proof.
  intros Hs. unfold dropLastUnit, slice0. cbn [Z.ltb Z.compare].
  unfold str_length.
  replace (Z.to_nat (Z.max (Z.of_nat (length (p ++ s)) + -1) 0))
    with (pred (length (p ++ s))) by lia.
  rewrite <- removelast_firstn_len. now apply removelast_app.
Qed.

(** Editing the export path: text is appended as it is typed, and
    Backspace takes the last code unit away, so that a code unit typed
    and deleted leaves the state as it was; on the empty path Backspace
    does nothing. *)
Theorem export_path_editing `{Host} (st : AppState) (s : jsstring) :
  exporting st = true -> s <> [] ->
  exists st1 st2,
    handleInput st (typed s) = Return (st1, [])
    /\ exportPath st1 = exportPath st ++ s
    /\ handleInput st1 backspaceKey = Return (st2, [])
    /\ exportPath st2 = exportPath st ++ removelast s
    /\ (length s = 1%nat -> st2 = st)
    /\ dropLastUnit [] = [].
Proof.
  intros Hexp Hs.
  exists (withExport st true (exportPath st ++ s) (status st) (statusDetail st)).
  exists (withExport st true (exportPath st ++ removelast s) (status st) (statusDetail st)).
  assert (Hne : negb (str_eqb s []) = true) by (apply negb_true_iff, str_eqb_neq, Hs).
  repeat split.
  - unfold handleInput. cbv zeta. rewrite Hexp. cbn [typed escape returnKey backspace
      deleteKey input orb]. rewrite Hne. reflexivity.
  - unfold handleInput. cbv zeta.
    cbn [withExport exporting backspaceKey escape returnKey backspace deleteKey orb
         exportPath status statusDetail listState pane focus].
    rewrite (dropLastUnit_app _ s Hs). reflexivity.
  - intros Hlen. destruct s as [|u [|v s]]; try discriminate Hlen.
    cbn [removelast]. rewrite app_nil_r. destruct st. cbn in *. now subst.
Qed.

Lemma export_path_editing_witness :
  exists st1 st2,
    handleInput (withExport demoApp true (lit "/work/a.md") [] []) (typed (lit "x"))
    = Return (st1, [])
    /\ exportPath st1 = lit "/work/a.mdx"
    /\ handleInput st1 backspaceKey = Return (st2, [])
    /\ st2 = withExport demoApp true (lit "/work/a.md") [] [].
Proof.
  destruct (export_path_editing (withExport demoApp true (lit "/work/a.md") [] [])
              (lit "x") eq_refl ltac:(discriminate))
    as (st1 & st2 & H1 & Hp1 & H2 & _ & Hsame & _).
  exists st1, st2. repeat split; [exact H1 | exact Hp1 | exact H2 | exact (Hsame eq_refl)].
Defined.

(** ** The key [e] *)

Lemma handleInput_e `{Host} (st : AppState) :
  exporting st = false ->
  handleInput st (typed (lit "e"))
  = (nextPath <- defaultExportPath (sessionValue (selectedSessionOf (listState st))) ;;
     Return (withExport st true nextPath [] [], [])).
Proof.
  intros Hexp. unfold handleInput. cbv zeta. rewrite Hexp.
  destruct (focus st); reflexivity.
Qed.

Lemma defaultExportPath_session `{Host} (s : Session) :
  exists p, defaultExportPath (sessionValue (Some s)) = Return p.
Proof.
  unfold defaultExportPath, sessionValue.
  change (getProp (VObj _) "id") with (id s).
  destruct (truthy (id s)); [eexists; reflexivity|].
  cbn [getPropStrict bindO]. change (getProp (VObj _) "path") with (VStr (path s)).
  unfold jsOr. destruct (truthy (VStr (path s))); eexists; reflexivity.
Qed.

(** The key [e] outside export mode: with a session selected the state
    enters export mode with the default path of that session and an
    empty status; with no session selected, as when the list is empty,
    the handler throws. *)
Theorem export_key_needs_a_session `{Host} (st : AppState) :
  exporting st = false ->
  (selectedSessionOf (listState st) = None ->
   handleInput st (typed (lit "e")) = Throw TypeError)
  /\ (forall s, selectedSessionOf (listState st) = Some s ->
        exists p,
          defaultExportPath (sessionValue (Some s)) = Return p
          /\ handleInput st (typed (lit "e")) = Return (withExport st true p [] [], [])).
Proof.
  intros Hexp. rewrite (handleInput_e st Hexp). split.
  - intros ->. reflexivity.
  - intros s ->. destruct (defaultExportPath_session s) as [p Hp].
    exists p. split; [exact Hp|]. rewrite Hp. reflexivity.
Qed.

Lemma export_key_needs_a_session_witness :
  handleInput (mkAppState (mkSessionsState [] 0 0 false [])
                          (initialPaneState (mkPaneEnv 24 120 None Pretty noConversation))
                          false [] [] [] FocusRight)
              (typed (lit "e"))
  = Throw TypeError
  /\ exists p,
       defaultExportPath (sessionValue (nth_error demoSessions 0)) = Return p
       /\ handleInput demoApp (typed (lit "e")) = Return (withExport demoApp true p [] [], []).
Proof.
  split.
  - apply (proj1 (export_key_needs_a_session
                    (mkAppState (mkSessionsState [] 0 0 false [])
                                (initialPaneState (mkPaneEnv 24 120 None Pretty noConversation))
                                false [] [] [] FocusRight) eq_refl)).
    reflexivity.
  - exact (proj2 (export_key_needs_a_session demoApp eq_refl) _ eq_refl).
Defined.

(** ** What a key press starts *)

Lemma resumeId_session (selected : option Session) :
  truthy (jsOr (getProp (sessionValue selected) "id") VNull) = true ->
  exists s, selected = Some s
            /\ jsOr (getProp (sessionValue selected) "id") VNull = id s
            /\ truthy (id s) = true.
Proof.
  destruct selected as [s|]; [|discriminate].
  unfold sessionValue. change (getProp (VObj _) "id") with (id s).
  unfold jsOr. destruct (truthy (id s)) eqn:Hid; [|discriminate].
  intros _. exists s. repeat split. exact Hid.
Qed.

Ltac split_handler_eq :=
  repeat match goal with
         | |- context [match focus ?s with _ => _ end] => destruct (focus s) eqn:?
         | |- context [if ?b then _ else _] => destruct b eqn:?
         | |- context [bindO ?m _] => destruct m eqn:?; cbn [bindO]
         end.

(** A key press that starts something outside the state starts one
    thing and changes nothing in the state.  The program is left only by
    [q] outside export mode; the file is written only by Enter in export
    mode, to the path being edited; the companion tool is started only
    by [c] with the focus on the list, for a selected session whose id
    is truthy, and with that id. *)
Theorem handleInput_actions `{Host} (st st' : AppState) (key : InputKey)
    (actions : list Action) (action : Action) :
  handleInput st key = Return (st', actions) ->
  In action actions ->
  st' = st /\ actions = [action]
  /\ match action with
     | Exit => exporting st = false /\ input key = lit "q"
     | SubmitExport target =>
         exporting st = true /\ returnKey key = true /\ target = exportPath st
     | LaunchResume resumeId =>
         exporting st = false /\ focus st = FocusLeft /\ input key = lit "c"
         /\ exists s, selectedSessionOf (listState st) = Some s
                      /\ id s = resumeId /\ truthy resumeId = true
     end.
Proof.
  unfold handleInput. cbv zeta.
  split_handler_eq; intros Hret Hin; try discriminate Hret;
    injection Hret as <- <-; cbn [In] in Hin; try contradiction;
    destruct Hin as [<- | []]; (split; [reflexivity|]); (split; [reflexivity|]).
  all: first
    [ solve [repeat split; assumption]
    | solve [split; [reflexivity|]; now apply str_eqb_eq]
    | repeat split; try (now apply str_eqb_eq);
      match goal with
      | Hn : negb (truthy ?r) = false |- _ =>
          apply negb_false_iff in Hn;
          destruct (resumeId_session _ Hn) as (s & Hs & Hid & Ht);
          exists s; rewrite Hid; repeat split; [exact Hs | exact Ht]
      end ].
Qed.

Lemma handleInput_actions_witness :
  exists st',
    handleInput demoApp (typed (lit "c")) = Return (st', [LaunchResume (VStr (lit "id-a"))])
    /\ st' = demoApp
    /\ exists s, selectedSessionOf (listState demoApp) = Some s
                 /\ id s = VStr (lit "id-a").
Proof.
  exists demoApp. split; [reflexivity|].
  destruct (handleInput_actions demoApp demoApp (typed (lit "c"))
              [LaunchResume (VStr (lit "id-a"))] (LaunchResume (VStr (lit "id-a")))
              eq_refl (or_introl eq_refl))
    as (_ & _ & _ & _ & _ & s & Hs & Hid & _).
  split; [reflexivity|]. exists s. split; [exact Hs | exact Hid].
Defined.

(** ** The session list on screen *)

Lemma listRows_nth (selected maxLabelWidth : Z) (visible : list Session) :
  forall (actualIndex : Z) (i : nat),
    nth_error (listRows selected maxLabelWidth actualIndex visible) i
    = option_map
        (fun session =>
           (if actualIndex + Z.of_nat i =? selected then lit "> " else lit "  ")
             ++ truncateLabel (Some (label session)) maxLabelWidth)
        (nth_error visible i).
Proof.
  induction visible as [|session rest IH]; intros actualIndex i.
  - destruct i; reflexivity.
  - destruct i as [|i].
    + cbn [listRows nth_error option_map]. now rewrite Z.add_0_r.
    + cbn [listRows nth_error]. rewrite IH.
      now replace (actualIndex + 1 + Z.of_nat i) with (actualIndex + Z.of_nat (S i)) by lia.
Qed.

Lemma listRows_length (selected maxLabelWidth : Z) (visible : list Session) :
  forall actualIndex,
    length (listRows selected maxLabelWidth actualIndex visible) = length visible.
Proof.
  induction visible as [|session rest IH]; intros actualIndex; [reflexivity|].
  cbn [listRows length]. now rewrite IH.
Qed.

Lemma jsSlice_nth {A : Type} (l : list A) (offset visibleCount : Z) (i : nat) :
  0 <= offset -> 0 <= visibleCount ->
  nth_error (jsSlice l offset (offset + visibleCount)) i
  = if Z.of_nat i <? visibleCount then nth_error l (Z.to_nat offset + i) else None.
Proof.
  intros Ho Hv. unfold jsSlice.
  destruct (offset <? 0) eqn:E1; [apply Z.ltb_lt in E1; lia|].
  destruct (offset + visibleCount <? 0) eqn:E2; [apply Z.ltb_lt in E2; lia|].
  rewrite nth_error_firstn, nth_error_skipn.
  destruct (Z.of_nat i <? visibleCount) eqn:Ei.
  - apply Z.ltb_lt in Ei.
    destruct (Z_lt_le_dec (offset + Z.of_nat i) (Z.of_nat (length l))) as [Hin | Hout].
    + replace (PeanoNat.Nat.ltb i _) with true
        by (symmetry; apply PeanoNat.Nat.ltb_lt; lia).
      f_equal. lia.
    + replace (nth_error l (Z.to_nat offset + i)) with (@None A)
        by (symmetry; apply nth_error_None; lia).
      destruct (PeanoNat.Nat.ltb i _); [|reflexivity].
      apply nth_error_None. lia.
  - apply Z.ltb_ge in Ei.
    replace (PeanoNat.Nat.ltb i _) with false; [reflexivity|].
    symmetry. apply PeanoNat.Nat.ltb_ge. lia.
Qed.

Lemma listView_rows (ls : SessionsState) (visibleCount maxLabelWidth : Z) :
  loadingSessions ls = false -> sessionsError ls = [] ->
  selectionInRange ls -> selectionVisible ls visibleCount ->
  exists rows,
    ListView ls visibleCount maxLabelWidth = ViewSessions rows
    /\ Z.of_nat (length rows) = Z.min visibleCount (Z.of_nat (length (sessions ls)))
    /\ forall i,
         nth_error rows i
         = if Z.of_nat i <? visibleCount
           then option_map
                  (fun session =>
                     (if scrollOffset ls + Z.of_nat i =? selectedIndex ls
                      then lit "> " else lit "  ")
                       ++ truncateLabel (Some (label session)) maxLabelWidth)
                  (nth_error (sessions ls) (Z.to_nat (scrollOffset ls) + i))
           else None.
Proof.
  intros Hload Herr Hsel ((Hlo & Hhi) & Hoff0 & Hoff).
  unfold selectionInRange in Hsel.
  unfold ListView. rewrite Hload, Herr. cbn [str_eqb negb].
  destruct (length (sessions ls) =? 0)%nat eqn:Hlen;
    [apply PeanoNat.Nat.eqb_eq in Hlen; lia|].
  eexists. split; [reflexivity|]. split.
  - rewrite listRows_length. apply jsSlice_length; lia.
  - intros i. rewrite listRows_nth, jsSlice_nth by lia.
    destruct (Z.of_nat i <? visibleCount); reflexivity.
Qed.

(** The selected session is always on screen.  When the list is loaded,
    the selection is a session of it and the window holds the selection,
    the list pane shows [min(visibleCount, sessions)] rows, the row of
    the selection is its label, cut to the label width, after the marker
    [> ], and every other row starts with two spaces. *)
Theorem listView_marks_selection (ls : SessionsState) (visibleCount maxLabelWidth : Z) :
  loadingSessions ls = false -> sessionsError ls = [] ->
  selectionInRange ls -> selectionVisible ls visibleCount ->
  exists rows selected,
    ListView ls visibleCount maxLabelWidth = ViewSessions rows
    /\ Z.of_nat (length rows) = Z.min visibleCount (Z.of_nat (length (sessions ls)))
    /\ selectedSessionOf ls = Some selected
    /\ nth_error rows (Z.to_nat (selectedIndex ls - scrollOffset ls))
       = Some (lit "> " ++ truncateLabel (Some (label selected)) maxLabelWidth)
    /\ forall i row,
         nth_error rows i = Some row ->
         i <> Z.to_nat (selectedIndex ls - scrollOffset ls) ->
         exists session,
           nth_error (sessions ls) (Z.to_nat (scrollOffset ls) + i) = Some session
           /\ row = lit "  " ++ truncateLabel (Some (label session)) maxLabelWidth.
Proof.
  intros Hload Herr Hsel Hvis.
  destruct (listView_rows ls visibleCount maxLabelWidth Hload Herr Hsel Hvis)
    as (rows & Hview & Hlen & Hnth).
  destruct Hvis as ((Hlo & Hhi) & Hoff0 & Hoff). unfold selectionInRange in Hsel.
  destruct (nth_error (sessions ls) (Z.to_nat (selectedIndex ls))) as [selected|] eqn:Hs;
    [|apply nth_error_None in Hs; lia].
  exists rows, selected. split; [exact Hview|]. split; [exact Hlen|]. split; [|split].
  - unfold selectedSessionOf.
    destruct (selectedIndex ls <? 0) eqn:E; [apply Z.ltb_lt in E; lia|]. exact Hs.
  - rewrite Hnth.
    replace (Z.of_nat (Z.to_nat (selectedIndex ls - scrollOffset ls)) <? visibleCount)
      with true by (symmetry; apply Z.ltb_lt; lia).
    replace (Z.to_nat (scrollOffset ls) + Z.to_nat (selectedIndex ls - scrollOffset ls))%nat
      with (Z.to_nat (selectedIndex ls)) by lia.
    rewrite Hs. cbn [option_map].
    replace (scrollOffset ls + Z.of_nat (Z.to_nat (selectedIndex ls - scrollOffset ls))
             =? selectedIndex ls) with true by (symmetry; apply Z.eqb_eq; lia).
    reflexivity.
  - intros i row Hrow Hi. rewrite Hnth in Hrow.
    destruct (Z.of_nat i <? visibleCount); [|discriminate Hrow].
    destruct (nth_error (sessions ls) (Z.to_nat (scrollOffset ls) + i)) as [session|];
      [|discriminate Hrow].
    exists session. split; [reflexivity|].
    cbn [option_map] in Hrow.
    replace (scrollOffset ls + Z.of_nat i =? selectedIndex ls) with false in Hrow
      by (symmetry; apply Z.eqb_neq; lia).
    now injection Hrow as <-.
Qed.

Lemma listView_marks_selection_witness :
  exists rows selected,
    ListView (mkSessionsState demoSessions 1 1 false []) 2 21 = ViewSessions rows
    /\ Z.of_nat (length rows) = Z.min 2 3
    /\ selectedSessionOf (mkSessionsState demoSessions 1 1 false []) = Some selected
    /\ nth_error rows 0 = Some (lit "> " ++ truncateLabel (Some (label selected)) 21)
    /\ forall i row,
         nth_error rows i = Some row -> i <> 0%nat ->
         exists session,
           nth_error demoSessions (1 + i) = Some session
           /\ row = lit "  " ++ truncateLabel (Some (label session)) 21.
Proof.
  assert (Hsel : selectionInRange (mkSessionsState demoSessions 1 1 false [])).
  { unfold selectionInRange. cbn. lia. }
  assert (Hvis : selectionVisible (mkSessionsState demoSessions 1 1 false []) 2).
  { unfold selectionVisible. cbn. lia. }
  exact (listView_marks_selection (mkSessionsState demoSessions 1 1 false []) 2 21
           eq_refl eq_refl Hsel Hvis).
Defined.

(* ================================================================== *)
(** * The files of the scan *)
(* ================================================================== *)

Section Located.
Context `{Host}.

Lemma findJsonlFiles_cons (dir name : jsstring) (entry : fsNode)
    (rest : list (jsstring * fsNode)) :
  findJsonlFiles dir (FsDir (Some ((name, entry) :: rest)))
  = match entry with
    | FsDir _ => findJsonlFiles (path_join dir name) entry
    | FsFile info =>
        if endsWith name (lit ".jsonl") then [(path_join dir name, info)] else []
    | FsOther => []
    end ++ findJsonlFiles dir (FsDir (Some rest)).
Proof. reflexivity. Qed.

Lemma height_cons (name : jsstring) (entry : fsNode) (rest : list (jsstring * fsNode)) :
  height (FsDir (Some ((name, entry) :: rest)))
  = S (Nat.max (height entry) (pred (height (FsDir (Some rest))))).
Proof. reflexivity. Qed.

Lemma height_entry (entries : list (jsstring * fsNode)) (name : jsstring) (entry : fsNode) :
  In (name, entry) entries -> (height entry < height (FsDir (Some entries)))%nat.
Proof.
  induction entries as [|[n e] rest IH]; intros Hin; [destruct Hin|].
  rewrite height_cons. destruct Hin as [Heq | Hin].
  - injection Heq as -> ->. lia.
  - specialize (IH Hin). lia.
Qed.

Lemma found_weaken (dir : jsstring) (entry : jsstring * fsNode)
    (rest : list (jsstring * fsNode)) (p : jsstring) (info : FileInfo) :
  found dir (FsDir (Some rest)) p info ->
  found dir (FsDir (Some (entry :: rest))) p info.
Proof.
  intros Hf. inversion Hf; subst.
  - apply found_file; [now right | assumption].
  - eapply found_below; [right; eassumption | assumption].
Qed.

Lemma findJsonlFiles_sound (n : nat) :
  forall node dir p info,
    (height node < n)%nat ->
    In (p, info) (findJsonlFiles dir node) -> found dir node p info.
Proof.
  induction n as [|n IH]; intros node dir p info Hn Hin; [lia|].
  destruct node as [i | [entries|] | ]; try (destruct Hin; fail).
  induction entries as [|[name entry] rest IHe]; [destruct Hin|].
  rewrite findJsonlFiles_cons in Hin. apply in_app_or in Hin.
  destruct Hin as [Hin | Hin].
  - destruct entry as [i | listing | ].
    + destruct (endsWith name (lit ".jsonl")) eqn:Hext; [|destruct Hin].
      destruct Hin as [Heq | []]. injection Heq as <- <-.
      apply found_file; [now left | exact Hext].
    + eapply found_below; [now left|].
      apply IH; [|exact Hin].
      pose proof (height_entry ((name, FsDir listing) :: rest) name (FsDir listing)
                    (or_introl eq_refl)). lia.
    + destruct Hin.
  - apply found_weaken. apply IHe; [|exact Hin].
    rewrite height_cons in Hn. destruct rest; cbn [height] in *; lia.
Qed.

Lemma findJsonlFiles_member (dir : jsstring) (entries : list (jsstring * fsNode))
    (name : jsstring) (entry : fsNode) (x : jsstring * FileInfo) :
  In (name, entry) entries ->
  In x (findJsonlFiles dir (FsDir (Some [(name, entry)]))) ->
  In x (findJsonlFiles dir (FsDir (Some entries))).
Proof.
  intros Hin Hx. rewrite findJsonlFiles_cons in Hx. rewrite app_nil_r in Hx.
  induction entries as [|[n e] rest IH]; [destruct Hin|].
  rewrite findJsonlFiles_cons. apply in_or_app.
  destruct Hin as [Heq | Hin].
  - injection Heq as -> ->. now left.
  - right. now apply IH.
Qed.

Lemma findJsonlFiles_complete (dir : jsstring) (node : fsNode) (p : jsstring)
    (info : FileInfo) :
  found dir node p info -> In (p, info) (findJsonlFiles dir node).
Proof.
  induction 1 as [dir entries name info Hin Hext
                 | dir entries name listing p info Hin Hf IH].
  - apply (findJsonlFiles_member dir entries name (FsFile info)); [exact Hin|].
    rewrite findJsonlFiles_cons, Hext. now left.
  - apply (findJsonlFiles_member dir entries name (FsDir listing)); [exact Hin|].
    rewrite findJsonlFiles_cons. apply in_or_app. now left.
Qed.

(** The search returns exactly the session files that can be reached: a
    path is returned, with the content of its file, if and only if it is
    the path of a regular file whose name ends in [.jsonl], below the
    root through directories that can be read.  Nothing is returned from
    below a directory that cannot be read, and no entry that is not a
    regular file is returned. *)
Theorem findJsonlFiles_exactly_reachable (dir : jsstring) (root : fsNode) (p : jsstring)
    (info : FileInfo) :
  In (p, info) (findJsonlFiles dir root) <-> found dir root p info.
Proof.
  split.
  - apply (findJsonlFiles_sound (S (height root))). lia.
  - apply findJsonlFiles_complete.
Qed.
End Located.

Lemma findJsonlFiles_exactly_reachable_witness :
  found (lit "/s") demoTree (lit "/s/sub/b.jsonl") (mkFileInfo None None)
  /\ ~ found (lit "/s") demoTree (lit "/s/notes.txt") (mkFileInfo None None).
Proof.
  split.
  - apply (proj1 (findJsonlFiles_exactly_reachable (lit "/s") demoTree
                    (lit "/s/sub/b.jsonl") (mkFileInfo None None))).
    vm_compute. right. left. reflexivity.
  - intros Hf.
    apply (proj2 (findJsonlFiles_exactly_reachable (lit "/s") demoTree
                    (lit "/s/notes.txt") (mkFileInfo None None))) in Hf.
    vm_compute in Hf. destruct Hf as [Hf | [Hf | []]]; discriminate Hf.
Defined.

(** ** A session file without metadata *)

Lemma readSessionMeta_null `{Host} (info : FileInfo) :
  (forall first parsed,
     firstLine info = Some first ->
     JSON_parse (trim first) = Some parsed ->
     isStr (getProp parsed "type") "session_meta" = false) ->
  readSessionMeta info = VNull.
Proof.
  intros Hno. unfold readSessionMeta.
  destruct (firstLine info) as [first|]; [|reflexivity].
  destruct (str_eqb (trim first) []); [reflexivity|].
  destruct (JSON_parse (trim first)) as [parsed|] eqn:Hp; [|reflexivity].
  now rewrite (Hno first parsed eq_refl Hp).
Qed.

(** A file whose first line cannot be read, is empty, is not JSON or is
    not a [session_meta] record is still a session of the list: it has
    no id and no git data, and its label is the time in its file name
    when the name has one, else its path relative to the sessions
    directory. *)
Theorem describeSession_without_meta `{Host} (baseDir filePath : jsstring)
    (info : FileInfo) :
  (forall first parsed,
     firstLine info = Some first ->
     JSON_parse (trim first) = Some parsed ->
     isStr (getProp parsed "type") "session_meta" = false) ->
  id (describeSession baseDir (filePath, info)) = VNull
  /\ git (describeSession baseDir (filePath, info)) = VNull
  /\ path (describeSession baseDir (filePath, info)) = filePath
  /\ label (describeSession baseDir (filePath, info))
     = match parseTimestampFromFilename filePath with
       | Some (u :: ts) => u :: ts
       | _ => path_relative baseDir filePath
       end.
Proof.
  intros Hno. unfold describeSession, buildSessionLabel.
  rewrite (readSessionMeta_null info Hno). cbn [id git path label].
  repeat split.
Qed.

Lemma describeSession_without_meta_witness :
  id (describeSession (lit "/s") (lit "/s/x.jsonl", mkFileInfo (Some (lit "{")) None)) = VNull
  /\ label (describeSession (lit "/s") (lit "/s/x.jsonl", mkFileInfo (Some (lit "{")) None))
     = match parseTimestampFromFilename (lit "/s/x.jsonl") with
       | Some (u :: ts) => u :: ts
       | _ => path_relative (lit "/s") (lit "/s/x.jsonl")
       end.
Proof.
  assert (Hno : forall first parsed,
             firstLine (mkFileInfo (Some (lit "{")) None) = Some first ->
             JSON_parse (trim first) = Some parsed ->
             isStr (getProp parsed "type") "session_meta" = false).
  { intros first parsed Hfirst. injection Hfirst as <-. vm_compute. discriminate. }
  destruct (describeSession_without_meta (lit "/s") (lit "/s/x.jsonl")
              (mkFileInfo (Some (lit "{")) None) Hno) as (Hid & _ & _ & Hlabel).
  split; [exact Hid | exact Hlabel].
Defined.

(* ================================================================== *)
(** * Display width and concatenation *)
(* ================================================================== *)

Lemma widthOf_chars_units (s : jsstring) : widthOf (chars s) <= 2 * str_length s.
Proof.
  unfold str_length.
  induction s as [| u | u l rest E IH | u l rest E IH] using chars_ind.
  - change (chars []) with (@nil jsstring). rewrite widthOf_nil. cbn. lia.
  - change (chars [u]) with [[u]]. rewrite widthOf_cons, widthOf_nil.
    pose proof (charWidth_range [u]). cbn [length]. lia.
  - rewrite chars_cons2, E, widthOf_cons.
    pose proof (charWidth_range [u; l]). cbn [length] in *. lia.
  - rewrite chars_cons2, E, widthOf_cons.
    pose proof (charWidth_range [u]). cbn [length] in *. lia.
Qed.

(** The display width of a string is between 0 and twice its number of
    code units, and it is that number for printable ASCII.  Joining two
    strings never gives more than the sum of their widths, and gives the
    sum unless the join makes a surrogate pair of the last code unit of
    the first and the first code unit of the second. *)
Theorem stringWidth_concat (a b : jsstring) :
  0 <= stringWidth (Some a) <= 2 * str_length a
  /\ (Forall isPrintable a -> stringWidth (Some a) = str_length a)
  /\ stringWidth (Some (a ++ b)) <= stringWidth (Some a) + stringWidth (Some b)
  /\ (isHighSurrogate (last a 0%N) && isLowSurrogate (hd 0%N b) = false ->
      stringWidth (Some (a ++ b)) = stringWidth (Some a) + stringWidth (Some b)).
Proof.
  split; [|split; [|split]].
  - rewrite stringWidth_chars. split; [apply widthOf_nonneg | apply widthOf_chars_units].
  - apply stringWidth_printable.
  - rewrite !stringWidth_chars. apply widthOf_chars_app.
  - apply stringWidth_app_split.
Qed.

Lemma stringWidth_concat_witness :
  stringWidth (Some ([55357%N] ++ [56832%N])) = 2
  /\ stringWidth (Some [55357%N]) + stringWidth (Some [56832%N]) = 4
  /\ stringWidth (Some (lit "ab" ++ [55357%N; 56832%N]))
     = stringWidth (Some (lit "ab")) + stringWidth (Some [55357%N; 56832%N])
  /\ stringWidth (Some (lit "ab")) = str_length (lit "ab").
Proof.
  split; [reflexivity|]. split; [reflexivity|]. split.
  - exact (proj2 (proj2 (proj2 (stringWidth_concat (lit "ab") [55357%N; 56832%N]))) eq_refl).
  - exact (proj1 (proj2 (stringWidth_concat (lit "ab") []))
             (printable_check (lit "ab") eq_refl)).
Defined.
